(** * The partr multi-queue scheduler of [src/partr.c]

    A shallow embedding of the multi-queue (sharded 8-ary heaps of task
    handles), of the sleep controller and of the worker acquisition loop,
    followed by the properties of the scheduler that are stated about it.

    Conventions of the embedding.
    - [int16_t] values are integers of [Z]; every conversion to [int16_t]
      the C code performs is written out with [int16] (two's complement
      wrap-around).
    - A task handle ([jl_task_t*]) is a non-null address [ptr]; a slot of a
      heap holds [option ptr], [None] being [NULL].  The task objects live
      in a store [mem], so that two slots holding the same handle alias.
    - A function of the C file becomes a function on the scheduler state
      [sched] returning a [result]: [Done] with the value returned,
      [Fault] when the C code would index an array out of its bounds or
      dereference [NULL], [Timeout] when a loop that has no bound of its own
      has used up its fuel.
    - Operations run one at a time; what other threads do shows only in the
      state an operation starts from (a shard lock held elsewhere, a task
      owned by another worker, the controller state). *)

From Stdlib Require Import ZArith Lia String Ascii List Bool Permutation.
From stdpp Require Import base option list.

Local Open Scope Z_scope.

(** ** Machine integers *)

Definition INT16_MAX : Z := 32767.
Definition INT16_MIN : Z := -32768.

(** Conversion of an [int] to [int16_t]. *)
Definition int16 (z : Z) : Z := (z + 32768) mod 65536 - 32768.

Definition in_int16 (z : Z) : Prop := INT16_MIN <= z <= INT16_MAX.

(** ** Results of running a C function *)

Inductive result (A : Type) : Type :=
| Done (a : A)
| Fault
| Timeout.
Arguments Done {A} a.
Arguments Fault {A}.
Arguments Timeout {A}.

Global Instance result_ret : MRet result := fun A a => Done a.
Global Instance result_bind : MBind result := fun A B f r =>
  match r with
  | Done a => f a
  | Fault => Fault
  | Timeout => Timeout
  end.

(** [a[i]] and [a[i] = x] on a C array, with the bounds checked. *)
Definition load {A} (a : list A) (i : Z) : result A :=
  if i <? 0 then Fault
  else match a !! Z.to_nat i with
       | Some x => Done x
       | None => Fault
       end.

Definition store {A} (a : list A) (i : Z) (x : A) : result (list A) :=
  if (0 <=? i) && (i <? Z.of_nat (length a)) then Done (<[Z.to_nat i := x]> a)
  else Fault.

(** [jl_atomic_compare_exchange(&obj, expected, desired)]: the new content of
    [obj] and the value it held before. *)
Definition jl_atomic_compare_exchange (obj expected desired : Z) : Z * Z :=
  if obj =? expected then (desired, obj) else (obj, obj).

(** ** Tasks *)

Definition ptr : Type := positive.

(** The two fields of [jl_task_t] the scheduler touches. *)
Record jl_task_t : Type := { prio : Z; tid : Z }.

Definition memory : Type := ptr -> jl_task_t.

Definition set_task_prio (m : memory) (t : ptr) (p : Z) : memory :=
  fun q => if Pos.eqb q t then {| prio := p; tid := tid (m q) |} else m q.

Definition set_task_tid (m : memory) (t : ptr) (w : Z) : memory :=
  fun q => if Pos.eqb q t then {| prio := prio (m q); tid := w |} else m q.

(** [jl_atomic_compare_exchange(&t->tid, expected, desired)]: the store after
    the exchange and the value [t->tid] held before. *)
Definition cas_task_tid (m : memory) (t : ptr) (expected desired : Z) : memory * Z :=
  if tid (m t) =? expected then (set_task_tid m t desired, tid (m t))
  else (m, tid (m t)).

(** [p->field] for a possibly null [p]. *)
Definition deref (m : memory) (p : option ptr) : result jl_task_t :=
  match p with
  | Some t => Done (m t)
  | None => Fault
  end.

(** ** A task heap *)

(** [taskheap_t]; [lock] tells whether the shard's mutex is held, [heap_prio]
    is the field [prio] of the C struct. *)
Record taskheap_t : Type := {
  lock : bool;
  tasks : list (option ptr);
  ntasks : Z;
  heap_prio : Z
}.

Definition set_lock (h : taskheap_t) (b : bool) : taskheap_t :=
  {| lock := b; tasks := tasks h; ntasks := ntasks h; heap_prio := heap_prio h |}.
Definition set_tasks (h : taskheap_t) (ts : list (option ptr)) : taskheap_t :=
  {| lock := lock h; tasks := ts; ntasks := ntasks h; heap_prio := heap_prio h |}.
Definition set_ntasks (h : taskheap_t) (n : Z) : taskheap_t :=
  {| lock := lock h; tasks := tasks h; ntasks := n; heap_prio := heap_prio h |}.
Definition set_heap_prio (h : taskheap_t) (p : Z) : taskheap_t :=
  {| lock := lock h; tasks := tasks h; ntasks := ntasks h; heap_prio := p |}.

(** Multiqueue parameters. *)
Definition heap_d : Z := 8.
Definition heap_c : Z := 4.
Definition tasks_per_heap : Z := 8192.

(** Fuel for the recursion of [sift_up] and [sift_down]: they recurse along
    one branch of an 8-ary tree of at most [tasks_per_heap] nodes, and
    [sift_down] spends one unit per child inspected. *)
Definition sift_up_fuel : nat := 8.
Definition sift_down_fuel : nat := 64.

(** [sift_up(heap, idx)] *)
Fixpoint sift_up_rec (fuel : nat) (m : memory) (heap : taskheap_t) (idx : Z)
  : result taskheap_t :=
  match fuel with
  | O => Timeout
  | S fuel =>
    if 0 <? idx then
      let parent := int16 (Z.quot (idx - 1) heap_d) in
      ti ← load (tasks heap) idx;
      ci ← deref m ti;
      tp ← load (tasks heap) parent;
      cp ← deref m tp;
      if prio ci <? prio cp then
        ts1 ← store (tasks heap) parent ti;
        ts2 ← store ts1 idx tp;
        sift_up_rec fuel m (set_tasks heap ts2) parent
      else Done heap
    else Done heap
  end.

Definition sift_up (m : memory) (heap : taskheap_t) (idx : Z) : result taskheap_t :=
  sift_up_rec sift_up_fuel m heap idx.

(** [sift_down(heap, idx)].  [sift_down_children] is the [for] loop over the
    children, entered at [child]; after the recursive call on a child the
    loop goes on with the next child, comparing it with the task that is
    now at [idx]. *)
Fixpoint sift_down_rec (fuel : nat) (m : memory) (heap : taskheap_t) (idx : Z)
  : result taskheap_t :=
  match fuel with
  | O => Timeout
  | S fuel =>
    if idx <? ntasks heap then
      sift_down_children fuel m heap idx (int16 (heap_d * idx + 1))
    else Done heap
  end
with sift_down_children (fuel : nat) (m : memory) (heap : taskheap_t) (idx child : Z)
  : result taskheap_t :=
  match fuel with
  | O => Timeout
  | S fuel =>
    if (child <? tasks_per_heap) && (child <=? heap_d * idx + heap_d) then
      tc ← load (tasks heap) child;
      match tc with
      | Some c =>
        ti ← load (tasks heap) idx;
        ci ← deref m ti;
        if prio (m c) <? prio ci then
          ts1 ← store (tasks heap) idx tc;
          ts2 ← store ts1 child ti;
          heap' ← sift_down_rec fuel m (set_tasks heap ts2) child;
          sift_down_children fuel m heap' idx (int16 (child + 1))
        else sift_down_children fuel m heap idx (int16 (child + 1))
      | None => sift_down_children fuel m heap idx (int16 (child + 1))
      end
    else Done heap
  end.

Definition sift_down (m : memory) (heap : taskheap_t) (idx : Z) : result taskheap_t :=
  sift_down_rec sift_down_fuel m heap idx.

Lemma sift_up_unfold m heap idx :
  sift_up m heap idx = sift_up_rec sift_up_fuel m heap idx.
Proof. reflexivity. Qed.

Lemma sift_down_unfold m heap idx :
  sift_down m heap idx = sift_down_rec sift_down_fuel m heap idx.
Proof. reflexivity. Qed.

(** The sifts are unfolded through these two equations only. *)
Global Opaque sift_up sift_down.

(** ** What the file takes from elsewhere *)

(** The thread-local generator of [julia_internal.h], which is not part of
    this file: [cong max unbias seed] is the call
    [cong(max, unbias, &seed)], giving the number drawn and the new seed;
    [unbias_cong max] is the cut-off computed by [unbias_cong(max, &unbias)].
    All that is assumed of it is that a draw is an index below [max]. *)
Class Rng : Type := {
  seed_t : Type;
  cong : Z -> Z -> seed_t -> Z * seed_t;
  unbias_cong : Z -> Z;
  cong_range : forall max unbias seed,
    0 < max -> 0 <= fst (cong max unbias seed) < max
}.

(** A generator that replays a given list of numbers (reduced modulo [max]),
    and draws 0 once the list is used up.  It stands for the thread-local
    generator wherever a concrete run is needed. *)
Definition replay_cong (max unbias : Z) (seed : list Z) : Z * list Z :=
  match seed with
  | [] => (0, [])
  | x :: seed' => (x mod max, seed')
  end.

Lemma replay_cong_range max unbias seed :
  0 < max -> 0 <= fst (replay_cong max unbias seed) < max.
Proof.
  intros Hmax. destruct seed as [|x seed']; simpl.
  - lia.
  - apply Z.mod_pos_bound. exact Hmax.
Qed.

Definition replay_rng : Rng :=
  {| seed_t := list Z;
     cong := replay_cong;
     unbias_cong := fun _ => 0;
     cong_range := replay_cong_range |}.

(** ** The scheduler state *)

(** What an operation may leave behind for the other threads and for libuv. *)
Inductive event : Type :=
| UvCondSignal (t : Z)   (* uv_cond_signal on the park slot of thread t *)
| UvCondWait (t : Z)     (* uv_cond_wait on the park slot of thread t *)
| JlWakeLibuv
| UvStop
| UvRun
| JlProcessEvents.

(** [thread_sleep_t]: the mutex of a park slot (the condition variable has
    no state of its own; signals and waits are recorded in the trace). *)
Record thread_sleep_t : Type := { sleep_lock : bool }.

Definition not_sleeping : Z := 0.
Definition checking_for_sleeping : Z := 1.
Definition sleeping : Z := 2.

Inductive completion (A : Type) : Type :=
| Returned (a : A)
| Raised (msg : string).   (* jl_error *)
Arguments Returned {A} a.
Arguments Raised {A} msg.

Section Scheduler.
Context {R : Rng}.

(** The fields of the calling thread's [jl_ptls_t] that are used. *)
Record jl_tls_states_t : Type := { tls_tid : Z; rngseed : seed_t }.

Record sched : Type := {
  mem : memory;
  heaps : list taskheap_t;
  heap_p : Z;
  cong_unbias : Z;
  all_sleep_states : list (option thread_sleep_t);
  sleep_check_state : Z;
  sleep_threshold : Z;
  jl_n_threads : Z;
  jl_uv_mutex : option Z;       (* tid of the owner of the event-loop mutex *)
  jl_uv_n_waiters : Z;
  ptls : jl_tls_states_t;       (* jl_get_ptls_states() of the caller *)
  trace : list event
}.

Definition set_mem (s : sched) (m : memory) : sched :=
  {| mem := m; heaps := heaps s; heap_p := heap_p s; cong_unbias := cong_unbias s;
     all_sleep_states := all_sleep_states s; sleep_check_state := sleep_check_state s;
     sleep_threshold := sleep_threshold s; jl_n_threads := jl_n_threads s;
     jl_uv_mutex := jl_uv_mutex s; jl_uv_n_waiters := jl_uv_n_waiters s;
     ptls := ptls s; trace := trace s |}.
Definition set_heaps (s : sched) (hs : list taskheap_t) : sched :=
  {| mem := mem s; heaps := hs; heap_p := heap_p s; cong_unbias := cong_unbias s;
     all_sleep_states := all_sleep_states s; sleep_check_state := sleep_check_state s;
     sleep_threshold := sleep_threshold s; jl_n_threads := jl_n_threads s;
     jl_uv_mutex := jl_uv_mutex s; jl_uv_n_waiters := jl_uv_n_waiters s;
     ptls := ptls s; trace := trace s |}.
Definition set_sleep_check_state (s : sched) (st : Z) : sched :=
  {| mem := mem s; heaps := heaps s; heap_p := heap_p s; cong_unbias := cong_unbias s;
     all_sleep_states := all_sleep_states s; sleep_check_state := st;
     sleep_threshold := sleep_threshold s; jl_n_threads := jl_n_threads s;
     jl_uv_mutex := jl_uv_mutex s; jl_uv_n_waiters := jl_uv_n_waiters s;
     ptls := ptls s; trace := trace s |}.
Definition set_all_sleep_states (s : sched) (l : list (option thread_sleep_t)) : sched :=
  {| mem := mem s; heaps := heaps s; heap_p := heap_p s; cong_unbias := cong_unbias s;
     all_sleep_states := l; sleep_check_state := sleep_check_state s;
     sleep_threshold := sleep_threshold s; jl_n_threads := jl_n_threads s;
     jl_uv_mutex := jl_uv_mutex s; jl_uv_n_waiters := jl_uv_n_waiters s;
     ptls := ptls s; trace := trace s |}.
Definition set_jl_uv_mutex (s : sched) (o : option Z) : sched :=
  {| mem := mem s; heaps := heaps s; heap_p := heap_p s; cong_unbias := cong_unbias s;
     all_sleep_states := all_sleep_states s; sleep_check_state := sleep_check_state s;
     sleep_threshold := sleep_threshold s; jl_n_threads := jl_n_threads s;
     jl_uv_mutex := o; jl_uv_n_waiters := jl_uv_n_waiters s;
     ptls := ptls s; trace := trace s |}.
Definition set_rngseed (s : sched) (seed : seed_t) : sched :=
  {| mem := mem s; heaps := heaps s; heap_p := heap_p s; cong_unbias := cong_unbias s;
     all_sleep_states := all_sleep_states s; sleep_check_state := sleep_check_state s;
     sleep_threshold := sleep_threshold s; jl_n_threads := jl_n_threads s;
     jl_uv_mutex := jl_uv_mutex s; jl_uv_n_waiters := jl_uv_n_waiters s;
     ptls := {| tls_tid := tls_tid (ptls s); rngseed := seed |}; trace := trace s |}.
(** The trace lists the events latest first. *)
Definition emit (s : sched) (e : event) : sched :=
  {| mem := mem s; heaps := heaps s; heap_p := heap_p s; cong_unbias := cong_unbias s;
     all_sleep_states := all_sleep_states s; sleep_check_state := sleep_check_state s;
     sleep_threshold := sleep_threshold s; jl_n_threads := jl_n_threads s;
     jl_uv_mutex := jl_uv_mutex s; jl_uv_n_waiters := jl_uv_n_waiters s;
     ptls := ptls s; trace := e :: trace s |}.

(** [heaps[rn] = h] *)
Definition store_heap (s : sched) (rn : Z) (h : taskheap_t) : result sched :=
  hs ← store (heaps s) rn h; Done (set_heaps s hs).

(** One draw of [cong(heap_p, cong_unbias, &ptls->rngseed)]. *)
Definition draw (s : sched) : Z * sched :=
  let '(rn, seed) := cong (heap_p s) (cong_unbias s) (rngseed (ptls s)) in
  (rn, set_rngseed s seed).

(** ** The multi-queue *)

(** [multiq_init()], for [jl_n_threads] threads. *)
Definition empty_heap : taskheap_t :=
  {| lock := false;
     tasks := replicate (Z.to_nat tasks_per_heap) None;
     ntasks := 0;
     heap_prio := INT16_MAX |}.

Definition multiq_init (s : sched) : sched :=
  let p := int16 (heap_c * jl_n_threads s) in
  {| mem := mem s; heaps := replicate (Z.to_nat p) empty_heap; heap_p := p;
     cong_unbias := unbias_cong p;
     all_sleep_states := all_sleep_states s; sleep_check_state := sleep_check_state s;
     sleep_threshold := sleep_threshold s; jl_n_threads := jl_n_threads s;
     jl_uv_mutex := jl_uv_mutex s; jl_uv_n_waiters := jl_uv_n_waiters s;
     ptls := ptls s; trace := trace s |}.

(** The loop [do rn = cong(...); while (!trylock(&heaps[rn].lock))] of
    [multiq_insert]: the shard picked, its lock now held. *)
Fixpoint multiq_insert_pick (fuel : nat) (s : sched) : result (sched * Z) :=
  match fuel with
  | O => Timeout
  | S fuel =>
    let '(rn, s) := draw s in
    h ← load (heaps s) rn;
    if lock h then multiq_insert_pick fuel s
    else s ← store_heap s rn (set_lock h true); Done (s, rn)
  end.

(** The lines [heaps[rn].tasks[heaps[rn].ntasks++] = task] and
    [sift_up(&heaps[rn], heaps[rn].ntasks-1)] of [multiq_insert], on the
    shard picked. *)
Definition multiq_insert_push (m : memory) (h : taskheap_t) (task : ptr)
  : result taskheap_t :=
  ts ← store (tasks h) (ntasks h) (Some task);
  let h := set_ntasks (set_tasks h ts) (int16 (ntasks h + 1)) in
  sift_up m h (int16 (ntasks h - 1)).

Definition multiq_insert (fuel : nat) (s : sched) (task : ptr) (priority : Z)
  : result (sched * completion Z) :=
  let s := set_mem s (set_task_prio (mem s) task priority) in
  '(s, rn) ← multiq_insert_pick fuel s;
  h ← load (heaps s) rn;
  if tasks_per_heap <=? ntasks h then
    s ← store_heap s rn (set_lock h false);
    Done (s, Raised "multiq insertion failed, increase #tasks per heap")
  else
    h ← multiq_insert_push (mem s) h task;
    let h := set_lock h false in
    let prio0 := heap_prio h in
    let h :=
      if prio (mem s task) <? prio0
      then set_heap_prio h (fst (jl_atomic_compare_exchange (heap_prio h) prio0 (prio (mem s task))))
      else h in
    s ← store_heap s rn h;
    Done (s, Returned 0).

(** The [for] loop of [multiq_deletemin], entered with loop counter [i] and
    with [rn1] as the previous iteration left it; [n] bounds the iterations
    still to run.  The result is the loop counter and [rn1] on exit: on
    [break] the lock of [heaps[rn1]] is held and [i < heap_p]. *)
Fixpoint multiq_deletemin_probe (n : nat) (s : sched) (i rn1 : Z)
  : result (sched * Z * Z) :=
  if i <? heap_p s then
    match n with
    | O => Timeout
    | S n =>
      let '(rn1, s) := draw s in
      let '(rn2, s) := draw s in
      h1 ← load (heaps s) rn1;
      h2 ← load (heaps s) rn2;
      let prio1 := heap_prio h1 in
      let prio2 := heap_prio h2 in
      let '(prio1, rn1, skip) :=
        if prio2 <? prio1 then (prio2, rn2, false)
        else if (prio1 =? prio2) && (prio1 =? INT16_MAX) then (prio1, rn1, true)
        else (prio1, rn1, false) in
      if skip then multiq_deletemin_probe n s (int16 (i + 1)) rn1
      else
        h ← load (heaps s) rn1;
        if lock h then multiq_deletemin_probe n s (int16 (i + 1)) rn1
        else if prio1 =? heap_prio h then
          s ← store_heap s rn1 (set_lock h true); Done (s, i, rn1)
        else multiq_deletemin_probe n s (int16 (i + 1)) rn1
    end
  else Done (s, i, rn1).

(** The lines of [multiq_deletemin] that take the root out of the shard
    locked, from [heaps[rn1].tasks[0] = heaps[rn1].tasks[--heaps[rn1].ntasks]]
    to the store of the new cached priority. *)
Definition multiq_deletemin_pop (m : memory) (h : taskheap_t) : result taskheap_t :=
  let n := int16 (ntasks h - 1) in
  last ← load (tasks h) n;
  ts ← store (tasks h) 0 last;
  ts ← store ts n None;
  let h := set_ntasks (set_tasks h ts) n in
  '(h, prio1) ←
    (if 0 <? ntasks h then
       h ← sift_down m h 0;
       root ← load (tasks h) 0;
       c ← deref m root;
       Done (h, prio c)
     else Done (h, INT16_MAX));
  Done (set_heap_prio h prio1).

(** [multiq_deletemin()]; a unit of fuel is spent on every [goto retry]. *)
Fixpoint multiq_deletemin (fuel : nat) (s : sched) : result (sched * option ptr) :=
  match fuel with
  | O => Timeout
  | S fuel =>
    '(s, i, rn1) ← multiq_deletemin_probe (Z.to_nat (heap_p s)) s 0 0;
    if i =? heap_p s then Done (s, None)
    else
      h ← load (heaps s) rn1;
      task ← load (tasks h) 0;
      match task with
      | None => Fault   (* task->tid on a null task *)
      | Some t =>
        let self := tls_tid (ptls s) in
        let '(m, retry) :=
          if negb (tid (mem s t) =? self) then
            let '(m, old) := cas_task_tid (mem s) t (-1) self in
            (m, negb (old =? -1))
          else (mem s, false) in
        let s := set_mem s m in
        if retry then
          s ← store_heap s rn1 (set_lock h false);
          multiq_deletemin fuel s
        else
          h ← multiq_deletemin_pop (mem s) h;
          s ← store_heap s rn1 (set_lock h false);
          Done (s, Some t)
      end
  end.

(** [jl_enqueue_task(task)] *)
Definition jl_enqueue_task (fuel : nat) (s : sched) (task : ptr)
  : result (sched * completion unit) :=
  '(s, c) ← multiq_insert fuel s task (prio (mem s task));
  match c with
  | Returned _ => Done (s, Returned tt)
  | Raised msg => Done (s, Raised msg)
  end.

End Scheduler.

(** ** The sleep controller *)

Section Sleep.
Context {R : Rng}.

(** [snapshot()]: the loop over the shards, entered at [i]. *)
Fixpoint snapshot_from (n : nat) (s : sched) (i : Z) : result Z :=
  if i <? heap_p s then
    match n with
    | O => Timeout
    | S n =>
      h ← load (heaps s) i;
      if negb (ntasks h =? 0) then Done 0
      else snapshot_from n s (int16 (i + 1))
    end
  else Done 1.

Definition snapshot (s : sched) : result Z :=
  snapshot_from (Z.to_nat (heap_p s)) s 0.

(** The loop [do state = load; while (state == checking_for_sleeping)]: no
    other thread runs during an operation, so every load sees the same
    value. *)
Fixpoint spin_while_checking (fuel : nat) (s : sched) : result Z :=
  match fuel with
  | O => Timeout
  | S fuel =>
    let state := sleep_check_state s in
    if state =? checking_for_sleeping then spin_while_checking fuel s
    else Done state
  end.

(** [jl_atomic_bool_compare_exchange(&sleep_check_state, expected, desired)] *)
Definition cas_sleep_check_state (s : sched) (expected desired : Z) : sched * bool :=
  if sleep_check_state s =? expected
  then (set_sleep_check_state s desired, true)
  else (s, false).

(** [sleep_check_now()]; a unit of fuel is spent on every turn of
    [while (1)].  A failed [assert] is a [Fault]. *)
Fixpoint sleep_check_now (fuel : nat) (s : sched) : result (sched * Z) :=
  match fuel with
  | O => Timeout
  | S fuel =>
    let state := sleep_check_state s in
    if state =? checking_for_sleeping then
      state ← spin_while_checking fuel s;
      if state =? not_sleeping then Done (s, 0)
      else if state =? sleeping then Done (s, 1) else Fault
    else if state =? not_sleeping then
      let '(s, ok) := cas_sleep_check_state s not_sleeping checking_for_sleeping in
      if ok then
        empty ← snapshot s;
        if negb (empty =? 0) then
          let '(s, ok) := cas_sleep_check_state s checking_for_sleeping sleeping in
          if ok then Done (s, 1) else sleep_check_now fuel s
        else Done (set_sleep_check_state s not_sleeping, 0)
      else sleep_check_now fuel s
    else if state =? sleeping then Done (s, 1) else Fault
  end.

(** ** Waking *)

(** [wake_thread(ptls, tid)]; a park slot whose mutex is held elsewhere
    keeps the caller blocked. *)
Definition wake_thread (s : sched) (t : Z) : result sched :=
  if negb (tls_tid (ptls s) =? t) then
    on ← load (all_sleep_states s) t;
    match on with
    | None => Fault
    | Some slot =>
      if sleep_lock slot then Timeout
      else Done (emit s (UvCondSignal t))
    end
  else Done s.

(** The loop [for (tid = 0; tid < jl_n_threads; tid++) wake_thread(ptls, tid)],
    entered at [t]. *)
Fixpoint wake_threads_from (n : nat) (s : sched) (t : Z) : result sched :=
  if t <? jl_n_threads s then
    match n with
    | O => Timeout
    | S n =>
      s ← wake_thread s t;
      wake_threads_from n s (int16 (t + 1))
    end
  else Done s.

(** [jl_wakeup_thread(tid)] *)
Definition jl_wakeup_thread (s : sched) (t : Z) : result sched :=
  let self := tls_tid (ptls s) in
  s ← (if negb (t =? self) then
         let state := sleep_check_state s in
         let s := set_sleep_check_state s not_sleeping in
         if negb (sleep_threshold s =? 0) && negb (state =? not_sleeping) then
           wake_threads_from (Z.to_nat (jl_n_threads s)) s 0
         else Done s
       else Done s);
  match jl_uv_mutex s with
  | Some owner => if owner =? self then Done (emit s UvStop) else Done (emit s JlWakeLibuv)
  | None => Done (emit s JlWakeLibuv)
  end.

End Sleep.

(** ** Initialisation *)

(** [tolower] and [strncasecmp] of the C library, on strings without an
    embedded NUL. *)
Definition tolower (c : ascii) : ascii :=
  let n := nat_of_ascii c in
  if (Nat.leb 65 n) && (Nat.leb n 90) then ascii_of_nat (n + 32) else c.

Definition char_code (c : ascii) : Z := Z.of_nat (nat_of_ascii c).

Fixpoint strncasecmp (s1 s2 : string) (n : nat) : Z :=
  match n with
  | O => 0
  | S n =>
    match s1, s2 with
    | EmptyString, EmptyString => 0
    | EmptyString, String c2 _ => - char_code (tolower c2)
    | String c1 _, EmptyString => char_code (tolower c1)
    | String c1 r1, String c2 r2 =>
      let d := char_code (tolower c1) - char_code (tolower c2) in
      if d =? 0 then strncasecmp r1 r2 n else d
    end
  end.

(** What the acquisition loop and the initialisation take from the rest of
    the process: the sticky hook ([jl_apply(&getsticky, 1)], with the test
    [jl_typeis(task, jl_task_type)] applied to its answer), the clock, what
    the controller state is when [uv_cond_wait] returns, the macro
    [DEFAULT_THREAD_SLEEP_THRESHOLD] and [strtoull(cp, NULL, 10)]. *)
Class Env : Type := {
  env_t : Type;
  jl_apply_getsticky : env_t -> option ptr * env_t;
  jl_hrtime : env_t -> Z * env_t;
  uv_cond_wait : env_t -> Z * env_t;
  DEFAULT_THREAD_SLEEP_THRESHOLD : Z;
  strtoull : string -> Z
}.

(** An environment that replays given answers: the answers of the sticky
    hook, the readings of the clock and the controller states seen when a
    wait returns; a list that is used up answers "no task", 0 and
    [not_sleeping]. *)
Record replay_env_t : Type := {
  sticky_answers : list (option ptr);
  clock_readings : list Z;
  wait_returns : list Z
}.

Definition replay_env : Env :=
  {| env_t := replay_env_t;
     jl_apply_getsticky := fun e =>
       (default None (head (sticky_answers e)),
        {| sticky_answers := tail (sticky_answers e);
           clock_readings := clock_readings e; wait_returns := wait_returns e |});
     jl_hrtime := fun e =>
       (default 0 (head (clock_readings e)),
        {| sticky_answers := sticky_answers e;
           clock_readings := tail (clock_readings e); wait_returns := wait_returns e |});
     uv_cond_wait := fun e =>
       (default not_sleeping (head (wait_returns e)),
        {| sticky_answers := sticky_answers e;
           clock_readings := clock_readings e; wait_returns := tail (wait_returns e) |});
     DEFAULT_THREAD_SLEEP_THRESHOLD := 4000000;
     strtoull := fun _ => 0 |}.

Section Acquisition.
Context {R : Rng} {E : Env}.

(** [jl_init_threadinginfra()]; [cp] is what
    [getenv(THREAD_SLEEP_THRESHOLD_NAME)] returns. *)
Definition jl_init_threadinginfra (s : sched) (cp : option string) : result sched :=
  let s := multiq_init s in
  let threshold :=
    match cp with
    | Some v => if strncasecmp v "infinite" 8 =? 0 then 0 else strtoull v
    | None => DEFAULT_THREAD_SLEEP_THRESHOLD
    end in
  slots ← store (replicate (Z.to_nat (jl_n_threads s)) None) 0
                (Some {| sleep_lock := false |});
  Done {| mem := mem s; heaps := heaps s; heap_p := heap_p s;
          cong_unbias := cong_unbias s;
          all_sleep_states := slots; sleep_check_state := not_sleeping;
          sleep_threshold := threshold; jl_n_threads := jl_n_threads s;
          jl_uv_mutex := jl_uv_mutex s; jl_uv_n_waiters := jl_uv_n_waiters s;
          ptls := ptls s; trace := trace s |}.

Definition uint64 (z : Z) : Z := z mod 2 ^ 64.

(** [sleep_check_after_threshold(&start_cycles)]: the state, the new value of
    [*start_cycles] and the value returned. *)
Definition sleep_check_after_threshold (fuel : nat) (e : env_t) (s : sched)
    (start_cycles : Z) : result (sched * env_t * Z * Z) :=
  if negb (sleep_threshold s =? 0) then
    let '(now, e) := jl_hrtime e in
    if start_cycles =? 0 then Done (s, e, now, 0)
    else
      let elapsed_cycles := uint64 (now - start_cycles) in
      if sleep_threshold s <=? elapsed_cycles then
        '(s, r) ← sleep_check_now fuel s;
        if negb (r =? 0) then Done (s, e, start_cycles, 1)
        else Done (s, e, 0, 0)
      else Done (s, e, start_cycles, 0)
  else Done (s, e, start_cycles, 0).

(** [get_next_task(getsticky)] *)
Definition get_next_task (fuel : nat) (e : env_t) (s : sched)
  : result (sched * env_t * option ptr) :=
  let '(task, e) := jl_apply_getsticky e in
  match task with
  | Some t =>
    let self := tls_tid (ptls s) in
    let s :=
      if negb (tid (mem s t) =? self)
      then set_mem s (fst (cas_task_tid (mem s) t (-1) self))
      else s in
    Done (s, e, Some t)
  | None =>
    '(s, task) ← multiq_deletemin fuel s;
    Done (s, e, task)
  end.

(** The loop [while (state == sleeping) uv_cond_wait(...)] on the caller's
    park slot. *)
Fixpoint park (fuel : nat) (e : env_t) (s : sched) : result (sched * env_t) :=
  if sleep_check_state s =? sleeping then
    match fuel with
    | O => Timeout
    | S fuel =>
      let s := emit s (UvCondWait (tls_tid (ptls s))) in
      let '(state, e) := uv_cond_wait e in
      park fuel e (set_sleep_check_state s state)
    end
  else Done (s, e).

(** How a turn of [while (1)] in [jl_task_get_next] ends: with [return task],
    or at the head of the loop again with new values of the locals. *)
Inductive turn : Type :=
| Return (task : ptr)
| Continue (spin_count start_cycles : Z).

(** One turn of the loop [while (1)] of [jl_task_get_next(getsticky)], with
    the locals [spin_count] and [start_cycles]. *)
Definition jl_task_get_next_turn (fuel : nat) (e : env_t) (s : sched)
    (spin_count start_cycles : Z) : result (sched * env_t * turn) :=
  '(s, e, task) ← get_next_task fuel e s;
  match task with
  | Some t => Done (s, e, Return t)
  | None =>
    let spin_count := spin_count + 1 in
    '(s, e, spin_count, task) ←
      (if (1000 <? spin_count) && (jl_uv_n_waiters s =? 0) then
         let s := emit s JlProcessEvents in
         '(s, e, task) ← get_next_task fuel e s;
         Done (s, e, 0, task)
       else Done (s, e, spin_count, None));
    match task with
    | Some t => Done (s, e, Return t)
    | None =>
      '(s, e, start_cycles, r) ← sleep_check_after_threshold fuel e s start_cycles;
      if negb (r =? 0) then
        '(s, e, task) ← get_next_task fuel e s;
        match task with
        | Some t => Done (s, e, Return t)
        | None =>
          let self := tls_tid (ptls s) in
          let free :=
            match jl_uv_mutex s with
            | None => true
            | Some owner => owner =? self
            end in
          '(s, e, task, again) ←
            (if free then
               let owner := jl_uv_mutex s in
               let s := emit (set_jl_uv_mutex s (Some self)) UvRun in
               let s := set_jl_uv_mutex s owner in
               '(s, e, task) ← get_next_task fuel e s;
               match task with
               | Some t => Done (s, e, Some t, false)
               | None =>
                 Done (s, e, None, negb (sleep_check_state s =? sleeping))
               end
             else Done (s, e, None, false));
          match task with
          | Some t => Done (s, e, Return t)
          | None =>
            if (again : bool) then Done (s, e, Continue spin_count 0)
            else
              on ← load (all_sleep_states s) self;
              match on with
              | None => Fault
              | Some slot =>
                if sleep_lock slot then Timeout
                else
                  '(s, e) ← park fuel e s;
                  Done (s, e, Continue spin_count 0)
              end
          end
        end
      else Done (s, e, Continue spin_count start_cycles)
    end
  end.

(** The worker after at most [k] turns of the loop. *)
Fixpoint jl_task_get_next_turns (k fuel : nat) (e : env_t) (s : sched)
    (spin_count start_cycles : Z) : result (sched * env_t * turn) :=
  match k with
  | O => Done (s, e, Continue spin_count start_cycles)
  | S k =>
    '(s, e, r) ← jl_task_get_next_turn fuel e s spin_count start_cycles;
    match r with
    | Return t => Done (s, e, Return t)
    | Continue spin_count start_cycles =>
      jl_task_get_next_turns k fuel e s spin_count start_cycles
    end
  end.

(** [jl_task_get_next(getsticky)]: the loop runs until a turn returns a
    task. *)
Definition jl_task_get_next (fuel : nat) (e : env_t) (s : sched)
  : result (sched * env_t * ptr) :=
  '(s, e, r) ← jl_task_get_next_turns fuel fuel e s 0 0;
  match r with
  | Return t => Done (s, e, t)
  | Continue _ _ => Timeout
  end.

End Acquisition.

(** * Properties *)

(** ** Arrays and machine integers *)

Ltac zlia := Z.to_euclidean_division_equations; lia.

Lemma int16_id z : in_int16 z -> int16 z = z.
Proof. unfold in_int16, INT16_MIN, INT16_MAX, int16. intros Hz. zlia. Qed.

Lemma int16_range z : in_int16 (int16 z).
Proof. unfold in_int16, INT16_MIN, INT16_MAX, int16. zlia. Qed.

Lemma load_Done {A} (a : list A) i x :
  load a i = Done x <-> 0 <= i /\ a !! Z.to_nat i = Some x.
Proof.
  unfold load. destruct (Z.ltb_spec i 0) as [Hi|Hi].
  - split; [discriminate | lia].
  - destruct (a !! Z.to_nat i) as [y|]; split.
    + intros [= ->]. auto.
    + intros [_ [= ->]]. reflexivity.
    + discriminate.
    + intros [_ [=]].
Qed.

Lemma load_not_Timeout {A} (a : list A) i : load a i <> Timeout.
Proof.
  unfold load. destruct (i <? 0); [discriminate|].
  destruct (a !! Z.to_nat i); discriminate.
Qed.

Lemma load_in_range {A} (a : list A) i :
  0 <= i < Z.of_nat (length a) -> exists x, load a i = Done x.
Proof.
  intros Hi. destruct (lookup_lt_is_Some_2 a (Z.to_nat i)) as [x Hx]; [lia|].
  exists x. apply load_Done. split; [lia | exact Hx].
Qed.

Lemma store_Done {A} (a : list A) i x b :
  store a i x = Done b <->
  0 <= i < Z.of_nat (length a) /\ b = <[Z.to_nat i := x]> a.
Proof.
  unfold store.
  destruct (Z.leb_spec 0 i); destruct (Z.ltb_spec i (Z.of_nat (length a))); simpl;
    split; try discriminate; try lia.
  - intros [= <-]. auto.
  - intros [_ ->]. reflexivity.
Qed.

Lemma store_in_range {A} (a : list A) i x :
  0 <= i < Z.of_nat (length a) -> store a i x = Done (<[Z.to_nat i := x]> a).
Proof. intros Hi. apply store_Done. auto. Qed.

Lemma store_not_Timeout {A} (a : list A) i x : store a i x <> Timeout.
Proof. unfold store. destruct (_ && _); discriminate. Qed.

(** ** The generator and the state *)

Section MultiqFacts.
Context {R : Rng}.

(** The state after [k] draws of the generator. *)
Definition draws (k : nat) (s : sched) : sched :=
  Nat.iter k (fun s => snd (draw s)) s.

Lemma draw_state s : snd (draw s) = set_rngseed s (snd (cong (heap_p s) (cong_unbias s) (rngseed (ptls s)))).
Proof. unfold draw. destruct (cong _ _ _). reflexivity. Qed.

Lemma draw_range s : 0 < heap_p s -> 0 <= fst (draw s) < heap_p s.
Proof.
  intros Hp. unfold draw.
  pose proof (cong_range (heap_p s) (cong_unbias s) (rngseed (ptls s)) Hp) as Hr.
  destruct (cong _ _ _). exact Hr.
Qed.

Lemma draw_heaps s : heaps (snd (draw s)) = heaps s.
Proof. rewrite draw_state. reflexivity. Qed.
Lemma draw_heap_p s : heap_p (snd (draw s)) = heap_p s.
Proof. rewrite draw_state. reflexivity. Qed.
Lemma draw_mem s : mem (snd (draw s)) = mem s.
Proof. rewrite draw_state. reflexivity. Qed.
Lemma draw_tid s : tls_tid (ptls (snd (draw s))) = tls_tid (ptls s).
Proof. rewrite draw_state. reflexivity. Qed.

Lemma draws_S k s : draws (S k) s = draws k (snd (draw s)).
Proof. unfold draws. rewrite Nat.iter_succ_r. reflexivity. Qed.

Lemma draws_heaps k s : heaps (draws k s) = heaps s.
Proof.
  revert s. induction k as [|k IH]; intros s; [reflexivity|].
  rewrite draws_S, IH. apply draw_heaps.
Qed.
Lemma draws_heap_p k s : heap_p (draws k s) = heap_p s.
Proof.
  revert s. induction k as [|k IH]; intros s; [reflexivity|].
  rewrite draws_S, IH. apply draw_heap_p.
Qed.
Lemma draws_mem k s : mem (draws k s) = mem s.
Proof.
  revert s. induction k as [|k IH]; intros s; [reflexivity|].
  rewrite draws_S, IH. apply draw_mem.
Qed.

(** A drawn index names a shard. *)
Definition heaps_allocated (s : sched) : Prop :=
  0 <= heap_p s <= INT16_MAX /\ Z.of_nat (length (heaps s)) = heap_p s.

Lemma load_drawn s :
  heaps_allocated s -> 0 < heap_p s ->
  exists h, load (heaps s) (fst (draw s)) = Done h /\ h ∈ heaps s.
Proof.
  intros [_ Hlen] Hp. pose proof (draw_range s Hp) as Hr.
  destruct (load_in_range (heaps s) (fst (draw s))) as [h Hh]; [lia|].
  exists h. split; [exact Hh|].
  apply load_Done in Hh as [_ Hh]. eapply list_elem_of_lookup_2, Hh.
Qed.

(** *** An empty multi-queue *)

Lemma probe_all_empty n s i rn1 :
  heaps_allocated s ->
  (forall h, h ∈ heaps s -> heap_prio h = INT16_MAX) ->
  0 <= i -> i + Z.of_nat n = heap_p s ->
  exists rn, multiq_deletemin_probe n s i rn1 = Done (draws (2 * n) s, heap_p s, rn).
Proof.
  revert s i rn1. induction n as [|n IH]; intros s i rn1 Halloc Hempty Hi Hn.
  - exists rn1. simpl. replace (i <? heap_p s) with false by (symmetry; apply Z.ltb_ge; lia).
    f_equal. f_equal. f_equal. lia.
  - cbn [multiq_deletemin_probe].
    replace (i <? heap_p s) with true by (symmetry; apply Z.ltb_lt; lia).
    assert (Hp : 0 < heap_p s) by lia.
    destruct (load_drawn s Halloc Hp) as (h1 & Hh1 & Hin1).
    destruct (draw s) as [r1 s1] eqn:Hd1. simpl in Hh1.
    assert (Hs1 : s1 = snd (draw s)) by (rewrite Hd1; reflexivity).
    assert (Halloc1 : heaps_allocated s1).
    { unfold heaps_allocated. rewrite Hs1, draw_heaps, draw_heap_p. exact Halloc. }
    assert (Hp1 : 0 < heap_p s1) by (rewrite Hs1, draw_heap_p; exact Hp).
    destruct (load_drawn s1 Halloc1 Hp1) as (h2 & Hh2 & Hin2).
    destruct (draw s1) as [r2 s2] eqn:Hd2. simpl in Hh2.
    assert (Hs2 : s2 = snd (draw s1)) by (rewrite Hd2; reflexivity).
    assert (Hheaps2 : heaps s2 = heaps s).
    { rewrite Hs2, draw_heaps, Hs1, draw_heaps. reflexivity. }
    assert (Hheap_p2 : heap_p s2 = heap_p s).
    { rewrite Hs2, draw_heap_p, Hs1, draw_heap_p. reflexivity. }
    rewrite Hheaps2. rewrite <- (draw_heaps s), <- Hs1 in Hh1. rewrite Hs1, draw_heaps in Hh1, Hh2.
    rewrite Hh1. cbn [mbind result_bind]. rewrite Hh2. cbn [mbind result_bind].
    rewrite Hs1, draw_heaps in Hin2.
    rewrite (Hempty h1 Hin1), (Hempty h2 Hin2).
    cbn [Z.ltb Z.compare INT16_MAX Pos.compare Pos.compare_cont Z.eqb Pos.eqb andb].
    destruct (IH s2 (int16 (i + 1)) r1) as [rn Hrn].
    + unfold heaps_allocated. rewrite Hheaps2, Hheap_p2. exact Halloc.
    + rewrite Hheaps2. exact Hempty.
    + rewrite int16_id; [lia|]. destruct Halloc as [Hb _]. unfold in_int16, INT16_MIN, INT16_MAX in *. lia.
    + rewrite int16_id; [lia|]. destruct Halloc as [Hb _]. unfold in_int16, INT16_MIN, INT16_MAX in *. lia.
    + exists rn. rewrite Hrn. rewrite Hheap_p2.
      replace (2 * S n)%nat with (S (S (2 * n))) by lia.
      rewrite !draws_S, <- Hs1, <- Hs2. reflexivity.
Qed.

(** C5: when every shard is empty, with [INT16_MAX] as its cached priority,
    [multiq_deletemin] returns [NULL] after [heap_p] probes of two draws
    each, and the state it leaves differs from the one it started from by
    these draws of the generator only: no shard has changed. *)
Theorem multiq_deletemin_all_empty (fuel : nat) (s : sched) :
  heaps_allocated s ->
  (forall h, h ∈ heaps s -> ntasks h = 0 /\ heap_prio h = INT16_MAX) ->
  multiq_deletemin (S fuel) s = Done (draws (2 * Z.to_nat (heap_p s)) s, None) /\
  heaps (draws (2 * Z.to_nat (heap_p s)) s) = heaps s.
Proof.
  intros Halloc Hempty. split; [|apply draws_heaps].
  cbn [multiq_deletemin].
  destruct (probe_all_empty (Z.to_nat (heap_p s)) s 0 0 Halloc) as [rn Hrn].
  - intros h Hh. apply Hempty, Hh.
  - lia.
  - destruct Halloc as [Hb _]. lia.
  - rewrite Hrn. cbn [mbind result_bind]. rewrite draws_heap_p, Z.eqb_refl. reflexivity.
Qed.

End MultiqFacts.

(** ** The sleep controller *)

Section SleepFacts.
Context {R : Rng}.

Definition all_shards_empty (s : sched) : bool :=
  forallb (fun h => ntasks h =? 0) (heaps s).

Lemma all_shards_empty_spec s :
  all_shards_empty s = true <-> forall h, h ∈ heaps s -> ntasks h = 0.
Proof.
  unfold all_shards_empty. rewrite forallb_forall. split.
  - intros H h Hh. apply Z.eqb_eq, H, list_elem_of_In, Hh.
  - intros H h Hh. apply Z.eqb_eq, H, list_elem_of_In, Hh.
Qed.

Lemma snapshot_from_spec n s i :
  heaps_allocated s -> 0 <= i -> i + Z.of_nat n = heap_p s ->
  snapshot_from n s i =
  Done (if forallb (fun h => ntasks h =? 0) (drop (Z.to_nat i) (heaps s)) then 1 else 0).
Proof.
  intros [Hb Hlen]. revert i. induction n as [|n IH]; intros i Hi Hn.
  - simpl. replace (i <? heap_p s) with false by (symmetry; apply Z.ltb_ge; lia).
    rewrite drop_ge by lia. reflexivity.
  - cbn [snapshot_from].
    replace (i <? heap_p s) with true by (symmetry; apply Z.ltb_lt; lia).
    destruct (load_in_range (heaps s) i) as [h Hh]; [lia|].
    rewrite Hh. cbn [mbind result_bind].
    apply load_Done in Hh as [_ Hh].
    rewrite (drop_S _ _ _ Hh). cbn [forallb].
    destruct (ntasks h =? 0); cbn [negb andb]; [|reflexivity].
    rewrite int16_id by (unfold in_int16, INT16_MIN, INT16_MAX in *; lia).
    rewrite IH by lia. replace (Z.to_nat (i + 1)) with (S (Z.to_nat i)) by lia.
    reflexivity.
Qed.

Lemma snapshot_spec s :
  heaps_allocated s -> snapshot s = Done (if all_shards_empty s then 1 else 0).
Proof.
  intros Halloc. unfold snapshot.
  rewrite snapshot_from_spec; [reflexivity | exact Halloc | lia |].
  destruct Halloc as [Hb _]. lia.
Qed.

(** What [sleep_check_now] does when it finds the controller active. *)
Lemma sleep_check_now_from_active fuel s :
  heaps_allocated s -> sleep_check_state s = not_sleeping ->
  sleep_check_now (S fuel) s =
  if all_shards_empty s
  then Done (set_sleep_check_state s sleeping, 1)
  else Done (set_sleep_check_state s not_sleeping, 0).
Proof.
  intros Halloc Hst. cbn [sleep_check_now]. rewrite Hst.
  cbn [not_sleeping checking_for_sleeping Z.eqb].
  unfold cas_sleep_check_state. rewrite Hst. cbn [not_sleeping Z.eqb].
  assert (Halloc' : heaps_allocated (set_sleep_check_state s checking_for_sleeping))
    by exact Halloc.
  rewrite (snapshot_spec _ Halloc').
  change (all_shards_empty (set_sleep_check_state s checking_for_sleeping))
    with (all_shards_empty s).
  destruct (all_shards_empty s); reflexivity.
Qed.

(** C7: called with the controller active, [sleep_check_now] returns 1 (yes)
    or 0 (no); it returns 1 exactly when every shard holds no task; when it
    returns 1 the controller is left sleeping, when it returns 0 the
    controller is left active. *)
Theorem sleep_check_now_active (fuel : nat) (s : sched) :
  heaps_allocated s -> sleep_check_state s = not_sleeping ->
  exists s' r,
    sleep_check_now (S fuel) s = Done (s', r) /\
    (r = 1 \/ r = 0) /\
    (r = 1 <-> forall h, h ∈ heaps s -> ntasks h = 0) /\
    (r = 1 -> sleep_check_state s' = sleeping) /\
    (r = 0 -> sleep_check_state s' = not_sleeping) /\
    heaps s' = heaps s.
Proof.
  intros Halloc Hst. rewrite (sleep_check_now_from_active fuel s Halloc Hst).
  pose proof (all_shards_empty_spec s) as Hspec.
  destruct (all_shards_empty s).
  - eexists _, _. split; [reflexivity|]. repeat split; auto.
    + intros _. apply Hspec. reflexivity.
    + discriminate.
  - eexists _, _. split; [reflexivity|]. repeat split; auto.
    + discriminate.
    + intros H. apply Hspec in H. discriminate.
    + discriminate.
Qed.

(** *** Waking *)

(** The state after the events of [l] have been emitted, first to last. *)
Definition emits (s : sched) (l : list event) : sched := fold_left emit l s.

Lemma emits_trace s l : trace (emits s l) = rev l ++ trace s.
Proof.
  revert s. induction l as [|e l IH]; intros s; [reflexivity|].
  simpl. rewrite IH. simpl. rewrite <- app_assoc. reflexivity.
Qed.

Lemma emits_fields s l :
  all_sleep_states (emits s l) = all_sleep_states s /\
  jl_n_threads (emits s l) = jl_n_threads s /\
  ptls (emits s l) = ptls s /\
  sleep_check_state (emits s l) = sleep_check_state s /\
  jl_uv_mutex (emits s l) = jl_uv_mutex s /\
  heaps (emits s l) = heaps s.
Proof.
  revert s. induction l as [|e l IH]; intros s; [repeat split|].
  simpl. destruct (IH (emit s e)) as (H1 & H2 & H3 & H4 & H5 & H6).
  rewrite H1, H2, H3, H4, H5, H6. repeat split.
Qed.

(** The park slots are in place: one per thread, that of every thread but
    the caller allocated and its mutex free. *)
Definition park_slots_ready (s : sched) : Prop :=
  0 <= jl_n_threads s <= INT16_MAX /\
  forall w, 0 <= w < jl_n_threads s -> w <> tls_tid (ptls s) ->
    all_sleep_states s !! Z.to_nat w = Some (Some {| sleep_lock := false |}).

(** The threads signalled by the loop of [jl_wakeup_thread] entered at [t]
    with [n] threads to go. *)
Definition signalled (s : sched) (t : Z) (n : nat) : list Z :=
  filter (fun w => w <> tls_tid (ptls s)) (seqZ t (Z.of_nat n)).

Lemma wake_threads_from_spec n s t :
  park_slots_ready s -> 0 <= t -> t + Z.of_nat n = jl_n_threads s ->
  wake_threads_from n s t = Done (emits s (map UvCondSignal (signalled s t n))).
Proof.
  revert s t. induction n as [|n IH]; intros s t Hready Ht Hn.
  - simpl. replace (t <? jl_n_threads s) with false by (symmetry; apply Z.ltb_ge; lia).
    reflexivity.
  - cbn [wake_threads_from].
    replace (t <? jl_n_threads s) with true by (symmetry; apply Z.ltb_lt; lia).
    unfold signalled. replace (Z.of_nat (S n)) with (Z.succ (Z.of_nat n)) by lia.
    rewrite seqZ_cons by lia. rewrite Z.pred_succ. rewrite filter_cons.
    destruct Hready as [Hb Hslots].
    assert (Hnext : int16 (t + 1) = Z.succ t).
    { rewrite int16_id; [lia|]. unfold in_int16, INT16_MIN, INT16_MAX in *. lia. }
    unfold wake_thread. destruct (Z.eqb_spec (tls_tid (ptls s)) t) as [Heq|Hne]; cbn [negb].
    + cbn [mbind result_bind]. rewrite decide_False by (intros H; apply H; symmetry; exact Heq).
      rewrite Hnext. apply IH; [split; assumption | lia | lia].
    + assert (Hslot : load (all_sleep_states s) t = Done (Some {| sleep_lock := false |})).
      { apply load_Done. split; [lia|]. apply Hslots; [lia|]. intros H. apply Hne. symmetry. exact H. }
      rewrite Hslot. cbn [mbind result_bind sleep_lock].
      rewrite decide_True by (intros H; apply Hne; symmetry; exact H).
      rewrite Hnext. rewrite IH.
      * reflexivity.
      * split; [exact Hb|]. exact Hslots.
      * lia.
      * change (jl_n_threads (emit s (UvCondSignal t))) with (jl_n_threads s). lia.
Qed.

End SleepFacts.

Section WakeFacts.
Context {R : Rng}.

Lemma signalled_spec s t n w :
  w ∈ signalled s t n <-> w <> tls_tid (ptls s) /\ t <= w < t + Z.of_nat n.
Proof. unfold signalled. rewrite list_elem_of_filter, elem_of_seqZ. tauto. Qed.

Lemma signal_in_trace (l : list Z) w :
  UvCondSignal w ∈ rev (map UvCondSignal l) <-> w ∈ l.
Proof.
  rewrite !list_elem_of_In, <- in_rev, in_map_iff. split.
  - intros (x & [= ->] & Hx). exact Hx.
  - intros Hw. exists w. auto.
Qed.

(** C8, as the code has it: when the caller is not the target, the
    controller is set to active; if it was deciding or sleeping and
    [sleep_threshold] is not zero, the park slot of every thread other than
    the caller is signalled; the caller's own slot is never signalled, and
    with [sleep_threshold] zero no slot is. *)
Theorem jl_wakeup_thread_signals (s : sched) (t : Z) :
  park_slots_ready s -> t <> tls_tid (ptls s) ->
  exists s' new,
    jl_wakeup_thread s t = Done s' /\
    trace s' = new ++ trace s /\
    sleep_check_state s' = not_sleeping /\
    (sleep_check_state s <> not_sleeping -> sleep_threshold s <> 0 ->
     forall w, 0 <= w < jl_n_threads s -> w <> tls_tid (ptls s) ->
       UvCondSignal w ∈ new) /\
    (UvCondSignal (tls_tid (ptls s)) ∉ new) /\
    (sleep_threshold s = 0 -> forall w, UvCondSignal w ∉ new).
Proof.
  intros Hready Hne. unfold jl_wakeup_thread.
  destruct (Z.eqb_spec t (tls_tid (ptls s))) as [Heq|_]; [contradiction|]. cbn [negb].
  set (s1 := set_sleep_check_state s not_sleeping).
  assert (Hready1 : park_slots_ready s1) by exact Hready.
  change (sleep_threshold s1) with (sleep_threshold s).
  change (jl_n_threads s1) with (jl_n_threads s).
  destruct (Z.eqb_spec (sleep_threshold s) 0) as [Hth|Hth];
    [|destruct (Z.eqb_spec (sleep_check_state s) not_sleeping) as [Hst|Hst]];
    cbn [negb andb mbind result_bind].
  3: { rewrite (wake_threads_from_spec _ s1 0 Hready1) by
         (change (jl_n_threads s1) with (jl_n_threads s); destruct Hready as [Hb _]; lia).
       cbn [mbind result_bind].
       set (l := signalled s1 0 (Z.to_nat (jl_n_threads s))).
       destruct (emits_fields s1 (map UvCondSignal l)) as (_ & _ & Hp & Hc & Hm & _).
       assert (Hsig : forall w, UvCondSignal w ∈ rev (map UvCondSignal l) <->
                 w <> tls_tid (ptls s) /\ 0 <= w < jl_n_threads s).
       { intros w. rewrite signal_in_trace. unfold l. rewrite signalled_spec.
         change (tls_tid (ptls s1)) with (tls_tid (ptls s)).
         destruct Hready as [Hb _]. rewrite Z2Nat.id by lia. tauto. }
       rewrite Hm. change (jl_uv_mutex s1) with (jl_uv_mutex s).
       change (tls_tid (ptls s1)) with (tls_tid (ptls s)).
       assert (Hgoal : forall last, last = UvStop \/ last = JlWakeLibuv ->
         exists s' new, Done (emit (emits s1 (map UvCondSignal l)) last) = Done s' /\
           trace s' = new ++ trace s /\ sleep_check_state s' = not_sleeping /\
           (sleep_check_state s <> not_sleeping -> sleep_threshold s <> 0 ->
             forall w, 0 <= w < jl_n_threads s -> w <> tls_tid (ptls s) -> UvCondSignal w ∈ new) /\
           (UvCondSignal (tls_tid (ptls s)) ∉ new) /\
           (sleep_threshold s = 0 -> forall w, UvCondSignal w ∉ new)).
       { intros last Hlast. eexists _, (last :: rev (map UvCondSignal l)).
         split; [reflexivity|]. split; [|split; [|split; [|split]]].
         - cbn [emit trace]. rewrite emits_trace. reflexivity.
         - cbn [emit sleep_check_state]. rewrite Hc. reflexivity.
         - intros _ _ w Hw Hws. apply elem_of_cons. right. apply Hsig. auto.
         - intros Hin. apply elem_of_cons in Hin as [Hin|Hin].
           + destruct Hlast as [-> | ->]; discriminate.
           + apply Hsig in Hin as [Hin _]. apply Hin. reflexivity.
         - intros H0. contradiction. }
       destruct (jl_uv_mutex s) as [owner|]; [destruct (owner =? tls_tid (ptls s))|];
         apply Hgoal; auto. }
  all: change (jl_uv_mutex s1) with (jl_uv_mutex s);
       change (tls_tid (ptls s1)) with (tls_tid (ptls s)).
  all: assert (Hgoal : forall last, last = UvStop \/ last = JlWakeLibuv ->
         exists s' new, Done (emit s1 last) = Done s' /\
           trace s' = new ++ trace s /\ sleep_check_state s' = not_sleeping /\
           (sleep_check_state s <> not_sleeping -> sleep_threshold s <> 0 ->
             forall w, 0 <= w < jl_n_threads s -> w <> tls_tid (ptls s) -> UvCondSignal w ∈ new) /\
           (UvCondSignal (tls_tid (ptls s)) ∉ new) /\
           (sleep_threshold s = 0 -> forall w, UvCondSignal w ∉ new));
       [ intros last Hlast; exists (emit s1 last), [last];
         split; [reflexivity|]; split; [reflexivity|]; split; [reflexivity|];
         split; [intros; contradiction|];
         split; [|intros _ w]; intros Hin; apply list_elem_of_singleton in Hin;
           destruct Hlast as [-> | ->]; discriminate
       | destruct (jl_uv_mutex s) as [owner|]; [destruct (owner =? tls_tid (ptls s))|];
         apply Hgoal; auto ].
Qed.

End WakeFacts.

(** ** What the multi-queue operations leave alone *)

Section Frame.
Context {R : Rng}.

(** The part of the state that is not the multi-queue, the task store or
    the generator. *)
Definition outside (s : sched) :=
  (heap_p s, cong_unbias s, all_sleep_states s, sleep_check_state s,
   sleep_threshold s, jl_n_threads s, jl_uv_mutex s, jl_uv_n_waiters s,
   tls_tid (ptls s), trace s).

Lemma outside_draw s : outside (snd (draw s)) = outside s.
Proof. rewrite draw_state. reflexivity. Qed.

Lemma outside_draw_eq s rn s' : draw s = (rn, s') -> outside s' = outside s.
Proof. intros H. rewrite <- (outside_draw s), H. reflexivity. Qed.

Lemma mem_draw_eq s rn s' : draw s = (rn, s') -> mem s' = mem s.
Proof. intros H. rewrite <- (draw_mem s), H. reflexivity. Qed.

Lemma heaps_draw_eq s rn s' : draw s = (rn, s') -> heaps s' = heaps s.
Proof. intros H. rewrite <- (draw_heaps s), H. reflexivity. Qed.

Lemma store_heap_Done s rn h s' :
  store_heap s rn h = Done s' <->
  0 <= rn < Z.of_nat (length (heaps s)) /\
  s' = set_heaps s (<[Z.to_nat rn := h]> (heaps s)).
Proof.
  unfold store_heap. split.
  - destruct (store (heaps s) rn h) as [hs| |] eqn:Hst; cbn; try discriminate.
    intros [= <-]. apply store_Done in Hst as [Hr ->]. auto.
  - intros [Hr ->]. rewrite store_in_range by exact Hr. reflexivity.
Qed.

Lemma outside_store_heap s rn h s' :
  store_heap s rn h = Done s' -> outside s' = outside s /\ mem s' = mem s.
Proof. intros H. apply store_heap_Done in H as [_ ->]. split; reflexivity. Qed.

Lemma outside_probe n s i rn1 s' i' rn1' :
  multiq_deletemin_probe n s i rn1 = Done (s', i', rn1') ->
  outside s' = outside s /\ mem s' = mem s.
Proof.
  revert s i rn1. induction n as [|n IH]; intros s i rn1 H.
  - simpl in H. destruct (i <? heap_p s); [discriminate|].
    injection H as <- _ _. split; reflexivity.
  - cbn [multiq_deletemin_probe] in H.
    destruct (i <? heap_p s); [|injection H as <- _ _; split; reflexivity].
    destruct (draw s) as [r1 s1] eqn:Hd1. destruct (draw s1) as [r2 s2] eqn:Hd2.
    assert (Ho : outside s2 = outside s /\ mem s2 = mem s).
    { split.
      - rewrite (outside_draw_eq _ _ _ Hd2). apply (outside_draw_eq _ _ _ Hd1).
      - rewrite (mem_draw_eq _ _ _ Hd2). apply (mem_draw_eq _ _ _ Hd1). }
    destruct Ho as [Ho Hm]. rewrite <- Ho, <- Hm.
    unfold mbind, result_bind in H.
    repeat case_match; simplify_eq; try (eapply IH; eassumption).
    all: eapply outside_store_heap; eassumption.
Qed.

Lemma outside_multiq_deletemin fuel s s' r :
  multiq_deletemin fuel s = Done (s', r) -> outside s' = outside s.
Proof.
  revert s. induction fuel as [|fuel IH]; intros s H; [discriminate|].
  cbn [multiq_deletemin] in H.
  destruct (multiq_deletemin_probe _ s 0 0) as [[[s1 i] rn1]| |] eqn:Hp;
    cbn [mbind result_bind] in H; try discriminate.
  apply outside_probe in Hp as [Hp _]. rewrite <- Hp.
  unfold mbind, result_bind in H.
  repeat case_match; simplify_eq; try reflexivity.
  all: repeat match goal with
       | Hs : store_heap _ _ _ = Done _ |- _ => apply outside_store_heap in Hs as [Hs _]
       end.
  all: try match goal with
       | Hr : multiq_deletemin _ _ = Done _ |- _ => apply IH in Hr; rewrite Hr
       end.
  all: match goal with Hs : outside _ = outside _ |- _ => exact Hs end.
Qed.

End Frame.

(** ** Parking disabled *)

Definition lower (s : string) : string :=
  string_of_list_ascii (map tolower (list_ascii_of_string s)).

Lemma strncasecmp_infinite (cp : string) :
  lower cp = "infinite"%string -> strncasecmp cp "infinite" 8 = 0.
Proof.
  unfold lower. intros H.
  repeat (destruct cp as [|? cp]; [discriminate H|]; cbn [list_ascii_of_string map string_of_list_ascii] in H;
          injection H as ? H).
  destruct cp as [|? cp]; [|discriminate H].
  cbn [strncasecmp]. unfold char_code.
  repeat match goal with Hc : tolower _ = _ |- _ => rewrite Hc; clear Hc end.
  reflexivity.
Qed.

Section ParkingFacts.
Context {R : Rng} {E : Env}.

Lemma outside_fields (s s' : sched) :
  outside s' = outside s ->
  sleep_threshold s' = sleep_threshold s /\ trace s' = trace s.
Proof. unfold outside. intros [= _ _ _ _ -> _ _ _ _ ->]. split; reflexivity. Qed.

Lemma outside_get_next_task fuel e s s' e' r :
  get_next_task fuel e s = Done (s', e', r) -> outside s' = outside s.
Proof.
  unfold get_next_task. destruct (jl_apply_getsticky e) as [[t|] e1].
  - intros [= <- _ _]. destruct (negb _); reflexivity.
  - destruct (multiq_deletemin fuel s) as [[s1 r1]| |] eqn:Hd; cbn; try discriminate.
    intros [= <- _ _]. eapply outside_multiq_deletemin, Hd.
Qed.

Lemma sleep_check_after_threshold_disabled fuel e s start_cycles :
  sleep_threshold s = 0 ->
  sleep_check_after_threshold fuel e s start_cycles = Done (s, e, start_cycles, 0).
Proof. intros H. unfold sleep_check_after_threshold. rewrite H. reflexivity. Qed.

(** No [uv_cond_wait] has been added to the trace of [s] in [s']. *)
Definition no_new_wait (s s' : sched) : Prop :=
  forall w, UvCondWait w ∈ trace s' -> UvCondWait w ∈ trace s.

Lemma no_new_wait_refl s : no_new_wait s s.
Proof. intros w H. exact H. Qed.

Lemma no_new_wait_trans s1 s2 s3 :
  no_new_wait s1 s2 -> no_new_wait s2 s3 -> no_new_wait s1 s3.
Proof. intros H12 H23 w H. apply H12, H23, H. Qed.

Lemma turn_parking_disabled fuel e s spin_count start_cycles s' e' r :
  sleep_threshold s = 0 ->
  jl_task_get_next_turn fuel e s spin_count start_cycles = Done (s', e', r) ->
  sleep_threshold s' = 0 /\ no_new_wait s s'.
Proof.
  intros Hth. unfold jl_task_get_next_turn.
  destruct (get_next_task fuel e s) as [[[s1 e1] [t1|]]| |] eqn:H1;
    cbn [mbind result_bind]; try discriminate.
  { intros [= <- _ _]. apply outside_get_next_task, outside_fields in H1 as [H1 H1'].
    split; [congruence|]. intros w. rewrite H1'. auto. }
  apply outside_get_next_task, outside_fields in H1 as [H1 H1'].
  destruct ((1000 <? spin_count + 1) && (jl_uv_n_waiters s1 =? 0)).
  - destruct (get_next_task fuel e1 (emit s1 JlProcessEvents)) as [[[s2 e2] task]| |] eqn:H2;
      cbn [mbind result_bind]; try discriminate.
    apply outside_get_next_task, outside_fields in H2 as [H2 H2'].
    cbn [emit sleep_threshold trace] in H2, H2'.
    assert (Hth2 : sleep_threshold s2 = 0) by congruence.
    assert (Hnw : no_new_wait s s2).
    { intros w. rewrite H2', <- H1'. intros Hin.
      apply elem_of_cons in Hin as [Hin|Hin]; [discriminate Hin | exact Hin]. }
    destruct task as [t|]; [intros [= <- _ _]; auto|].
    rewrite sleep_check_after_threshold_disabled by exact Hth2.
    cbn. intros [= <- _ _]. auto.
  - cbn [mbind result_bind].
    rewrite sleep_check_after_threshold_disabled by congruence.
    cbn. intros [= <- _ _]. split; [congruence|]. intros w. rewrite H1'. auto.
Qed.

Lemma turns_parking_disabled k fuel e s spin_count start_cycles s' e' r :
  sleep_threshold s = 0 ->
  jl_task_get_next_turns k fuel e s spin_count start_cycles = Done (s', e', r) ->
  sleep_threshold s' = 0 /\ no_new_wait s s'.
Proof.
  revert e s spin_count start_cycles.
  induction k as [|k IH]; intros e s sp st Hth.
  - intros [= <- _ _]. split; [exact Hth | apply no_new_wait_refl].
  - cbn [jl_task_get_next_turns].
    destruct (jl_task_get_next_turn fuel e s sp st) as [[[s1 e1] r1]| |] eqn:H1;
      cbn [mbind result_bind]; try discriminate.
    apply turn_parking_disabled in H1 as [H1 H1']; [|exact Hth].
    destruct r1 as [t|sp1 st1].
    + intros [= <- _ _]. auto.
    + intros H2. apply IH in H2 as [H2 H2']; [|exact H1].
      split; [exact H2|]. eapply no_new_wait_trans; eassumption.
Qed.

(** C6: when the value of the environment variable is "infinite", in any
    letter case, initialisation sets [sleep_threshold] to 0; from any state
    with that threshold [sleep_check_after_threshold] returns 0 and changes
    nothing, and however many turns of its loop a worker in
    [jl_task_get_next] runs, with whatever answers from the sticky hook and
    the clock, it does not call [uv_cond_wait]. *)
Theorem sleep_threshold_infinite_disables_parking (pre : sched) (cp : string) :
  lower cp = "infinite"%string -> 0 < jl_n_threads pre ->
  exists s0,
    jl_init_threadinginfra pre (Some cp) = Done s0 /\
    sleep_threshold s0 = 0 /\
    forall s, sleep_threshold s = sleep_threshold s0 ->
      (forall fuel e start_cycles,
         sleep_check_after_threshold fuel e s start_cycles = Done (s, e, start_cycles, 0)) /\
      (forall k fuel e spin_count start_cycles s' e' r,
         jl_task_get_next_turns k fuel e s spin_count start_cycles = Done (s', e', r) ->
         sleep_threshold s' = 0 /\ no_new_wait s s') /\
      (forall fuel e s' e' t,
         jl_task_get_next fuel e s = Done (s', e', t) -> no_new_wait s s').
Proof.
  intros Hcp Hn. unfold jl_init_threadinginfra.
  rewrite (strncasecmp_infinite cp Hcp). cbn [Z.eqb].
  change (jl_n_threads (multiq_init pre)) with (jl_n_threads pre).
  rewrite store_in_range by (rewrite length_replicate; lia).
  cbn [mbind result_bind]. eexists. split; [reflexivity|].
  split; [reflexivity|]. cbn [sleep_threshold]. intros s Hs.
  split; [|split].
  - intros fuel e st. apply sleep_check_after_threshold_disabled, Hs.
  - intros k fuel e sp st s' e' r. apply turns_parking_disabled, Hs.
  - intros fuel e s' e' t. unfold jl_task_get_next.
    destruct (jl_task_get_next_turns fuel fuel e s 0 0) as [[[s1 e1] r1]| |] eqn:H1;
      cbn [mbind result_bind]; try discriminate.
    apply turns_parking_disabled in H1 as [_ H1]; [|exact Hs].
    destruct r1; [|discriminate]. intros [= <- _ _]. exact H1.
Qed.

End ParkingFacts.

(** ** Ownership of the task returned *)

Section OwnerFacts.
Context {R : Rng}.

Lemma outside_tid (s s' : sched) :
  outside s' = outside s -> tls_tid (ptls s') = tls_tid (ptls s).
Proof. unfold outside. intros [= _ _ _ _ _ _ _ _ -> _]. reflexivity. Qed.

(** A task that [multiq_deletemin] returns was owned by the caller, and the
    store is as it was, or was unowned, and the store now has the caller as
    its owner. *)
Lemma multiq_deletemin_owner fuel s s' t :
  multiq_deletemin fuel s = Done (s', Some t) ->
  (tid (mem s t) = tls_tid (ptls s) /\ mem s' = mem s) \/
  (tid (mem s t) = -1 /\ mem s' = set_task_tid (mem s) t (tls_tid (ptls s))).
Proof.
  revert s. induction fuel as [|fuel IH]; intros s H; [discriminate|].
  cbn [multiq_deletemin] in H.
  destruct (multiq_deletemin_probe _ s 0 0) as [[[s1 i] rn1]| |] eqn:Hp;
    cbn [mbind result_bind] in H; try discriminate.
  apply outside_probe in Hp as [Hp Hm]. apply outside_tid in Hp.
  rewrite <- Hp, <- Hm. clear Hp Hm.
  destruct (i =? heap_p s1); [discriminate|].
  destruct (load (heaps s1) rn1) as [h| |]; cbn [mbind result_bind] in H; try discriminate.
  destruct (load (tasks h) 0) as [[t0|]| |]; cbn [mbind result_bind] in H; try discriminate.
  unfold cas_task_tid in H.
  destruct (Z.eqb_spec (tid (mem s1 t0)) (tls_tid (ptls s1))) as [Hown|Hown]; cbn [negb] in H.
  - (* already owned by the caller *)
    unfold mbind, result_bind in H.
    repeat case_match; simplify_eq.
    all: match goal with Hs : store_heap _ _ _ = Done _ |- _ =>
           apply outside_store_heap in Hs as [_ Hs];
           left; split; [assumption | exact Hs] end.
  - destruct (Z.eqb_spec (tid (mem s1 t0)) (-1)) as [Hfree|Hfree].
    + (* unowned: the exchange succeeds *)
      rewrite Hfree in H. cbn [Z.eqb negb Pos.eqb] in H.
      unfold mbind, result_bind in H.
      repeat case_match; simplify_eq.
      all: match goal with Hs : store_heap _ _ _ = Done _ |- _ =>
             apply outside_store_heap in Hs as [_ Hs];
             right; split; [assumption | exact Hs] end.
    + (* owned by another worker: retry *)
      replace (negb (tid (mem s1 t0) =? -1)) with true in H
        by (symmetry; apply negb_true_iff, Z.eqb_neq, Hfree).
      destruct (store_heap _ rn1 (set_lock h false)) as [s2| |] eqn:Hs;
        cbn [mbind result_bind] in H; try discriminate.
      apply outside_store_heap in Hs as [Ho Hm]. apply outside_tid in Ho.
      apply IH in H. rewrite Hm, Ho in H. exact H.
Qed.

Lemma set_task_tid_same m t w : tid (set_task_tid m t w t) = w.
Proof. unfold set_task_tid. rewrite Pos.eqb_refl. reflexivity. Qed.

(** On the multi-queue path the returned task is the caller's. *)
Lemma multiq_deletemin_returns_own fuel s s' t :
  multiq_deletemin fuel s = Done (s', Some t) ->
  (tid (mem s t) = tls_tid (ptls s) \/ tid (mem s t) = -1) /\
  tid (mem s' t) = tls_tid (ptls s).
Proof.
  intros H. apply multiq_deletemin_owner in H as [[Hown ->]|[Hfree ->]].
  - auto.
  - split; [auto | apply set_task_tid_same].
Qed.

End OwnerFacts.

Section StickyFacts.
Context {R : Rng} {E : Env}.

(** C1, where the code departs from it: when the sticky hook answers with a
    task owned by another worker, [get_next_task] returns that task and
    leaves it owned by the other worker; the result of the exchange is not
    looked at, unlike in [multiq_deletemin]. *)
Theorem get_next_task_sticky_foreign (fuel : nat) (e e1 : env_t) (s : sched) (t : ptr) :
  jl_apply_getsticky e = (Some t, e1) ->
  tid (mem s t) <> tls_tid (ptls s) -> tid (mem s t) <> -1 ->
  exists s',
    get_next_task fuel e s = Done (s', e1, Some t) /\
    tls_tid (ptls s') = tls_tid (ptls s) /\
    tid (mem s' t) = tid (mem s t) /\
    tid (mem s' t) <> tls_tid (ptls s').
Proof.
  intros Hhook Hown Hfree. unfold get_next_task. rewrite Hhook.
  replace (negb (tid (mem s t) =? tls_tid (ptls s))) with true
    by (symmetry; apply negb_true_iff, Z.eqb_neq, Hown).
  unfold cas_task_tid.
  replace (tid (mem s t) =? -1) with false by (symmetry; apply Z.eqb_neq, Hfree).
  eexists. split; [reflexivity|]. cbn [fst set_mem mem ptls]. auto.
Qed.

(** The sticky path when the hook honours its contract. *)
Lemma get_next_task_sticky_own fuel e e1 s t :
  jl_apply_getsticky e = (Some t, e1) ->
  tid (mem s t) = tls_tid (ptls s) \/ tid (mem s t) = -1 ->
  exists s',
    get_next_task fuel e s = Done (s', e1, Some t) /\
    tid (mem s' t) = tls_tid (ptls s).
Proof.
  intros Hhook Hown. unfold get_next_task. rewrite Hhook.
  destruct (Z.eqb_spec (tid (mem s t)) (tls_tid (ptls s))) as [Heq|Hne]; cbn [negb].
  - eexists. split; [reflexivity | exact Heq].
  - destruct Hown as [Hown|Hfree]; [contradiction|].
    unfold cas_task_tid. rewrite Hfree. cbn [Z.eqb Pos.eqb fst].
    eexists. split; [reflexivity|]. cbn [set_mem mem]. apply set_task_tid_same.
Qed.

End StickyFacts.

(** ** The heap order *)

Section HeapFacts.
Variable m : memory.

Definition parent (i : Z) : Z := (i - 1) / heap_d.

(** The priority of the task in slot [i]. *)
Definition key (ts : list (option ptr)) (i : Z) : Z :=
  match ts !! Z.to_nat i with
  | Some (Some t) => prio (m t)
  | _ => 0
  end.

(** The slots below [n] hold tasks, the slots from [n] on are [NULL]. *)
Definition slots_ok (ts : list (option ptr)) (n : Z) : Prop :=
  Z.of_nat (length ts) = tasks_per_heap /\
  0 <= n <= tasks_per_heap /\
  (forall i, 0 <= i < n -> exists t, ts !! Z.to_nat i = Some (Some t)) /\
  (forall i, n <= i < tasks_per_heap -> ts !! Z.to_nat i = Some None).

(** Every slot below [n] but the root is no less than its parent. *)
Definition heap_ordered (ts : list (option ptr)) (n : Z) : Prop :=
  forall i, 0 < i < n -> key ts (parent i) <= key ts i.

Lemma parent_bounds i : 0 < i -> heap_d * parent i + 1 <= i <= heap_d * parent i + heap_d.
Proof. unfold parent, heap_d. intros Hi. zlia. Qed.

Lemma parent_of_child c idx :
  heap_d * idx + 1 <= c <= heap_d * idx + heap_d -> parent c = idx.
Proof. unfold parent, heap_d. intros Hc. zlia. Qed.

Lemma parent_quot idx :
  0 < idx <= INT16_MAX -> int16 (Z.quot (idx - 1) heap_d) = parent idx.
Proof.
  intros Hi. unfold parent. rewrite Z.quot_div_nonneg by (unfold heap_d; lia).
  apply int16_id. unfold in_int16, INT16_MIN, INT16_MAX, heap_d in *. zlia.
Qed.

(** *** Exchanging two slots *)

Section Swap.
Variables (ts : list (option ptr)) (i j : Z) (a b : option ptr).
Hypothesis Hi : 0 <= i.
Hypothesis Hj : 0 <= j.
Hypothesis Hij : i <> j.
Hypothesis Ha : ts !! Z.to_nat i = Some a.
Hypothesis Hb : ts !! Z.to_nat j = Some b.

Let ts2 := <[Z.to_nat j := a]> (<[Z.to_nat i := b]> ts).

Lemma swap_lookup_l : ts2 !! Z.to_nat i = Some b.
Proof.
  unfold ts2. rewrite list_lookup_insert_ne by lia.
  apply list_lookup_insert_eq. eapply lookup_lt_Some, Ha.
Qed.

Lemma swap_lookup_r : ts2 !! Z.to_nat j = Some a.
Proof.
  unfold ts2. apply list_lookup_insert_eq. rewrite length_insert.
  eapply lookup_lt_Some, Hb.
Qed.

Lemma swap_lookup_other k :
  0 <= k -> k <> i -> k <> j -> ts2 !! Z.to_nat k = ts !! Z.to_nat k.
Proof.
  intros Hk Hki Hkj. unfold ts2.
  rewrite !list_lookup_insert_ne by lia. reflexivity.
Qed.

Lemma swap_length : length ts2 = length ts.
Proof. unfold ts2. rewrite !length_insert. reflexivity. Qed.

Lemma swap_Permutation : ts2 ≡ₚ ts.
Proof. unfold ts2. apply Permutation_insert_swap; assumption. Qed.

Lemma swap_key_l : key ts2 i = key ts j.
Proof. unfold key. rewrite swap_lookup_l, Hb. reflexivity. Qed.

Lemma swap_key_r : key ts2 j = key ts i.
Proof. unfold key. rewrite swap_lookup_r, Ha. reflexivity. Qed.

Lemma swap_key_other k :
  0 <= k -> k <> i -> k <> j -> key ts2 k = key ts k.
Proof. intros. unfold key. rewrite swap_lookup_other by assumption. reflexivity. Qed.

Lemma swap_slots_ok n :
  slots_ok ts n -> i < n -> j < n -> slots_ok ts2 n.
Proof.
  intros (Hlen & Hn & Hocc & Hfree) Hin Hjn.
  split; [rewrite swap_length; exact Hlen|]. split; [exact Hn|]. split.
  - intros k Hk.
    destruct (Z.eq_dec k i) as [->|Hki]; [|destruct (Z.eq_dec k j) as [->|Hkj]].
    + rewrite swap_lookup_l. destruct (Hocc j) as [t Ht]; [lia|].
      exists t. congruence.
    + rewrite swap_lookup_r. destruct (Hocc i) as [t Ht]; [lia|].
      exists t. congruence.
    + rewrite swap_lookup_other by lia. apply Hocc, Hk.
  - intros k Hk. rewrite swap_lookup_other by lia. apply Hfree, Hk.
Qed.

End Swap.


(** *** What a sift down achieves *)

(** [sift_post ts ts' n idx child]: how the slots [ts'] that the loop of
    [sift_down] over the children of [idx], entered at [child], leaves
    relate to the slots [ts] it started from.  The slots keep their shape
    and their tasks; only [idx] and slots below it in the tree change; the
    task left at [idx] is the one that was there or one of the children
    from [child] on; and if the heap order held below [idx], and [idx] was
    no greater than its children before [child], the order holds from
    [idx] down. *)
Definition sift_post (ts ts' : list (option ptr)) (n idx child : Z) : Prop :=
  slots_ok ts' n /\
  ts' ≡ₚ ts /\
  (forall i, 0 <= i -> i < idx \/ (parent i < idx /\ i <> idx) ->
     ts' !! Z.to_nat i = ts !! Z.to_nat i) /\
  (forall lo, lo <= key ts idx ->
     (forall c, child <= c < n -> parent c = idx -> lo <= key ts c) ->
     lo <= key ts' idx) /\
  ((forall i, 0 < i < n -> idx < parent i -> key ts (parent i) <= key ts i) ->
   (forall c, 0 < c < child -> c < n -> parent c = idx -> key ts idx <= key ts c) ->
   forall i, 0 < i < n -> idx <= parent i -> key ts' (parent i) <= key ts' i).

Lemma key_frame ts ts' i :
  ts' !! Z.to_nat i = ts !! Z.to_nat i -> key ts' i = key ts i.
Proof. unfold key. intros ->. reflexivity. Qed.

Lemma sift_post_done ts n idx child :
  slots_ok ts n -> 0 <= idx ->
  (forall c, 0 < c < n -> parent c = idx -> c < child) ->
  sift_post ts ts n idx child.
Proof.
  intros Hok Hidx Hall. split; [exact Hok|]. split; [reflexivity|].
  split; [reflexivity|]. split; [intros lo Hlo _; exact Hlo|].
  intros Hbelow Hdone i Hi Hp.
  destruct (Z.eq_dec (parent i) idx) as [Heq|Hne].
  - rewrite Heq. apply Hdone; [split; [lia|]; apply Hall; [lia|exact Heq] | lia | exact Heq].
  - apply Hbelow; [exact Hi | lia].
Qed.

Lemma sift_post_skip ts ts' n idx child :
  sift_post ts ts' n idx (child + 1) ->
  (child < n -> key ts idx <= key ts child) ->
  sift_post ts ts' n idx child.
Proof.
  intros (Hok & Hperm & Hframe & Hlow & Hord) Hchild.
  split; [exact Hok|]. split; [exact Hperm|]. split; [exact Hframe|]. split.
  - intros lo Hlo Hcs. apply Hlow; [exact Hlo|].
    intros c Hc Hpc. apply Hcs; [lia | exact Hpc].
  - intros Hbelow Hdone. apply Hord; [exact Hbelow|].
    intros c Hc Hcn Hpc. destruct (Z.eq_dec c child) as [->|Hne].
    + apply Hchild, Hcn.
    + apply Hdone; [lia | exact Hcn | exact Hpc].
Qed.

Lemma sift_post_swap ts ts3 ts' n idx child a b :
  slots_ok ts n -> 0 <= idx -> idx < child < n -> parent child = idx ->
  ts !! Z.to_nat idx = Some a -> ts !! Z.to_nat child = Some b ->
  key ts child < key ts idx ->
  sift_post (<[Z.to_nat child := a]> (<[Z.to_nat idx := b]> ts)) ts3 n child
            (heap_d * child + 1) ->
  sift_post ts3 ts' n idx (child + 1) ->
  sift_post ts ts' n idx child.
Proof.
  intros Hok Hidx Hchild Hpar Ha Hb Hlt.
  set (ts2 := <[Z.to_nat child := a]> (<[Z.to_nat idx := b]> ts)).
  intros (Hok3 & Hperm3 & Hframe3 & Hlow3 & Hord3) (Hok' & Hperm' & Hframe' & Hlow' & Hord').
  assert (Hne : idx <> child) by lia.
  assert (Hc0 : 0 <= child) by lia.
  assert (Hkl : key ts2 idx = key ts child)
    by (unfold ts2; eapply swap_key_l; first [eassumption | lia]).
  assert (Hkr : key ts2 child = key ts idx)
    by (unfold ts2; eapply swap_key_r; first [eassumption | lia]).
  assert (Hko : forall k, 0 <= k -> k <> idx -> k <> child -> key ts2 k = key ts k)
    by (intros k Hk1 Hk2 Hk3; unfold ts2; eapply swap_key_other; first [eassumption | lia]).
  assert (Hlo : forall k, 0 <= k -> k <> idx -> k <> child ->
                  ts2 !! Z.to_nat k = ts !! Z.to_nat k)
    by (intros k Hk1 Hk2 Hk3; unfold ts2; eapply swap_lookup_other; first [eassumption | lia]).
  (* keys of [ts3] outside the subtree of [child] *)
  assert (Hk3 : forall i, 0 <= i -> i < child \/ (parent i < child /\ i <> child) ->
                  key ts3 i = key ts2 i).
  { intros i Hi HF. apply key_frame, Hframe3; assumption. }
  assert (Hk3idx : key ts3 idx = key ts child).
  { rewrite Hk3 by lia. exact Hkl. }
  assert (Hk3sib : forall c, 0 < c -> parent c = idx -> c <> child -> key ts3 c = key ts c).
  { intros c Hc Hpc Hcc. rewrite Hk3 by lia. apply Hko; [lia| |exact Hcc].
    pose proof (parent_bounds c Hc). unfold heap_d in *. lia. }
  assert (HFsub : forall i, i < idx \/ (parent i < idx /\ i <> idx) ->
                    i < child \/ (parent i < child /\ i <> child)).
  { intros i [HF|[HF1 HF2]]; [left; lia | right; split; [lia|]; intros ->; lia]. }
  split; [exact Hok'|]. split; [|split; [|split]].
  - rewrite Hperm', Hperm3. unfold ts2. apply Permutation_insert_swap; assumption.
  - intros i Hi HF. rewrite Hframe' by assumption.
    rewrite Hframe3 by auto.
    apply Hlo; [exact Hi | | ].
    + destruct HF as [HF|[_ HF]]; lia.
    + destruct HF as [HF|[HF _]]; [lia|]. intros ->. lia.
  - intros lo Hlo1 Hcs. apply Hlow'.
    + rewrite Hk3idx. apply Hcs; [lia | exact Hpar].
    + intros c Hc Hpc. rewrite Hk3sib by lia. apply Hcs; [lia | exact Hpc].
  - intros Hbelow Hdone.
    assert (Hbelow2 : forall i, 0 < i < n -> child < parent i -> key ts2 (parent i) <= key ts2 i).
    { intros i Hi Hp. pose proof (parent_bounds i ltac:(lia)) as Hb'. unfold heap_d in Hb'.
      rewrite !Hko by lia. apply Hbelow; [exact Hi | lia]. }
    specialize (Hord3 Hbelow2).
    assert (Hord3' : forall i, 0 < i < n -> child <= parent i -> key ts3 (parent i) <= key ts3 i).
    { apply Hord3. intros c Hc Hcn Hpc. pose proof (parent_bounds c ltac:(lia)) as Hb'.
      unfold heap_d in *. lia. }
    apply Hord'.
    + intros i Hi Hp. destruct (Z_lt_le_dec (parent i) child) as [Hpl|Hpl].
      * pose proof (parent_bounds i ltac:(lia)) as Hb'. unfold heap_d in Hb'.
        assert (Hic : i <> child) by (intros ->; lia).
        rewrite (Hk3 (parent i)) by lia.
        rewrite (Hk3 i) by first [lia | right; split; [lia | exact Hic]].
        rewrite !Hko by lia.
        apply Hbelow; [exact Hi | exact Hp].
      * apply Hord3'; [exact Hi | exact Hpl].
    + intros c Hc Hcn Hpc. rewrite Hk3idx.
      destruct (Z.eq_dec c child) as [->|Hcc].
      * apply Hlow3.
        -- rewrite Hkr. lia.
        -- intros g Hg Hpg. unfold heap_d in Hg.
           rewrite Hko by lia. rewrite <- Hpg. apply Hbelow; [lia | lia].
      * rewrite Hk3sib by first [assumption | lia].
        assert (key ts idx <= key ts c) by (apply Hdone; [lia | exact Hcn | exact Hpc]).
        lia.
Qed.


(** *** [sift_down] *)

Definition shape_ok (h : taskheap_t) : Prop := slots_ok (tasks h) (ntasks h).

Lemma load_negative {A} (a : list A) i : i < 0 -> load a i = Fault.
Proof. intros Hi. unfold load. apply Z.ltb_lt in Hi. rewrite Hi. reflexivity. Qed.

Lemma sift_down_children_negative fuel h idx child h' :
  0 <= idx -> child < 0 -> sift_down_children fuel m h idx child <> Done h'.
Proof.
  intros Hidx Hchild. destruct fuel as [|fuel]; [discriminate|].
  cbn [sift_down_children].
  replace (child <? tasks_per_heap) with true
    by (symmetry; apply Z.ltb_lt; unfold tasks_per_heap; lia).
  replace (child <=? heap_d * idx + heap_d) with true
    by (symmetry; apply Z.leb_le; unfold heap_d; lia).
  rewrite (load_negative (tasks h) child) by exact Hchild. discriminate.
Qed.

Lemma slot_occupied ts n i t :
  slots_ok ts n -> 0 <= i < tasks_per_heap -> ts !! Z.to_nat i = Some (Some t) -> i < n.
Proof.
  intros (_ & _ & _ & Hfree) Hi Ht.
  destruct (Z_lt_le_dec i n) as [Hlt|Hge]; [exact Hlt|].
  rewrite Hfree in Ht by lia. discriminate.
Qed.

Lemma sift_down_rec_spec fuel :
  (forall h idx h',
     shape_ok h -> 0 <= idx ->
     sift_down_rec fuel m h idx = Done h' ->
     h' = set_tasks h (tasks h') /\
     sift_post (tasks h) (tasks h') (ntasks h) idx (heap_d * idx + 1)) /\
  (forall h idx child h',
     shape_ok h -> 0 <= idx < ntasks h ->
     heap_d * idx + 1 <= child <= heap_d * idx + heap_d + 1 -> child <= INT16_MAX ->
     sift_down_children fuel m h idx child = Done h' ->
     h' = set_tasks h (tasks h') /\
     sift_post (tasks h) (tasks h') (ntasks h) idx child).
Proof.
  induction fuel as [|fuel [IHrec IHloop]]; [split; intros; discriminate|].
  split.
  - intros h idx h' Hok Hidx. cbn [sift_down_rec].
    destruct (Z.ltb_spec idx (ntasks h)) as [Hlt|Hge].
    + destruct (Z_le_gt_dec (heap_d * idx + 1) INT16_MAX) as [Hfit|Hwrap].
      * rewrite int16_id by (unfold in_int16, INT16_MIN, INT16_MAX, heap_d in *; lia).
        apply IHloop; [exact Hok | lia | unfold heap_d; lia | exact Hfit].
      * intros H. exfalso. revert H. apply sift_down_children_negative; [exact Hidx|].
        destruct Hok as (_ & Hn & _). unfold int16, INT16_MAX, heap_d, tasks_per_heap in *. zlia.
    + intros [= <-]. split; [destruct h; reflexivity|].
      apply sift_post_done; [exact Hok | exact Hidx |].
      intros c Hc Hpc. pose proof (parent_bounds c ltac:(lia)) as Hb. unfold heap_d in *. lia.
  - intros h idx child h' Hok Hidx Hchild Hfit. cbn [sift_down_children].
    destruct (Z.ltb_spec child tasks_per_heap) as [Hin|Hout];
      [destruct (Z.leb_spec child (heap_d * idx + heap_d)) as [Hin2|Hout2]|]; cbn [andb].
    2, 3: intros [= <-]; (split; [destruct h; reflexivity|]);
          apply sift_post_done; [exact Hok | lia |];
          intros c Hc Hpc; pose proof (parent_bounds c ltac:(lia)) as Hb;
          destruct Hok as (_ & Hn & _); unfold heap_d in *; lia.
    assert (Hnext : int16 (child + 1) = child + 1).
    { apply int16_id. unfold in_int16, INT16_MIN, INT16_MAX, tasks_per_heap, heap_d in *. lia. }
    rewrite Hnext.
    assert (Hpar : parent child = idx) by (apply parent_of_child; lia).
    destruct (load (tasks h) child) as [tc| |] eqn:Hlc; cbn [mbind result_bind]; try discriminate.
    apply load_Done in Hlc as [_ Hlc].
    destruct tc as [c|].
    2: { (* an empty slot *)
         intros H. apply IHloop in H as [Hh' H]; [|exact Hok | lia | lia |
           unfold INT16_MAX, tasks_per_heap in *; lia].
         split; [exact Hh'|]. apply sift_post_skip; [exact H|].
         intros Hcn. destruct Hok as (_ & _ & Hocc & _).
         destruct (Hocc child) as [t Ht]; [unfold heap_d in *; lia|]. congruence. }
    destruct (load (tasks h) idx) as [ti| |] eqn:Hli; cbn [mbind result_bind]; try discriminate.
    apply load_Done in Hli as [_ Hli].
    destruct ti as [t|]; cbn [deref mbind result_bind]; [|discriminate].
    assert (Hkc : key (tasks h) child = prio (m c)) by (unfold key; rewrite Hlc; reflexivity).
    assert (Hki : key (tasks h) idx = prio (m t)) by (unfold key; rewrite Hli; reflexivity).
    destruct (Z.ltb_spec (prio (m c)) (prio (m t))) as [Hless|Hnot].
    2: { intros H. apply IHloop in H as [Hh' H]; [|exact Hok | lia | lia |
           unfold INT16_MAX, tasks_per_heap in *; lia].
         split; [exact Hh'|]. apply sift_post_skip; [exact H|]. intros _. lia. }
    (* exchange, sift the child down, go on with the next child *)
    assert (Hcn : child < ntasks h).
    { eapply slot_occupied; [exact Hok | unfold heap_d in *; lia | exact Hlc]. }
    pose proof Hok as (Hlen & Hn & _).
    rewrite store_in_range by (unfold heap_d in *; lia). cbn [mbind result_bind].
    rewrite store_in_range by (rewrite length_insert; unfold heap_d in *; lia).
    cbn [mbind result_bind].
    set (ts2 := <[Z.to_nat child := Some t]> (<[Z.to_nat idx := Some c]> (tasks h))).
    assert (Hok2 : shape_ok (set_tasks h ts2)).
    { unfold shape_ok. cbn [set_tasks tasks ntasks]. unfold ts2.
      eapply swap_slots_ok; first [eassumption | unfold heap_d in *; lia]. }
    destruct (sift_down_rec fuel m (set_tasks h ts2) child) as [h3| |] eqn:Hrec;
      cbn [mbind result_bind]; try discriminate.
    apply IHrec in Hrec as [Hh3 Hpost3]; [|exact Hok2 | unfold heap_d in *; lia].
    cbn [set_tasks tasks ntasks] in Hh3, Hpost3.
    intros Hloop.
    assert (Hok3 : shape_ok h3).
    { rewrite Hh3. unfold shape_ok. cbn [set_tasks tasks ntasks]. apply Hpost3. }
    assert (Hn3 : ntasks h3 = ntasks h) by (rewrite Hh3; reflexivity).
    apply IHloop in Hloop as [Hh' Hpost']; [|exact Hok3 | lia | lia |
      unfold INT16_MAX, tasks_per_heap in *; lia].
    rewrite Hn3 in Hpost'. split.
    + rewrite Hh', Hh3. reflexivity.
    + eapply sift_post_swap; [exact Hok | lia | unfold heap_d in *; lia | exact Hpar
                             | exact Hli | exact Hlc | lia | exact Hpost3 | exact Hpost'].
Qed.


(** *** [sift_down] returns *)

(** A node [idx] from which the tree of [n] slots has at most [d] more
    levels. *)
Definition levels_below (n idx : Z) (d : nat) : Prop :=
  7 * n + 1 <= 8 ^ Z.of_nat d * (7 * idx + 1).

Lemma levels_below_child n idx d c :
  0 <= idx -> levels_below n idx (S d) -> heap_d * idx + 1 <= c -> levels_below n c d.
Proof.
  unfold levels_below, heap_d. intros Hidx H Hc.
  rewrite Nat2Z.inj_succ, Z.pow_succ_r in H by lia.
  assert (0 < 8 ^ Z.of_nat d) by (apply Z.pow_pos_nonneg; lia).
  nia.
Qed.

Lemma sift_down_children_returns d
  (IH : forall fuel h idx,
      shape_ok h -> ntasks h <= 4096 -> 0 <= idx -> levels_below (ntasks h) idx d ->
      (10 * d + 1 <= fuel)%nat -> exists h', sift_down_rec fuel m h idx = Done h') :
  forall (k : nat) fuel h idx child,
    shape_ok h -> ntasks h <= 4096 -> 0 <= idx < ntasks h ->
    levels_below (ntasks h) idx (S d) ->
    child = heap_d * idx + heap_d + 1 - Z.of_nat k -> (k <= 8)%nat ->
    (10 * d + 1 + k <= fuel)%nat ->
    exists h', sift_down_children fuel m h idx child = Done h'.
Proof.
  induction k as [|k IHk]; intros fuel h idx child Hok Hn Hidx Hlev Hchild Hk Hfuel.
  - destruct fuel as [|fuel]; [lia|]. cbn [sift_down_children].
    replace (child <=? heap_d * idx + heap_d) with false
      by (symmetry; apply Z.leb_gt; lia).
    rewrite andb_false_r. eauto.
  - destruct fuel as [|fuel]; [lia|]. cbn [sift_down_children].
    destruct ((child <? tasks_per_heap) && (child <=? heap_d * idx + heap_d)) eqn:Hcond;
      [|eauto].
    apply andb_true_iff in Hcond as [Hc1 Hc2].
    apply Z.ltb_lt in Hc1. apply Z.leb_le in Hc2.
    pose proof Hok as (Hlen & Hnb & Hocc & Hfree).
    assert (Hnext : int16 (child + 1) = child + 1).
    { apply int16_id. unfold in_int16, INT16_MIN, INT16_MAX, tasks_per_heap, heap_d in *. lia. }
    rewrite Hnext.
    assert (Hgo : forall h1, shape_ok h1 -> ntasks h1 = ntasks h ->
              exists h', sift_down_children fuel m h1 idx (child + 1) = Done h').
    { intros h1 Hok1 Hn1. apply (IHk fuel h1 idx (child + 1)); rewrite ?Hn1; try assumption; lia. }
    destruct (load_in_range (tasks h) child) as [tc Hlc]; [unfold heap_d in *; lia|].
    rewrite Hlc. cbn [mbind result_bind]. apply load_Done in Hlc as [_ Hlc].
    destruct tc as [c|]; [|apply Hgo; [exact Hok | reflexivity]].
    destruct (Hocc idx) as [t Ht]; [lia|].
    assert (Hli : load (tasks h) idx = Done (Some t)) by (apply load_Done; split; [lia|exact Ht]).
    rewrite Hli. cbn [mbind result_bind deref].
    destruct (prio (m c) <? prio (m t)); [|apply Hgo; [exact Hok | reflexivity]].
    assert (Hcn : child < ntasks h).
    { eapply slot_occupied; [exact Hok | unfold heap_d in *; lia | exact Hlc]. }
    rewrite store_in_range by (unfold heap_d in *; lia). cbn [mbind result_bind].
    rewrite store_in_range by (rewrite length_insert; unfold heap_d in *; lia).
    cbn [mbind result_bind].
    set (ts2 := <[Z.to_nat child := Some t]> (<[Z.to_nat idx := Some c]> (tasks h))).
    assert (Hok2 : shape_ok (set_tasks h ts2)).
    { unfold shape_ok. cbn [set_tasks tasks ntasks]. unfold ts2.
      eapply swap_slots_ok; first [eassumption | unfold heap_d in *; lia]. }
    destruct (IH fuel (set_tasks h ts2) child) as [h3 Hrec];
      [exact Hok2 | exact Hn | unfold heap_d in *; lia | | lia |].
    { cbn [set_tasks ntasks]. eapply levels_below_child; [|exact Hlev|]; unfold heap_d in *; lia. }
    rewrite Hrec. cbn [mbind result_bind].
    apply (proj1 (sift_down_rec_spec fuel)) in Hrec as [Hh3 Hpost3];
      [|exact Hok2 | unfold heap_d in *; lia].
    apply Hgo.
    + rewrite Hh3. unfold shape_ok. cbn [set_tasks tasks ntasks]. apply Hpost3.
    + rewrite Hh3. reflexivity.
Qed.

Lemma sift_down_rec_returns d :
  forall fuel h idx,
    shape_ok h -> ntasks h <= 4096 -> 0 <= idx -> levels_below (ntasks h) idx d ->
    (10 * d + 1 <= fuel)%nat -> exists h', sift_down_rec fuel m h idx = Done h'.
Proof.
  induction d as [|d IH]; intros fuel h idx Hok Hn Hidx Hlev Hfuel.
  - destruct fuel as [|fuel]; [lia|]. cbn [sift_down_rec].
    replace (idx <? ntasks h) with false; [eauto|].
    symmetry. apply Z.ltb_ge. unfold levels_below in Hlev. simpl in Hlev. lia.
  - destruct fuel as [|fuel]; [lia|]. cbn [sift_down_rec].
    destruct (Z.ltb_spec idx (ntasks h)) as [Hlt|Hge]; [|eauto].
    rewrite int16_id by (unfold in_int16, INT16_MIN, INT16_MAX, heap_d in *; lia).
    apply (sift_down_children_returns d IH 8 fuel h idx); try assumption; try lia.
    unfold heap_d. lia.
Qed.

Lemma sift_down_returns h idx :
  shape_ok h -> ntasks h <= 4096 -> 0 <= idx ->
  exists h', sift_down m h idx = Done h'.
Proof.
  intros Hok Hn Hidx. rewrite sift_down_unfold.
  apply (sift_down_rec_returns 6); [exact Hok | exact Hn | exact Hidx | | unfold sift_down_fuel; lia].
  unfold levels_below. change (8 ^ Z.of_nat 6) with 262144. lia.
Qed.


(** *** [sift_up] *)

(** The root is the least of the slots before [idx] when the order holds
    among them. *)
Lemma root_least ts n idx :
  (forall i, 0 < i < n -> i < idx -> key ts (parent i) <= key ts i) ->
  forall j, 0 <= j < n -> j < idx -> key ts 0 <= key ts j.
Proof.
  intros Hord j. induction (Z.lt_wf 0 j) as [j _ IH]. intros Hj Hlt.
  destruct (Z.eq_dec j 0) as [->|Hne]; [lia|].
  pose proof (parent_bounds j ltac:(lia)) as Hb. unfold heap_d in Hb.
  specialize (IH (parent j) ltac:(lia) ltac:(lia) ltac:(lia)).
  specialize (Hord j ltac:(lia) Hlt).
  lia.
Qed.

(** What [sift_up] achieves: the slots [ts'] it leaves, from the slots [ts]
    where the order may fail between [idx] and its parent only. *)
Definition sift_up_post (ts ts' : list (option ptr)) (n idx : Z) : Prop :=
  slots_ok ts' n /\
  ts' ≡ₚ ts /\
  ((forall i, 0 < i < n -> i <> idx -> key ts (parent i) <= key ts i) ->
   (forall c, 0 < c < n -> parent c = idx -> 0 < idx -> key ts (parent idx) <= key ts c) ->
   heap_ordered ts' n /\ key ts' 0 = Z.min (key ts 0) (key ts idx)).

Lemma sift_up_post_stop ts n idx :
  slots_ok ts n -> 0 <= idx < n ->
  (0 < idx -> key ts (parent idx) <= key ts idx) ->
  sift_up_post ts ts n idx.
Proof.
  intros Hok Hidx Hstop. split; [exact Hok|]. split; [reflexivity|].
  intros H1 H2. split.
  - intros i Hi. destruct (Z.eq_dec i idx) as [->|Hne]; [apply Hstop; lia | apply H1; assumption].
  - destruct (Z.eq_dec idx 0) as [->|Hne]; [lia|].
    pose proof (parent_bounds idx ltac:(lia)) as Hb. unfold heap_d in Hb.
    assert (key ts 0 <= key ts (parent idx)).
    { apply (root_least ts n idx); [|lia|lia]. intros i Hi Hlt. apply H1; lia. }
    specialize (Hstop ltac:(lia)). lia.
Qed.

Lemma sift_up_post_swap ts ts' n idx a b :
  slots_ok ts n -> 0 < idx < n ->
  ts !! Z.to_nat idx = Some a -> ts !! Z.to_nat (parent idx) = Some b ->
  key ts idx < key ts (parent idx) ->
  sift_up_post (<[Z.to_nat idx := b]> (<[Z.to_nat (parent idx) := a]> ts)) ts' n (parent idx) ->
  sift_up_post ts ts' n idx.
Proof.
  intros Hok Hidx Ha Hb Hlt.
  set (p := parent idx) in *.
  set (ts2 := <[Z.to_nat idx := b]> (<[Z.to_nat p := a]> ts)).
  intros (Hok' & Hperm' & Hord').
  pose proof (parent_bounds idx ltac:(lia)) as Hpb. fold p in Hpb. unfold heap_d in Hpb.
  assert (Hp0 : 0 <= p) by lia.
  assert (Hne : p <> idx) by lia.
  assert (Hkl : key ts2 p = key ts idx)
    by (unfold ts2; eapply swap_key_l; first [eassumption | lia]).
  assert (Hkr : key ts2 idx = key ts p)
    by (unfold ts2; eapply swap_key_r; first [eassumption | lia]).
  assert (Hko : forall k, 0 <= k -> k <> p -> k <> idx -> key ts2 k = key ts k)
    by (intros k Hk1 Hk2 Hk3; unfold ts2; eapply swap_key_other; first [eassumption | lia]).
  split; [exact Hok'|]. split.
  - rewrite Hperm'. unfold ts2. apply Permutation_insert_swap; assumption.
  - intros H1 H2.
    destruct Hord' as [Hheap Hroot].
    + (* the order fails at [p] only *)
      intros i Hi Hip. pose proof (parent_bounds i ltac:(lia)) as Hib. unfold heap_d in Hib.
      destruct (Z.eq_dec i idx) as [->|Hii].
      * fold p. rewrite Hkl, Hkr. lia.
      * rewrite (Hko i) by lia.
        destruct (Z.eq_dec (parent i) idx) as [Hpi|Hpi];
          [|destruct (Z.eq_dec (parent i) p) as [Hpp|Hpp]].
        -- rewrite Hpi, Hkr. apply H2; [lia | exact Hpi | lia].
        -- rewrite Hpp, Hkl. specialize (H1 i Hi Hii). rewrite Hpp in H1. lia.
        -- rewrite Hko by lia. apply H1; assumption.
    + (* the children of [p] are no less than its parent *)
      intros c Hc Hpc Hp. pose proof (parent_bounds p Hp) as Hppb. unfold heap_d in Hppb.
      rewrite (Hko (parent p)) by lia.
      assert (Hgp : key ts (parent p) <= key ts p) by (apply H1; lia).
      destruct (Z.eq_dec c idx) as [->|Hci].
      * rewrite Hkr. exact Hgp.
      * pose proof (parent_bounds c ltac:(lia)) as Hcb. unfold heap_d in Hcb.
        rewrite Hko by lia.
        specialize (H1 c Hc Hci). rewrite Hpc in H1. lia.
    + split; [exact Hheap|]. rewrite Hroot, Hkl.
      destruct (Z.eq_dec p 0) as [Hz|Hz].
      * rewrite Hz in *. rewrite Hkl. lia.
      * rewrite (Hko 0) by lia. reflexivity.
Qed.

Lemma sift_up_rec_spec (d : nat) :
  forall fuel h idx,
    shape_ok h -> 0 <= idx < ntasks h -> idx < 8 ^ Z.of_nat d -> (d < fuel)%nat ->
    exists h',
      sift_up_rec fuel m h idx = Done h' /\
      h' = set_tasks h (tasks h') /\
      sift_up_post (tasks h) (tasks h') (ntasks h) idx.
Proof.
  induction d as [|d IH]; intros fuel h idx Hok Hidx Hd Hfuel;
    (destruct fuel as [|fuel]; [lia|]); cbn [sift_up_rec].
  - change (8 ^ Z.of_nat 0) with 1 in Hd.
    replace (0 <? idx) with false by (symmetry; apply Z.ltb_ge; lia).
    exists h. split; [reflexivity|]. split; [destruct h; reflexivity|].
    apply sift_up_post_stop; [exact Hok | exact Hidx | lia].
  - destruct (Z.ltb_spec 0 idx) as [Hpos|Hzero].
    2: { exists h. split; [reflexivity|]. split; [destruct h; reflexivity|].
         apply sift_up_post_stop; [exact Hok | exact Hidx | lia]. }
    pose proof Hok as (Hlen & Hn & Hocc & _).
    rewrite parent_quot by (unfold INT16_MAX, tasks_per_heap in *; lia).
    pose proof (parent_bounds idx Hpos) as Hpb. unfold heap_d in Hpb.
    set (p := parent idx) in *.
    destruct (Hocc idx) as [t Ht]; [lia|].
    destruct (Hocc p) as [tp Htp]; [lia|].
    assert (Hli : load (tasks h) idx = Done (Some t)) by (apply load_Done; split; [lia|exact Ht]).
    assert (Hlp : load (tasks h) p = Done (Some tp)) by (apply load_Done; split; [lia|exact Htp]).
    rewrite Hli. cbn [mbind result_bind deref]. rewrite Hlp. cbn [mbind result_bind deref].
    assert (Hki : key (tasks h) idx = prio (m t)) by (unfold key; rewrite Ht; reflexivity).
    assert (Hkp : key (tasks h) p = prio (m tp)) by (unfold key; rewrite Htp; reflexivity).
    destruct (Z.ltb_spec (prio (m t)) (prio (m tp))) as [Hless|Hnot].
    2: { exists h. split; [reflexivity|]. split; [destruct h; reflexivity|].
         apply sift_up_post_stop; [exact Hok | exact Hidx |]. fold p. lia. }
    rewrite store_in_range by lia. cbn [mbind result_bind].
    rewrite store_in_range by (rewrite length_insert; lia).
    cbn [mbind result_bind].
    set (ts2 := <[Z.to_nat idx := Some tp]> (<[Z.to_nat p := Some t]> (tasks h))).
    assert (Hok2 : shape_ok (set_tasks h ts2)).
    { unfold shape_ok. cbn [set_tasks tasks ntasks]. unfold ts2.
      eapply swap_slots_ok; first [eassumption | lia]. }
    destruct (IH fuel (set_tasks h ts2) p) as (h' & Hrec & Hh' & Hpost);
      [exact Hok2 | cbn [set_tasks ntasks]; lia | | lia |].
    { rewrite Nat2Z.inj_succ, Z.pow_succ_r in Hd by lia. lia. }
    exists h'. split; [exact Hrec|]. cbn [set_tasks tasks ntasks] in Hh', Hpost. split.
    + rewrite Hh'. reflexivity.
    + eapply sift_up_post_swap; [exact Hok | lia | exact Ht | exact Htp | fold p; lia | exact Hpost].
Qed.

Lemma sift_up_spec h idx :
  shape_ok h -> 0 <= idx < ntasks h ->
  exists h',
    sift_up m h idx = Done h' /\
    h' = set_tasks h (tasks h') /\
    sift_up_post (tasks h) (tasks h') (ntasks h) idx.
Proof.
  intros Hok Hidx. rewrite sift_up_unfold.
  apply (sift_up_rec_spec 5); [exact Hok | exact Hidx | | unfold sift_up_fuel; lia].
  destruct Hok as (_ & Hn & _). change (8 ^ Z.of_nat 5) with 32768.
  unfold tasks_per_heap in Hn. lia.
Qed.

End HeapFacts.

(** ** Pushing on and popping from a shard *)

Section PushPop.
Variable m : memory.

Lemma key_insert_ne ts i j x :
  0 <= i -> 0 <= j -> i <> j -> key m (<[Z.to_nat j := x]> ts) i = key m ts i.
Proof.
  intros Hi Hj Hij. unfold key. rewrite list_lookup_insert_ne by lia. reflexivity.
Qed.

Lemma key_insert_eq ts j t :
  0 <= j < Z.of_nat (length ts) -> key m (<[Z.to_nat j := Some t]> ts) j = prio (m t).
Proof.
  intros Hj. unfold key. rewrite list_lookup_insert_eq by lia. reflexivity.
Qed.

(** The cached priority of a shard is that of its root, or [INT16_MAX] when
    the shard is empty. *)
Definition cache_ok (h : taskheap_t) : Prop :=
  heap_prio h = if ntasks h =? 0 then INT16_MAX else key m (tasks h) 0.

(** The tasks in the slots. *)
Definition contents (h : taskheap_t) : list ptr := omap id (tasks h).

Lemma multiq_insert_push_spec h t :
  shape_ok h -> ntasks h < tasks_per_heap ->
  exists h',
    multiq_insert_push m h t = Done h' /\
    lock h' = lock h /\ heap_prio h' = heap_prio h /\
    ntasks h' = ntasks h + 1 /\
    shape_ok h' /\
    tasks h' ≡ₚ <[Z.to_nat (ntasks h) := Some t]> (tasks h) /\
    (heap_ordered m (tasks h) (ntasks h) ->
     heap_ordered m (tasks h') (ntasks h') /\
     key m (tasks h') 0 =
       Z.min (if ntasks h =? 0 then prio (m t) else key m (tasks h) 0) (prio (m t))).
Proof.
  intros Hok Hn. pose proof Hok as (Hlen & Hnb & Hocc & Hfree).
  unfold multiq_insert_push.
  rewrite store_in_range by lia. cbn [mbind result_bind].
  set (n := ntasks h) in *.
  set (ts1 := <[Z.to_nat n := Some t]> (tasks h)).
  cbn [set_ntasks set_tasks ntasks tasks].
  assert (Hn1 : int16 (n + 1) = n + 1)
    by (apply int16_id; unfold in_int16, INT16_MIN, INT16_MAX, tasks_per_heap in *; lia).
  rewrite Hn1. replace (n + 1 - 1) with n by lia.
  rewrite (int16_id n)
    by (unfold in_int16, INT16_MIN, INT16_MAX, tasks_per_heap in *; lia).
  set (h1 := set_ntasks (set_tasks h ts1) (n + 1)).
  assert (Hok1 : shape_ok h1).
  { unfold shape_ok, h1. cbn [set_ntasks set_tasks ntasks tasks].
    split; [unfold ts1; rewrite length_insert; exact Hlen|]. split; [lia|]. split.
    - intros i Hi. unfold ts1. destruct (Z.eq_dec i n) as [->|Hne].
      + rewrite list_lookup_insert_eq by lia. eauto.
      + rewrite list_lookup_insert_ne by lia. apply Hocc. lia.
    - intros i Hi. unfold ts1. rewrite list_lookup_insert_ne by lia. apply Hfree. lia. }
  destruct (sift_up_spec m h1 n Hok1) as (h' & Hup & Hh' & Hok' & Hperm & Hord).
  { unfold h1. cbn [set_ntasks ntasks]. lia. }
  exists h'. split; [exact Hup|].
  unfold h1 in Hh', Hok', Hperm, Hord. cbn [set_ntasks set_tasks ntasks tasks] in *.
  rewrite Hh'. cbn [set_tasks set_ntasks lock heap_prio ntasks tasks].
  split; [reflexivity|]. split; [reflexivity|]. split; [reflexivity|].
  split; [exact Hok'|]. split; [exact Hperm|].
  intros Hheap. destruct Hord as [Hheap' Hroot].
  - intros i Hi Hin. pose proof (parent_bounds i ltac:(lia)) as Hb. unfold heap_d in Hb.
    unfold ts1. rewrite !key_insert_ne by lia. apply Hheap. lia.
  - intros c Hc Hpc Hn0. pose proof (parent_bounds c ltac:(lia)) as Hb. unfold heap_d in Hb. lia.
  - split; [exact Hheap'|]. rewrite Hroot. unfold ts1.
    rewrite key_insert_eq by lia.
    destruct (Z.eqb_spec n 0) as [Hz|Hz].
    + rewrite Hz. rewrite key_insert_eq by lia. reflexivity.
    + rewrite key_insert_ne by lia. reflexivity.
Qed.

Lemma insert_Permutation_cons {A} (l : list A) i x y :
  l !! i = Some x -> x :: <[i := y]> l ≡ₚ y :: l.
Proof.
  revert i. induction l as [|a l IH]; intros [|i] Hx; try discriminate.
  - injection Hx as ->. apply Permutation_swap.
  - cbn in Hx. cbn [insert list_insert]. change (x :: a :: <[i := y]> l ≡ₚ y :: a :: l).
    rewrite (Permutation_swap a x), (IH i Hx). apply Permutation_swap.
Qed.


(** The shard as the pop leaves it before sifting: the last task in the
    root, the last slot cleared, one task less. *)
Lemma pop_slots_ok ts n last :
  slots_ok ts n -> 1 <= n -> ts !! Z.to_nat (n - 1) = Some last ->
  slots_ok (<[Z.to_nat (n - 1) := None]> (<[Z.to_nat 0 := last]> ts)) (n - 1).
Proof.
  intros (Hlen & Hnb & Hocc & Hfree) Hn Hlast.
  split; [rewrite !length_insert; exact Hlen|]. split; [lia|]. split.
  - intros i Hi. rewrite list_lookup_insert_ne by lia.
    destruct (Z.eq_dec i 0) as [->|Hne].
    + rewrite list_lookup_insert_eq by lia.
      destruct (Hocc (n - 1)) as [t Ht]; [lia|]. exists t. congruence.
    + rewrite list_lookup_insert_ne by lia. apply Hocc. lia.
  - intros i Hi. destruct (Z.eq_dec i (n - 1)) as [->|Hne].
    + apply list_lookup_insert_eq. rewrite length_insert. lia.
    + rewrite !list_lookup_insert_ne by lia. apply Hfree. lia.
Qed.

Lemma pop_Permutation (ts : list (option ptr)) n last root :
  1 <= n -> ts !! Z.to_nat (n - 1) = Some last -> ts !! Z.to_nat 0 = Some root ->
  root :: <[Z.to_nat (n - 1) := None]> (<[Z.to_nat 0 := last]> ts) ≡ₚ None :: ts.
Proof.
  intros Hn Hlast Hroot.
  destruct (Z.eq_dec n 1) as [->|Hne].
  - change (Z.to_nat (1 - 1)) with (Z.to_nat 0) in *.
    rewrite list_insert_insert_eq. apply insert_Permutation_cons, Hroot.
  - rewrite <- (list_insert_insert_eq _ (Z.to_nat (n - 1)) None root).
    rewrite insert_Permutation_cons.
    + apply Permutation_cons; [reflexivity|]. apply Permutation_insert_swap; assumption.
    + apply list_lookup_insert_eq. rewrite length_insert. eapply lookup_lt_Some, Hlast.
Qed.

(** What the pop leaves when it returns. *)
Lemma multiq_deletemin_pop_spec h h' :
  shape_ok h -> 1 <= ntasks h ->
  multiq_deletemin_pop m h = Done h' ->
  lock h' = lock h /\
  ntasks h' = ntasks h - 1 /\
  shape_ok h' /\
  (forall root, tasks h !! 0%nat = Some root -> root :: tasks h' ≡ₚ None :: tasks h) /\
  (heap_ordered m (tasks h) (ntasks h) -> heap_ordered m (tasks h') (ntasks h')) /\
  cache_ok h'.
Proof.
  intros Hok Hn. pose proof Hok as (Hlen & Hnb & Hocc & Hfree).
  unfold multiq_deletemin_pop.
  set (n := ntasks h) in *.
  rewrite (int16_id (n - 1))
    by (unfold in_int16, INT16_MIN, INT16_MAX, tasks_per_heap in *; lia).
  destruct (Hocc (n - 1)) as [tl Htl]; [lia|].
  destruct (Hocc 0) as [t0 Ht0]; [lia|].
  assert (Hll : load (tasks h) (n - 1) = Done (Some tl))
    by (apply load_Done; split; [lia | exact Htl]).
  rewrite Hll. cbn [mbind result_bind].
  rewrite store_in_range by lia. cbn [mbind result_bind].
  rewrite store_in_range by (rewrite length_insert; lia). cbn [mbind result_bind].
  set (ts2 := <[Z.to_nat (n - 1) := None]> (<[Z.to_nat 0 := Some tl]> (tasks h))).
  set (h1 := set_ntasks (set_tasks h ts2) (n - 1)).
  assert (Hok1 : shape_ok h1).
  { unfold shape_ok, h1. cbn [set_ntasks set_tasks ntasks tasks].
    apply pop_slots_ok; first [assumption | lia]. }
  assert (Hperm1 : forall root, tasks h !! 0%nat = Some root -> root :: ts2 ≡ₚ None :: tasks h).
  { intros root Hroot. apply pop_Permutation; assumption. }
  change (ntasks h1) with (n - 1).
  destruct (Z.ltb_spec 0 (n - 1)) as [Hpos|Hzero].
  - destruct (sift_down m h1 0) as [h2| |] eqn:Hsift; cbn [mbind result_bind]; try discriminate.
    rewrite sift_down_unfold in Hsift.
    apply (proj1 (sift_down_rec_spec m sift_down_fuel)) in Hsift as [Hh2 Hpost];
      [|exact Hok1 | lia].
    unfold h1 in Hh2, Hpost. cbn [set_ntasks set_tasks ntasks tasks] in Hh2, Hpost.
    destruct Hpost as (Hok2 & Hperm2 & _ & _ & Hord2).
    destruct (load (tasks h2) 0) as [root| |] eqn:Hlr; cbn [mbind result_bind]; try discriminate.
    apply load_Done in Hlr as [_ Hlr].
    destruct root as [r|]; cbn [deref mbind result_bind]; [|discriminate].
    intros [= <-]. rewrite Hh2. cbn [set_heap_prio set_tasks set_ntasks lock ntasks tasks].
    split; [reflexivity|]. split; [reflexivity|]. split; [exact Hok2|]. split; [|split].
    + intros root Hroot. rewrite Hperm2. apply Hperm1, Hroot.
    + intros Hheap i Hi. apply Hord2.
      * intros j Hj Hpj. pose proof (parent_bounds j ltac:(lia)) as Hb. unfold heap_d in Hb.
        unfold ts2. rewrite !key_insert_ne by lia. apply Hheap. lia.
      * intros c Hc. lia.
      * exact Hi.
      * pose proof (parent_bounds i ltac:(lia)) as Hb. unfold heap_d in Hb. lia.
    + unfold cache_ok. cbn [heap_prio ntasks tasks set_heap_prio set_tasks set_ntasks].
      replace (n - 1 =? 0) with false by (symmetry; apply Z.eqb_neq; lia).
      unfold key. rewrite Hh2 in Hlr. cbn [set_tasks tasks] in Hlr.
      change (Z.to_nat 0) with 0%nat in *. rewrite Hlr. reflexivity.
  - cbn [mbind result_bind]. intros [= <-].
    unfold h1. cbn [set_heap_prio set_tasks set_ntasks lock ntasks tasks].
    split; [reflexivity|]. split; [reflexivity|]. split; [exact Hok1|]. split; [|split].
    + exact Hperm1.
    + intros _ i Hi. lia.
    + unfold cache_ok. cbn [heap_prio ntasks tasks set_heap_prio set_tasks set_ntasks].
      replace (n - 1 =? 0) with true by (symmetry; apply Z.eqb_eq; lia). reflexivity.
Qed.

(** The pop returns as long as no index of [sift_down] leaves the range of
    [int16_t]. *)
Lemma multiq_deletemin_pop_returns h :
  shape_ok h -> 1 <= ntasks h <= 4097 ->
  exists h', multiq_deletemin_pop m h = Done h'.
Proof.
  intros Hok Hn. pose proof Hok as (Hlen & Hnb & Hocc & Hfree).
  unfold multiq_deletemin_pop.
  set (n := ntasks h) in *.
  rewrite (int16_id (n - 1))
    by (unfold in_int16, INT16_MIN, INT16_MAX, tasks_per_heap in *; lia).
  destruct (Hocc (n - 1)) as [tl Htl]; [lia|].
  assert (Hll : load (tasks h) (n - 1) = Done (Some tl))
    by (apply load_Done; split; [lia | exact Htl]).
  rewrite Hll. cbn [mbind result_bind].
  rewrite store_in_range by lia. cbn [mbind result_bind].
  rewrite store_in_range by (rewrite length_insert; lia). cbn [mbind result_bind].
  set (ts2 := <[Z.to_nat (n - 1) := None]> (<[Z.to_nat 0 := Some tl]> (tasks h))).
  set (h1 := set_ntasks (set_tasks h ts2) (n - 1)).
  assert (Hok1 : shape_ok h1).
  { unfold shape_ok, h1. cbn [set_ntasks set_tasks ntasks tasks].
    apply pop_slots_ok; first [assumption | lia]. }
  change (ntasks h1) with (n - 1).
  destruct (Z.ltb_spec 0 (n - 1)) as [Hpos|Hzero]; [|cbn [mbind result_bind]; eauto].
  destruct (sift_down_returns m h1 0 Hok1) as [h2 Hsift];
    [unfold h1; cbn [set_ntasks ntasks]; lia | lia |].
  rewrite Hsift. cbn [mbind result_bind].
  rewrite sift_down_unfold in Hsift.
  apply (proj1 (sift_down_rec_spec m sift_down_fuel)) in Hsift as [Hh2 Hpost];
    [|exact Hok1 | lia].
  destruct Hpost as ((Hlen2 & _ & Hocc2 & _) & _).
  unfold h1 in Hocc2. cbn [set_ntasks set_tasks ntasks tasks] in Hocc2.
  destruct (Hocc2 0) as [r Hr]; [lia|].
  assert (Hlr : load (tasks h2) 0 = Done (Some r)) by (apply load_Done; split; [lia | exact Hr]).
  rewrite Hlr. cbn [mbind result_bind deref]. eauto.
Qed.

End PushPop.

(** ** The multi-queue operations, step by step *)

Section MultiqSteps.
Context {R : Rng}.

Lemma heap_p_draw_eq s rn s' : draw s = (rn, s') -> heap_p s' = heap_p s.
Proof. intros H. rewrite <- (draw_heap_p s), H. reflexivity. Qed.

Lemma draw_fst s :
  fst (draw s) = fst (cong (heap_p s) (cong_unbias s) (rngseed (ptls s))).
Proof. unfold draw. destruct (cong _ _ _). reflexivity. Qed.

Lemma draw_fst_set_mem s m : fst (draw (set_mem s m)) = fst (draw s).
Proof. rewrite !draw_fst. reflexivity. Qed.

Lemma set_lock_unlock h : lock h = false -> set_lock (set_lock h true) false = h.
Proof. destruct h as [l ts n p]. cbn. intros ->. reflexivity. Qed.

Lemma relock_heaps (hs : list taskheap_t) rn h :
  hs !! rn = Some h -> lock h = false ->
  <[rn := set_lock (set_lock h true) false]> (<[rn := set_lock h true]> hs) = hs.
Proof.
  intros Hh Hl. rewrite list_insert_insert_eq, set_lock_unlock by exact Hl.
  apply list_insert_id, Hh.
Qed.

(** How the probing loop of [multiq_deletemin] ends: with the loop counter
    at [heap_p] and the shards as they were, or before that with the lock of
    the shard [rn1] taken, a shard whose cached priority was below that of
    another shard or below [INT16_MAX]. *)
Lemma probe_heaps n s i rn1 s' i' rn1' :
  0 <= i <= heap_p s -> heap_p s <= INT16_MAX ->
  multiq_deletemin_probe n s i rn1 = Done (s', i', rn1') ->
  (i' = heap_p s /\ heaps s' = heaps s) \/
  (i' < heap_p s /\ 0 <= rn1' /\
   exists h, heaps s !! Z.to_nat rn1' = Some h /\ lock h = false /\
     heaps s' = <[Z.to_nat rn1' := set_lock h true]> (heaps s) /\
     (heap_prio h <> INT16_MAX \/ exists h2, h2 ∈ heaps s /\ INT16_MAX < heap_prio h2)).
Proof.
  revert s i rn1. induction n as [|n IH]; intros s i rn1 Hi Hp H.
  - simpl in H. destruct (Z.ltb_spec i (heap_p s)); [discriminate|].
    injection H as <- <- _. left. split; [lia | reflexivity].
  - cbn [multiq_deletemin_probe] in H.
    destruct (Z.ltb_spec i (heap_p s)) as [Hlt|Hge];
      [|injection H as <- <- _; left; split; [lia | reflexivity]].
    destruct (draw s) as [r1 s1] eqn:Hd1. destruct (draw s1) as [r2 s2] eqn:Hd2.
    assert (Hh2 : heaps s2 = heaps s).
    { rewrite (heaps_draw_eq _ _ _ Hd2). apply (heaps_draw_eq _ _ _ Hd1). }
    assert (Hp2 : heap_p s2 = heap_p s).
    { rewrite (heap_p_draw_eq _ _ _ Hd2). apply (heap_p_draw_eq _ _ _ Hd1). }
    assert (Hnext : int16 (i + 1) = i + 1)
      by (apply int16_id; unfold in_int16, INT16_MIN, INT16_MAX in *; lia).
    rewrite Hnext in H.
    assert (Hcont : forall rn, multiq_deletemin_probe n s2 (i + 1) rn = Done (s', i', rn1') ->
      (i' = heap_p s /\ heaps s' = heaps s) \/
      (i' < heap_p s /\ 0 <= rn1' /\
       exists h, heaps s !! Z.to_nat rn1' = Some h /\ lock h = false /\
         heaps s' = <[Z.to_nat rn1' := set_lock h true]> (heaps s) /\
         (heap_prio h <> INT16_MAX \/ exists h2, h2 ∈ heaps s /\ INT16_MAX < heap_prio h2))).
    { intros rn Hrn. apply IH in Hrn; [|lia|lia]. rewrite Hh2, Hp2 in Hrn. exact Hrn. }
    destruct (load (heaps s2) r1) as [h1| |] eqn:Hl1; cbn [mbind result_bind] in H;
      try discriminate.
    destruct (load (heaps s2) r2) as [h2| |] eqn:Hl2; cbn [mbind result_bind] in H;
      try discriminate.
    assert (Hbreak : forall rn h prio1,
      load (heaps s2) rn = Done h ->
      (heap_prio h <> INT16_MAX \/ exists h2, h2 ∈ heaps s /\ INT16_MAX < heap_prio h2) ->
      (load (heaps s2) rn ≫= fun h =>
         if lock h then multiq_deletemin_probe n s2 (i + 1) rn
         else if prio1 =? heap_prio h then
           store_heap s2 rn (set_lock h true) ≫= fun s => Done (s, i, rn)
         else multiq_deletemin_probe n s2 (i + 1) rn) = Done (s', i', rn1') ->
      (i' = heap_p s /\ heaps s' = heaps s) \/
      (i' < heap_p s /\ 0 <= rn1' /\
       exists h, heaps s !! Z.to_nat rn1' = Some h /\ lock h = false /\
         heaps s' = <[Z.to_nat rn1' := set_lock h true]> (heaps s) /\
         (heap_prio h <> INT16_MAX \/ exists h2, h2 ∈ heaps s /\ INT16_MAX < heap_prio h2))).
    { intros rn h prio1 Hl Hprio. rewrite Hl. cbn [mbind result_bind].
      destruct (lock h) eqn:Hlock; [apply Hcont|].
      destruct (prio1 =? heap_prio h); [|apply Hcont].
      destruct (store_heap s2 rn (set_lock h true)) as [s3| |] eqn:Hst;
        cbn [mbind result_bind]; try discriminate.
      intros [= <- <- <-]. right. apply store_heap_Done in Hst as [Hr ->].
      apply load_Done in Hl as [Hrn Hl]. rewrite Hh2 in Hl.
      split; [lia|]. split; [exact Hrn|]. exists h.
      cbn [set_heaps heaps]. rewrite Hh2. auto. }
    apply load_Done in Hl1 as Hl1'. destruct Hl1' as [_ Hl1']. rewrite Hh2 in Hl1'.
    apply load_Done in Hl2 as Hl2'. destruct Hl2' as [_ Hl2']. rewrite Hh2 in Hl2'.
    destruct (Z.ltb_spec (heap_prio h2) (heap_prio h1)) as [Hless|Hnot].
    + apply (Hbreak r2 h2 (heap_prio h2) Hl2); [|exact H].
      destruct (Z.eq_dec (heap_prio h2) INT16_MAX) as [Heq|Hne]; [|left; exact Hne].
      right. exists h1. split; [eapply list_elem_of_lookup_2, Hl1' | lia].
    + destruct ((heap_prio h1 =? heap_prio h2) && (heap_prio h1 =? INT16_MAX)) eqn:Hskip.
      * apply Hcont in H. exact H.
      * apply (Hbreak r1 h1 (heap_prio h1) Hl1); [|exact H].
        destruct (Z.eq_dec (heap_prio h1) INT16_MAX) as [Heq|Hne]; [|left; exact Hne].
        right. exists h2. split; [eapply list_elem_of_lookup_2, Hl2'|].
        apply andb_false_iff in Hskip as [Hskip|Hskip]; apply Z.eqb_neq in Hskip; lia.
Qed.


Lemma outside_heap_p (s s' : sched) : outside s' = outside s -> heap_p s' = heap_p s.
Proof. unfold outside. intros [= -> _ _ _ _ _ _ _ _ _]. reflexivity. Qed.

(** What [multiq_deletemin] does to the shards: nothing when it returns
    [NULL]; otherwise the task returned was the root of a shard that was not
    locked, and that shard has been popped. *)
Lemma multiq_deletemin_step fuel s s' r :
  0 <= heap_p s <= INT16_MAX ->
  multiq_deletemin fuel s = Done (s', r) ->
  match r with
  | None => heaps s' = heaps s /\ mem s' = mem s
  | Some t =>
    exists rn h hp,
      heaps s !! rn = Some h /\ lock h = false /\
      tasks h !! 0%nat = Some (Some t) /\
      (heap_prio h <> INT16_MAX \/ exists h2, h2 ∈ heaps s /\ INT16_MAX < heap_prio h2) /\
      multiq_deletemin_pop (mem s') (set_lock h true) = Done hp /\
      heaps s' = <[rn := set_lock hp false]> (heaps s)
  end.
Proof.
  revert s. induction fuel as [|fuel IH]; intros s Hp H; [discriminate|].
  cbn [multiq_deletemin] in H.
  destruct (multiq_deletemin_probe _ s 0 0) as [[[s1 i] rn1]| |] eqn:Hprobe;
    cbn [mbind result_bind] in H; try discriminate.
  pose proof (outside_probe _ _ _ _ _ _ _ Hprobe) as [Ho Hm].
  apply probe_heaps in Hprobe; [|lia|lia].
  rewrite (outside_heap_p _ _ Ho) in H.
  destruct Hprobe as [[-> Hheaps]|(Hi & Hrn & h & Hh & Hlock & Hheaps & Hprio)].
  - rewrite Z.eqb_refl in H. injection H as <- <-. auto.
  - replace (i =? heap_p s) with false in H by (symmetry; apply Z.eqb_neq; lia).
    assert (Hl : load (heaps s1) rn1 = Done (set_lock h true)).
    { apply load_Done. split; [exact Hrn|]. rewrite Hheaps.
      apply list_lookup_insert_eq. eapply lookup_lt_Some, Hh. }
    rewrite Hl in H. cbn [mbind result_bind] in H. cbn [set_lock tasks] in H.
    destruct (load (tasks h) 0) as [[t|]| |] eqn:Hroot; cbn [mbind result_bind] in H;
      try discriminate.
    apply load_Done in Hroot as [_ Hroot]. change (Z.to_nat 0) with 0%nat in Hroot.
    set (mr := if negb (tid (mem s1 t) =? tls_tid (ptls s1))
               then let '(m, old) := cas_task_tid (mem s1) t (-1) (tls_tid (ptls s1)) in
                    (m, negb (old =? -1))
               else (mem s1, false)) in H.
    destruct mr as [m' retry] eqn:Hmr.
    assert (Hlen : 0 <= rn1 < Z.of_nat (length (heaps (set_mem s1 m')))).
    { cbn [set_mem heaps]. rewrite Hheaps, length_insert.
      apply lookup_lt_Some in Hh. lia. }
    destruct retry.
    + (* owned by another worker *)
      rewrite (proj2 (store_heap_Done _ _ _ _) (conj Hlen eq_refl)) in H.
      cbn [mbind result_bind] in H.
      cbn [set_mem heaps] in H. rewrite Hheaps in H.
      assert (Hm' : m' = mem s1).
      { unfold mr in Hmr. destruct (negb _); [|congruence].
        unfold cas_task_tid in Hmr.
        destruct (Z.eqb_spec (tid (mem s1 t)) (-1)) as [Hf|Hf].
        - rewrite Hf in Hmr. cbn in Hmr. congruence.
        - congruence. }
      rewrite (relock_heaps (heaps s) (Z.to_nat rn1) h Hh Hlock) in H.
      apply IH in H; [|cbn [set_heaps set_mem heap_p]; rewrite (outside_heap_p _ _ Ho); exact Hp].
      cbn [set_heaps set_mem heaps mem] in H. rewrite Hm', Hm in H. exact H.
    + destruct (multiq_deletemin_pop (mem (set_mem s1 m')) (set_lock h true)) as [hp| |] eqn:Hpop;
        cbn [mbind result_bind] in H; try discriminate.
      rewrite (proj2 (store_heap_Done _ _ _ _) (conj Hlen eq_refl)) in H.
      cbn [mbind result_bind] in H. injection H as <- <-.
      exists (Z.to_nat rn1), h, hp. cbn [set_heaps set_mem heaps mem].
      split; [exact Hh|]. split; [exact Hlock|]. split; [exact Hroot|]. split; [exact Hprio|].
      split; [exact Hpop|]. rewrite Hheaps. apply list_insert_insert_eq.
Qed.


(** The shard picked by [multiq_insert] was not locked, and is locked now. *)
Lemma multiq_insert_pick_spec fuel s s1 rn :
  multiq_insert_pick fuel s = Done (s1, rn) ->
  0 <= rn /\
  exists h, heaps s !! Z.to_nat rn = Some h /\ lock h = false /\
    heaps s1 = <[Z.to_nat rn := set_lock h true]> (heaps s) /\
    mem s1 = mem s /\ outside s1 = outside s.
Proof.
  revert s. induction fuel as [|fuel IH]; intros s H; [discriminate|].
  cbn [multiq_insert_pick] in H.
  destruct (draw s) as [r s0] eqn:Hd.
  pose proof (heaps_draw_eq _ _ _ Hd) as Hh0.
  pose proof (mem_draw_eq _ _ _ Hd) as Hm0.
  pose proof (outside_draw_eq _ _ _ Hd) as Ho0.
  destruct (load (heaps s0) r) as [h| |] eqn:Hl; cbn [mbind result_bind] in H;
    try discriminate.
  destruct (lock h) eqn:Hlock.
  - apply IH in H as (Hrn & h' & H1 & H2 & H3 & H4 & H5).
    split; [exact Hrn|]. exists h'. rewrite <- Hh0, <- Hm0, <- Ho0. auto.
  - destruct (store_heap s0 r (set_lock h true)) as [s2| |] eqn:Hst;
      cbn [mbind result_bind] in H; try discriminate.
    injection H as <- <-. apply store_heap_Done in Hst as [_ ->].
    apply load_Done in Hl as [Hr Hl]. split; [exact Hr|]. exists h.
    cbn [set_heaps heaps mem]. rewrite <- Hh0, <- Hm0, <- Ho0. auto.
Qed.

(** With no shard locked the first shard drawn is picked. *)
Lemma multiq_insert_pick_unlocked fuel s :
  heaps_allocated s -> 0 < heap_p s ->
  (forall h, h ∈ heaps s -> lock h = false) ->
  exists s1, multiq_insert_pick (S fuel) s = Done (s1, fst (draw s)).
Proof.
  intros Halloc Hp Hunl. cbn [multiq_insert_pick].
  destruct (load_drawn s Halloc Hp) as (h & Hl & Hin).
  destruct (draw s) as [r s0] eqn:Hd. cbn [fst] in *.
  rewrite (heaps_draw_eq _ _ _ Hd), Hl. cbn [mbind result_bind].
  rewrite (Hunl h Hin).
  destruct (store_heap s0 r (set_lock h true)) as [s2| |] eqn:Hst.
  - cbn [mbind result_bind]. eauto.
  - exfalso. apply load_Done in Hl as [Hr Hl]. apply lookup_lt_Some in Hl.
    unfold store_heap in Hst. rewrite store_in_range in Hst; [discriminate|].
    rewrite (heaps_draw_eq _ _ _ Hd). lia.
  - exfalso. unfold store_heap in Hst.
    destruct (store (heaps s0) r (set_lock h true)) eqn:Hs; try discriminate.
    eapply store_not_Timeout, Hs.
Qed.

(** The cached priority after the compare-and-swap that ends
    [multiq_insert]. *)
Definition cache_lowered (h : taskheap_t) (p : Z) : taskheap_t :=
  if p <? heap_prio h then set_heap_prio h p else h.

(** What [multiq_insert] does: the priority is recorded on the task; then
    either the shard picked is full and nothing else changes, or the task
    is pushed on it. *)
Lemma multiq_insert_step fuel s t p s' c :
  multiq_insert fuel s t p = Done (s', c) ->
  mem s' = set_task_prio (mem s) t p /\ outside s' = outside s /\
  exists rn s1 h,
    multiq_insert_pick fuel (set_mem s (set_task_prio (mem s) t p)) = Done (s1, rn) /\
    heaps s !! Z.to_nat rn = Some h /\ lock h = false /\
    match c with
    | Raised msg =>
      msg = "multiq insertion failed, increase #tasks per heap"%string /\
      tasks_per_heap <= ntasks h /\ heaps s' = heaps s
    | Returned v =>
      v = 0 /\ ntasks h < tasks_per_heap /\
      exists hp, multiq_insert_push (mem s') (set_lock h true) t = Done hp /\
        heaps s' = <[Z.to_nat rn := cache_lowered (set_lock hp false) (prio (mem s' t))]>
                     (heaps s)
    end.
Proof.
  unfold multiq_insert. intros H.
  destruct (multiq_insert_pick fuel _) as [[s1 rn]| |] eqn:Hpick;
    cbn [mbind result_bind] in H; try discriminate.
  apply multiq_insert_pick_spec in Hpick as (Hrn & h & Hh & Hlock & Hheaps & Hm & Ho).
  cbn [set_mem heaps mem] in Hh, Hheaps, Hm.
  change (outside (set_mem s (set_task_prio (mem s) t p))) with (outside s) in Ho.
  assert (Hl : load (heaps s1) rn = Done (set_lock h true)).
  { apply load_Done. split; [exact Hrn|]. rewrite Hheaps.
    apply list_lookup_insert_eq. eapply lookup_lt_Some, Hh. }
  rewrite Hl in H. cbn [mbind result_bind] in H. cbn [set_lock ntasks] in H.
  assert (Hlen : 0 <= rn < Z.of_nat (length (heaps s1))).
  { rewrite Hheaps, length_insert. apply lookup_lt_Some in Hh. lia. }
  destruct (Z.leb_spec tasks_per_heap (ntasks h)) as [Hfull|Hroom].
  - rewrite (proj2 (store_heap_Done _ _ _ _) (conj Hlen eq_refl)) in H.
    cbn [mbind result_bind] in H. injection H as <- <-.
    cbn [set_heaps mem]. split; [exact Hm|]. split; [exact Ho|].
    exists rn, s1, h. split; [reflexivity|]. split; [exact Hh|]. split; [exact Hlock|].
    split; [reflexivity|]. split; [exact Hfull|].
    cbn [heaps]. rewrite Hheaps.
    apply (relock_heaps (heaps s) (Z.to_nat rn) h Hh Hlock).
  - change {| lock := true; tasks := tasks h; ntasks := ntasks h; heap_prio := heap_prio h |}
      with (set_lock h true) in H.
    destruct (multiq_insert_push (mem s1) (set_lock h true) t) as [hp| |] eqn:Hpush;
      cbn [mbind result_bind] in H; try discriminate.
    set (hnew := if prio (mem s1 t) <? heap_prio (set_lock hp false)
                 then set_heap_prio (set_lock hp false)
                        (fst (jl_atomic_compare_exchange (heap_prio (set_lock hp false))
                                (heap_prio (set_lock hp false)) (prio (mem s1 t))))
                 else set_lock hp false) in H.
    assert (Hnew : hnew = cache_lowered (set_lock hp false) (prio (mem s1 t))).
    { unfold hnew, cache_lowered, jl_atomic_compare_exchange.
      rewrite Z.eqb_refl. reflexivity. }
    rewrite (proj2 (store_heap_Done _ _ _ _) (conj Hlen eq_refl)) in H.
    cbn [mbind result_bind] in H. injection H as <- <-.
    cbn [set_heaps mem heaps]. split; [exact Hm|]. split; [exact Ho|].
    exists rn, s1, h. split; [reflexivity|]. split; [exact Hh|]. split; [exact Hlock|].
    split; [reflexivity|]. split; [exact Hroom|].
    exists hp. split; [exact Hpush|].
    rewrite Hheaps, list_insert_insert_eq, Hnew. reflexivity.
Qed.

(** With no shard locked, [multiq_insert] returns or raises its error. *)
Lemma multiq_insert_returns fuel s t p :
  heaps_allocated s -> 0 < heap_p s ->
  (forall h, h ∈ heaps s -> lock h = false /\ shape_ok h) ->
  exists s' c, multiq_insert (S fuel) s t p = Done (s', c) /\
    forall h, heaps s !! Z.to_nat (fst (draw s)) = Some h ->
      match c with
      | Raised _ => tasks_per_heap <= ntasks h
      | Returned _ => ntasks h < tasks_per_heap
      end.
Proof.
  intros Halloc Hp Hall. unfold multiq_insert.
  set (s0 := set_mem s (set_task_prio (mem s) t p)).
  destruct (multiq_insert_pick_unlocked fuel s0) as [s1 Hpick];
    [exact Halloc | exact Hp | intros h Hh; apply Hall, Hh |].
  unfold s0 in Hpick at 2. rewrite draw_fst_set_mem in Hpick.
  rewrite Hpick. cbn [mbind result_bind].
  apply multiq_insert_pick_spec in Hpick as (Hrn & h & Hh & Hlock & Hheaps & Hm & Ho).
  cbn [heaps set_mem s0] in Hh, Hheaps.
  assert (Hl : load (heaps s1) (fst (draw s)) = Done (set_lock h true)).
  { apply load_Done. split; [exact Hrn|]. rewrite Hheaps.
    apply list_lookup_insert_eq. eapply lookup_lt_Some, Hh. }
  rewrite Hl. cbn [mbind result_bind]. cbn [set_lock ntasks].
  assert (Hlen : 0 <= fst (draw s) < Z.of_nat (length (heaps s1))).
  { rewrite Hheaps, length_insert. apply lookup_lt_Some in Hh. lia. }
  destruct (Z.leb_spec tasks_per_heap (ntasks h)) as [Hfull|Hroom].
  - rewrite (proj2 (store_heap_Done _ _ _ _) (conj Hlen eq_refl)).
    cbn [mbind result_bind]. eexists _, _. split; [reflexivity|].
    intros h' Hh'. rewrite Hh in Hh'. injection Hh' as <-. exact Hfull.
  - change {| lock := true; tasks := tasks h; ntasks := ntasks h; heap_prio := heap_prio h |}
      with (set_lock h true).
    destruct (multiq_insert_push_spec (mem s1) (set_lock h true) t) as (hp & Hpush & _).
    { change (shape_ok h). apply (Hall h). eapply list_elem_of_lookup_2, Hh. }
    { exact Hroom. }
    rewrite Hpush. cbn [mbind result_bind].
    rewrite (proj2 (store_heap_Done _ _ _ _) (conj Hlen eq_refl)).
    cbn [mbind result_bind]. eexists _, _. split; [reflexivity|].
    intros h' Hh'. rewrite Hh in Hh'. injection Hh' as <-. exact Hroom.
Qed.

End MultiqSteps.

(** ** The invariants of the shards *)

Lemma key_set_task_tid m t w ts i : key (set_task_tid m t w) ts i = key m ts i.
Proof.
  unfold key. destruct (ts !! Z.to_nat i) as [[q|]|]; try reflexivity.
  unfold set_task_tid. destruct (Pos.eqb q t); reflexivity.
Qed.

Lemma key_set_task_prio m t p ts i :
  prio (m t) = p \/ Some t ∉ ts -> key (set_task_prio m t p) ts i = key m ts i.
Proof.
  intros Hfresh. unfold key. destruct (ts !! Z.to_nat i) as [[q|]|] eqn:Hq; try reflexivity.
  unfold set_task_prio. destruct (Pos.eqb_spec q t) as [->|Hne]; [|reflexivity].
  destruct Hfresh as [Hp|Hnot]; [cbn; congruence|].
  exfalso. apply Hnot. eapply list_elem_of_lookup_2, Hq.
Qed.

Lemma heap_ordered_ext m m' ts n :
  (forall i, key m' ts i = key m ts i) -> heap_ordered m ts n -> heap_ordered m' ts n.
Proof. intros Hk H i Hi. rewrite !Hk. apply H, Hi. Qed.

Lemma cache_ok_ext m m' h :
  (forall i, key m' (tasks h) i = key m (tasks h) i) -> cache_ok m h -> cache_ok m' h.
Proof. unfold cache_ok. intros Hk ->. rewrite Hk. reflexivity. Qed.

(** A shard at rest: its slots in shape, in heap order, its cached priority
    right. *)
Definition shard_ok (m : memory) (h : taskheap_t) : Prop :=
  shape_ok h /\ heap_ordered m (tasks h) (ntasks h) /\ cache_ok m h.

Lemma shard_ok_ext m m' h :
  (forall i, key m' (tasks h) i = key m (tasks h) i) -> shard_ok m h -> shard_ok m' h.
Proof.
  intros Hk (H1 & H2 & H3). split; [exact H1|]. split.
  - eapply heap_ordered_ext; eassumption.
  - eapply cache_ok_ext; eassumption.
Qed.

Lemma elem_of_insert_inv {A} (l : list A) i x y :
  y ∈ <[i := x]> l -> y = x \/ y ∈ l.
Proof.
  intros Hy. apply list_elem_of_lookup in Hy as [j Hj].
  apply list_lookup_insert_Some in Hj as [(_ & -> & _)|[_ Hj]]; [left; reflexivity|].
  right. eapply list_elem_of_lookup_2, Hj.
Qed.

(** The shard that [multiq_insert] leaves, from the shard picked. *)
Lemma pushed_shard m h t hp :
  shape_ok h -> ntasks h < tasks_per_heap ->
  multiq_insert_push m (set_lock h true) t = Done hp ->
  let hn := cache_lowered (set_lock hp false) (prio (m t)) in
  lock hn = false /\ shape_ok hn /\ ntasks hn = ntasks h + 1 /\
  tasks hn ≡ₚ <[Z.to_nat (ntasks h) := Some t]> (tasks h) /\
  heap_prio hn = Z.min (heap_prio h) (prio (m t)) /\
  (heap_ordered m (tasks h) (ntasks h) ->
   heap_ordered m (tasks hn) (ntasks hn) /\
   (cache_ok m h -> prio (m t) <= INT16_MAX -> cache_ok m hn)).
Proof.
  intros Hok Hroom Hpush hn.
  destruct (multiq_insert_push_spec m (set_lock h true) t Hok Hroom)
    as (hp' & Hpush' & Hlock & Hprio & Hn & Hok' & Hperm & Hord).
  rewrite Hpush in Hpush'. injection Hpush' as <-.
  cbn [set_lock lock heap_prio ntasks tasks] in Hlock, Hprio, Hn, Hperm, Hord.
  assert (Hfields : lock hn = false /\ tasks hn = tasks hp /\ ntasks hn = ntasks hp /\
            heap_prio hn = Z.min (heap_prio h) (prio (m t))).
  { unfold hn, cache_lowered. cbn [set_lock heap_prio]. rewrite Hprio.
    destruct (Z.ltb_spec (prio (m t)) (heap_prio h));
      cbn [set_heap_prio set_lock lock tasks ntasks heap_prio];
      (split; [reflexivity|]; split; [reflexivity|]; split; [reflexivity|]); lia. }
  clearbody hn. destruct Hfields as (Hl & Hts & Hnn & Hp).
  split; [exact Hl|]. split; [unfold shape_ok; rewrite Hts, Hnn; exact Hok'|].
  split; [rewrite Hnn; exact Hn|]. split; [rewrite Hts; exact Hperm|].
  split; [exact Hp|].
  intros Hheap. destruct (Hord Hheap) as [Hheap' Hroot].
  split; [rewrite Hts, Hnn; exact Hheap'|].
  intros Hcache Hmax. unfold cache_ok in *. rewrite Hp, Hts, Hnn, Hn, Hroot, Hcache.
  destruct (Hok) as (_ & Hnb & _).
  replace (ntasks h + 1 =? 0) with false by (symmetry; apply Z.eqb_neq; lia).
  destruct (ntasks h =? 0); lia.
Qed.

(** The shard that [multiq_deletemin] leaves, from the shard picked. *)
Lemma popped_shard m h t hp :
  shape_ok h -> tasks h !! 0%nat = Some (Some t) ->
  multiq_deletemin_pop m (set_lock h true) = Done hp ->
  let hn := set_lock hp false in
  lock hn = false /\ shape_ok hn /\ ntasks hn = ntasks h - 1 /\
  Some t :: tasks hn ≡ₚ None :: tasks h /\
  (heap_ordered m (tasks h) (ntasks h) -> heap_ordered m (tasks hn) (ntasks hn)) /\
  cache_ok m hn.
Proof.
  intros Hok Hroot Hpop hn. unfold hn. clear hn.
  assert (Hn : 1 <= ntasks h).
  { assert (0 < ntasks h); [|lia].
    eapply (slot_occupied (tasks h) (ntasks h) 0 t Hok); [unfold tasks_per_heap; lia|].
    exact Hroot. }
  apply multiq_deletemin_pop_spec in Hpop as (Hlock & Hn' & Hok' & Hperm & Hord & Hcache);
    [|exact Hok | exact Hn].
  cbn [set_lock lock heap_prio ntasks tasks] in *.
  split; [reflexivity|]. split; [exact Hok'|]. split; [exact Hn'|].
  split; [apply Hperm, Hroot|]. split; [exact Hord|]. exact Hcache.
Qed.

Section Invariants.
Context {R : Rng}.

(** Every shard that is not locked is in shape and in heap order. *)
Definition heaps_ordered (s : sched) : Prop :=
  forall h, h ∈ heaps s -> lock h = false ->
    shape_ok h /\ heap_ordered (mem s) (tasks h) (ntasks h).

(** Every shard that is not locked is at rest. *)
Definition multiq_ok (s : sched) : Prop :=
  forall h, h ∈ heaps s -> lock h = false -> shard_ok (mem s) h.

(** The task is not in the multi-queue, or has the priority [p] already. *)
Definition insertable (s : sched) (t : ptr) (p : Z) : Prop :=
  prio (mem s t) = p \/ forall h, h ∈ heaps s -> Some t ∉ tasks h.

Lemma insertable_keys s t p h i :
  insertable s t p -> h ∈ heaps s ->
  key (set_task_prio (mem s) t p) (tasks h) i = key (mem s) (tasks h) i.
Proof.
  intros [Hp|Hfresh] Hh; apply key_set_task_prio; [left; exact Hp | right; apply Hfresh, Hh].
Qed.

Lemma set_task_prio_same m t p : prio (set_task_prio m t p t) = p.
Proof. unfold set_task_prio. rewrite Pos.eqb_refl. reflexivity. Qed.

Lemma multiq_insert_preserves (with_cache : bool) fuel s t p s' c :
  insertable s t p -> (with_cache = true -> p <= INT16_MAX) ->
  multiq_insert fuel s t p = Done (s', c) ->
  (forall h, h ∈ heaps s -> lock h = false ->
     shape_ok h /\ heap_ordered (mem s) (tasks h) (ntasks h) /\
     (with_cache = true -> cache_ok (mem s) h)) ->
  forall h, h ∈ heaps s' -> lock h = false ->
     shape_ok h /\ heap_ordered (mem s') (tasks h) (ntasks h) /\
     (with_cache = true -> cache_ok (mem s') h).
Proof.
  intros Hins Hmax H Hinv.
  apply multiq_insert_step in H as (Hm & _ & rn & s1 & h0 & _ & Hh0 & Hlock0 & Hc).
  assert (Hold : forall h, h ∈ heaps s -> lock h = false ->
            shape_ok h /\ heap_ordered (mem s') (tasks h) (ntasks h) /\
            (with_cache = true -> cache_ok (mem s') h)).
  { intros h Hh Hl. destruct (Hinv h Hh Hl) as (H1 & H2 & H3).
    assert (Hk : forall i, key (mem s') (tasks h) i = key (mem s) (tasks h) i)
      by (intros i; rewrite Hm; apply insertable_keys; assumption).
    split; [exact H1|]. split; [eapply heap_ordered_ext; eassumption|].
    intros Hw. eapply cache_ok_ext; [exact Hk | apply H3, Hw]. }
  destruct c as [v|msg].
  - destruct Hc as (_ & Hroom & hp & Hpush & Hheaps).
    intros h Hh Hl. rewrite Hheaps in Hh. apply elem_of_insert_inv in Hh as [->|Hh];
      [|apply Hold; assumption].
    assert (Hin0 : h0 ∈ heaps s) by (eapply list_elem_of_lookup_2, Hh0).
    destruct (Hold h0 Hin0 Hlock0) as (Hok0 & Hheap0 & Hcache0).
    destruct (pushed_shard (mem s') h0 t hp Hok0 Hroom Hpush)
      as (_ & Hok' & _ & _ & _ & Hord).
    destruct (Hord Hheap0) as [Hheap' Hcache'].
    split; [exact Hok'|]. split; [exact Hheap'|].
    intros Hw. apply Hcache'; [apply Hcache0, Hw|].
    rewrite Hm, set_task_prio_same. apply Hmax, Hw.
  - destruct Hc as (_ & _ & Hheaps). rewrite Hheaps. exact Hold.
Qed.

Lemma multiq_deletemin_mem fuel s s' r i h :
  multiq_deletemin fuel s = Done (s', r) ->
  key (mem s') (tasks h) i = key (mem s) (tasks h) i.
Proof.
  intros H. destruct r as [t|].
  - apply multiq_deletemin_owner in H as [[_ ->]|[_ ->]]; [reflexivity|].
    apply key_set_task_tid.
  - cbn. revert s H. induction fuel as [|fuel IH]; intros s H; [discriminate|].
    cbn [multiq_deletemin] in H.
    destruct (multiq_deletemin_probe _ s 0 0) as [[[s1 j] rn1]| |] eqn:Hp;
      cbn [mbind result_bind] in H; try discriminate.
    apply outside_probe in Hp as [_ Hm]. rewrite <- Hm.
    destruct (j =? heap_p s1); [injection H as <-; reflexivity|].
    destruct (load (heaps s1) rn1) as [h1| |]; cbn [mbind result_bind] in H; try discriminate.
    destruct (load (tasks h1) 0) as [[t0|]| |]; cbn [mbind result_bind] in H; try discriminate.
    destruct (if negb (tid (mem s1 t0) =? tls_tid (ptls s1))
              then let '(m, old) := cas_task_tid (mem s1) t0 (-1) (tls_tid (ptls s1)) in
                   (m, negb (old =? -1))
              else (mem s1, false)) as [m' retry] eqn:Hmr.
    assert (Hk : key m' (tasks h) i = key (mem s1) (tasks h) i).
    { destruct (negb _); [|injection Hmr as <- _; reflexivity].
      unfold cas_task_tid in Hmr. destruct (tid (mem s1 t0) =? -1);
        injection Hmr as <- _; [apply key_set_task_tid | reflexivity]. }
    destruct retry.
    + destruct (store_heap _ rn1 _) as [s2| |] eqn:Hs; cbn [mbind result_bind] in H;
        try discriminate.
      apply outside_store_heap in Hs as [_ Hs]. apply IH in H.
      rewrite H, Hs. exact Hk.
    + unfold mbind, result_bind in H. repeat case_match; simplify_eq.
Qed.

Lemma multiq_deletemin_preserves (with_cache : bool) fuel s s' r :
  0 <= heap_p s <= INT16_MAX ->
  multiq_deletemin fuel s = Done (s', r) ->
  (forall h, h ∈ heaps s -> lock h = false ->
     shape_ok h /\ heap_ordered (mem s) (tasks h) (ntasks h) /\
     (with_cache = true -> cache_ok (mem s) h)) ->
  forall h, h ∈ heaps s' -> lock h = false ->
     shape_ok h /\ heap_ordered (mem s') (tasks h) (ntasks h) /\
     (with_cache = true -> cache_ok (mem s') h).
Proof.
  intros Hp H Hinv.
  assert (Hold : forall h, h ∈ heaps s -> lock h = false ->
            shape_ok h /\ heap_ordered (mem s') (tasks h) (ntasks h) /\
            (with_cache = true -> cache_ok (mem s') h)).
  { intros h Hh Hl. destruct (Hinv h Hh Hl) as (H1 & H2 & H3).
    assert (Hk : forall i, key (mem s') (tasks h) i = key (mem s) (tasks h) i)
      by (intros i; eapply multiq_deletemin_mem, H).
    split; [exact H1|]. split; [eapply heap_ordered_ext; eassumption|].
    intros Hw. eapply cache_ok_ext; [exact Hk | apply H3, Hw]. }
  apply multiq_deletemin_step in H; [|exact Hp].
  destruct r as [t|].
  - destruct H as (rn & h0 & hp & Hh0 & Hlock0 & Hroot & _ & Hpop & Hheaps).
    intros h Hh Hl. rewrite Hheaps in Hh. apply elem_of_insert_inv in Hh as [->|Hh];
      [|apply Hold; assumption].
    assert (Hin0 : h0 ∈ heaps s) by (eapply list_elem_of_lookup_2, Hh0).
    destruct (Hold h0 Hin0 Hlock0) as (Hok0 & Hheap0 & _).
    destruct (popped_shard (mem s') h0 t hp Hok0 Hroot Hpop)
      as (_ & Hok' & _ & _ & Hord & Hcache).
    split; [exact Hok'|]. split; [apply Hord, Hheap0|]. intros _. exact Hcache.
  - destruct H as [Hheaps _]. rewrite Hheaps. exact Hold.
Qed.


(** C2: when every shard at rest is in heap order, it still is after
    [multiq_insert] (append, then [sift_up]) and after [multiq_deletemin]
    (last task to the root, one task less, then [sift_down], which goes on
    with the next child after sifting one down) have returned; and on such a
    shard the append with its [sift_up] returns whenever there is room, and
    the pop with its [sift_down] returns as long as no child index leaves the
    range of [int16_t], that is up to 4097 tasks. *)
Theorem heap_order_preserved (s : sched) :
  0 <= heap_p s <= INT16_MAX -> heaps_ordered s ->
  (forall fuel t p s' c,
     insertable s t p -> multiq_insert fuel s t p = Done (s', c) -> heaps_ordered s') /\
  (forall fuel s' r,
     multiq_deletemin fuel s = Done (s', r) -> heaps_ordered s') /\
  (forall h, h ∈ heaps s -> lock h = false ->
     (forall m t, ntasks h < tasks_per_heap ->
        exists h', multiq_insert_push m h t = Done h' /\ ntasks h' = ntasks h + 1) /\
     (1 <= ntasks h <= 4097 ->
        exists h', multiq_deletemin_pop (mem s) h = Done h' /\ ntasks h' = ntasks h - 1)).
Proof.
  intros Hp Hinv.
  assert (Hinv' : forall h, h ∈ heaps s -> lock h = false ->
            shape_ok h /\ heap_ordered (mem s) (tasks h) (ntasks h) /\
            (false = true -> cache_ok (mem s) h)).
  { intros h Hh Hl. destruct (Hinv h Hh Hl) as [H1 H2]. split; [exact H1|].
    split; [exact H2 | discriminate]. }
  split; [|split].
  - intros fuel t p s' c Hins H h Hh Hl.
    destruct (multiq_insert_preserves false fuel s t p s' c Hins ltac:(discriminate) H Hinv' h Hh Hl)
      as (H1 & H2 & _). auto.
  - intros fuel s' r H h Hh Hl.
    destruct (multiq_deletemin_preserves false fuel s s' r Hp H Hinv' h Hh Hl)
      as (H1 & H2 & _). auto.
  - intros h Hh Hl. destruct (Hinv h Hh Hl) as [Hok _]. split.
    + intros m t Hroom.
      destruct (multiq_insert_push_spec m h t Hok Hroom) as (h' & Hpush & _ & _ & Hn & _).
      eauto.
    + intros Hn. destruct (multiq_deletemin_pop_returns (mem s) h Hok Hn) as [h' Hpop].
      exists h'. split; [exact Hpop|].
      apply multiq_deletemin_pop_spec in Hpop as (_ & Hn' & _); [exact Hn' | exact Hok | lia].
Qed.

(** The cached priority with one caller at a time: when every shard at
    rest is in shape, in heap order, and has the priority of its root as
    cached priority, or [INT16_MAX] when it holds no task, then so it is
    after a [multiq_insert] and after a [multiq_deletemin] that ran with no
    other call in between their steps.  With two callers the last step of
    [multiq_insert] breaks it, as the last section of the file shows. *)
Theorem min_prio_cached (s : sched) :
  0 <= heap_p s <= INT16_MAX -> multiq_ok s ->
  (forall fuel t p s' c,
     insertable s t p -> p <= INT16_MAX ->
     multiq_insert fuel s t p = Done (s', c) ->
     multiq_ok s' /\
     forall h, h ∈ heaps s' -> lock h = false ->
       heap_prio h = if ntasks h =? 0 then INT16_MAX else key (mem s') (tasks h) 0) /\
  (forall fuel s' r,
     multiq_deletemin fuel s = Done (s', r) ->
     multiq_ok s' /\
     forall h, h ∈ heaps s' -> lock h = false ->
       heap_prio h = if ntasks h =? 0 then INT16_MAX else key (mem s') (tasks h) 0).
Proof.
  intros Hp Hinv.
  assert (Hinv' : forall h, h ∈ heaps s -> lock h = false ->
            shape_ok h /\ heap_ordered (mem s) (tasks h) (ntasks h) /\
            (true = true -> cache_ok (mem s) h)).
  { intros h Hh Hl. destruct (Hinv h Hh Hl) as (H1 & H2 & H3). auto. }
  assert (Hgoal : forall s',
    (forall h, h ∈ heaps s' -> lock h = false ->
       shape_ok h /\ heap_ordered (mem s') (tasks h) (ntasks h) /\
       (true = true -> cache_ok (mem s') h)) ->
    multiq_ok s' /\
    forall h, h ∈ heaps s' -> lock h = false ->
      heap_prio h = if ntasks h =? 0 then INT16_MAX else key (mem s') (tasks h) 0).
  { intros s' H'. split.
    - intros h Hh Hl. destruct (H' h Hh Hl) as (H1 & H2 & H3).
      split; [exact H1|]. split; [exact H2 | apply H3; reflexivity].
    - intros h Hh Hl. destruct (H' h Hh Hl) as (_ & _ & H3). apply H3. reflexivity. }
  split.
  - intros fuel t p s' c Hins Hmax H. apply Hgoal.
    apply (multiq_insert_preserves true fuel s t p s' c Hins (fun _ => Hmax) H Hinv').
  - intros fuel s' r H. apply Hgoal.
    apply (multiq_deletemin_preserves true fuel s s' r Hp H Hinv').
Qed.

(** C4: with no shard locked, [multiq_insert] into a shard (the one the
    generator draws) that holds fewer than [tasks_per_heap] tasks returns 0
    and leaves it with one task more, at most [tasks_per_heap]; into a shard
    that holds [tasks_per_heap] tasks it raises its error and leaves every
    shard as it was, the full one with its [tasks_per_heap] tasks in heap
    order. *)
Theorem multiq_insert_capacity (fuel : nat) (s : sched) (t : ptr) (p : Z) :
  heaps_allocated s -> 0 < heap_p s ->
  (forall h, h ∈ heaps s -> lock h = false) ->
  heaps_ordered s -> insertable s t p ->
  exists h, heaps s !! Z.to_nat (fst (draw s)) = Some h /\
    (ntasks h < tasks_per_heap ->
     exists s' h',
       multiq_insert (S fuel) s t p = Done (s', Returned 0) /\
       heaps s' = <[Z.to_nat (fst (draw s)) := h']> (heaps s) /\
       ntasks h' = ntasks h + 1 /\ ntasks h' <= tasks_per_heap) /\
    (ntasks h = tasks_per_heap ->
     exists s',
       multiq_insert (S fuel) s t p =
         Done (s', Raised "multiq insertion failed, increase #tasks per heap") /\
       heaps s' = heaps s /\ ntasks h = tasks_per_heap /\
       shape_ok h /\ heap_ordered (mem s') (tasks h) (ntasks h)).
Proof.
  intros Halloc Hp Hunl Hinv Hins.
  destruct (multiq_insert_returns fuel s t p Halloc Hp) as (s' & c & Hrun & Hkind).
  { intros h Hh. split; [apply Hunl, Hh|]. apply Hinv; [exact Hh | apply Hunl, Hh]. }
  pose proof Hrun as Hstep.
  apply multiq_insert_step in Hstep as (Hm & _ & rn & s1 & h & Hpick & Hh & Hlock & Hc).
  destruct (multiq_insert_pick_unlocked fuel (set_mem s (set_task_prio (mem s) t p)))
    as [s1' Hpick']; [exact Halloc | exact Hp | exact Hunl |].
  rewrite Hpick in Hpick'. injection Hpick' as _ ->.
  rewrite draw_fst_set_mem in *.
  exists h. split; [exact Hh|].
  assert (Hin : h ∈ heaps s) by (eapply list_elem_of_lookup_2, Hh).
  destruct (Hinv h Hin Hlock) as [Hok Hheap].
  specialize (Hkind h Hh).
  split.
  - intros Hroom. destruct c as [v|msg]; [|lia].
    destruct Hc as (-> & _ & hp & Hpush & Hheaps).
    destruct (pushed_shard (mem s') h t hp Hok Hroom Hpush) as (_ & _ & Hn & _).
    eexists s', _. split; [exact Hrun|]. split; [exact Hheaps|]. split; [exact Hn|]. lia.
  - intros Hfull. destruct c as [v|msg]; [lia|].
    destruct Hc as (-> & _ & Hheaps).
    exists s'. split; [exact Hrun|]. split; [exact Hheaps|]. split; [exact Hfull|].
    split; [exact Hok|].
    eapply heap_ordered_ext; [|exact Hheap].
    intros i. rewrite Hm. apply insertable_keys; assumption.
Qed.

End Invariants.

(** ** Inserting and extracting in sequence *)

Section RoundTrip.
Context {R : Rng}.

Lemma heaps_allocated_draw s rn s' :
  draw s = (rn, s') -> heaps_allocated s -> heaps_allocated s'.
Proof.
  intros Hd. unfold heaps_allocated.
  rewrite (heaps_draw_eq _ _ _ Hd), (heap_p_draw_eq _ _ _ Hd). auto.
Qed.

(** The probing loop of [multiq_deletemin] returns. *)
Lemma probe_returns n s i rn1 :
  heaps_allocated s -> 0 <= i -> i + Z.of_nat n = heap_p s ->
  exists s' i' rn1', multiq_deletemin_probe n s i rn1 = Done (s', i', rn1').
Proof.
  revert s i rn1. induction n as [|n IH]; intros s i rn1 Halloc Hi Hn.
  - simpl. replace (i <? heap_p s) with false by (symmetry; apply Z.ltb_ge; lia). eauto.
  - cbn [multiq_deletemin_probe].
    replace (i <? heap_p s) with true by (symmetry; apply Z.ltb_lt; lia).
    assert (Hp : 0 < heap_p s) by lia.
    destruct (load_drawn s Halloc Hp) as (h1 & Hl1 & _).
    destruct (draw s) as [r1 s1] eqn:Hd1. cbn [fst] in Hl1.
    pose proof (heaps_allocated_draw _ _ _ Hd1 Halloc) as Halloc1.
    assert (Hp1 : 0 < heap_p s1) by (rewrite (heap_p_draw_eq _ _ _ Hd1); exact Hp).
    destruct (load_drawn s1 Halloc1 Hp1) as (h2 & Hl2 & _).
    destruct (draw s1) as [r2 s2] eqn:Hd2. cbn [fst] in Hl2.
    pose proof (heaps_allocated_draw _ _ _ Hd2 Halloc1) as Halloc2.
    pose proof (heaps_draw_eq _ _ _ Hd1) as Hh1. pose proof (heaps_draw_eq _ _ _ Hd2) as Hh2.
    rewrite <- Hh1, <- Hh2 in Hl1. rewrite <- Hh2 in Hl2.
    rewrite Hl1, Hl2. cbn [mbind result_bind].
    assert (Hnext : int16 (i + 1) = i + 1).
    { destruct Halloc as [Hb _]. apply int16_id.
      unfold in_int16, INT16_MIN, INT16_MAX in *. lia. }
    rewrite Hnext.
    assert (Hcont : forall rn, exists s' i' rn1',
              multiq_deletemin_probe n s2 (i + 1) rn = Done (s', i', rn1')).
    { intros rn. apply IH; [exact Halloc2 | lia |].
      rewrite (heap_p_draw_eq _ _ _ Hd2), (heap_p_draw_eq _ _ _ Hd1). lia. }
    assert (Hbreak : forall rn h prio1, load (heaps s2) rn = Done h ->
      exists s' i' rn1',
        (load (heaps s2) rn ≫= fun h =>
           if lock h then multiq_deletemin_probe n s2 (i + 1) rn
           else if prio1 =? heap_prio h then
             store_heap s2 rn (set_lock h true) ≫= fun s => Done (s, i, rn)
           else multiq_deletemin_probe n s2 (i + 1) rn) = Done (s', i', rn1')).
    { intros rn h prio1 Hl. rewrite Hl. cbn [mbind result_bind].
      destruct (lock h); [apply Hcont|]. destruct (prio1 =? heap_prio h); [|apply Hcont].
      apply load_Done in Hl as [Hrn Hl]. apply lookup_lt_Some in Hl.
      assert (Hlen : 0 <= rn < Z.of_nat (length (heaps s2))) by lia.
      rewrite (proj2 (store_heap_Done _ _ _ _) (conj Hlen eq_refl)).
      cbn [mbind result_bind]. eauto. }
    destruct (heap_prio h2 <? heap_prio h1); [eapply Hbreak, Hl2|].
    destruct ((heap_prio h1 =? heap_prio h2) && (heap_prio h1 =? INT16_MAX));
      [apply Hcont | eapply Hbreak, Hl1].
Qed.

(** A multi-queue that one caller has to itself: no shard is locked, the
    shards are in shape with at most [k] tasks each, an empty shard has
    [INT16_MAX] as cached priority and no cached priority is above it, and
    the tasks enqueued have a priority of [int16_t] and are unowned or owned
    by the caller. *)
Definition quiet (s : sched) (k : Z) : Prop :=
  heaps_allocated s /\
  forall h, h ∈ heaps s ->
    lock h = false /\ shape_ok h /\ ntasks h <= k /\
    heap_prio h <= INT16_MAX /\ (ntasks h = 0 -> heap_prio h = INT16_MAX) /\
    forall t, Some t ∈ tasks h ->
      prio (mem s t) <= INT16_MAX /\
      (tid (mem s t) = tls_tid (ptls s) \/ tid (mem s t) = -1).

(** [multiq_deletemin] returns in a quiet multi-queue whose shards hold at
    most 4097 tasks. *)
Lemma multiq_deletemin_returns fuel s k :
  quiet s k -> k <= 4097 ->
  exists s' r, multiq_deletemin (S fuel) s = Done (s', r).
Proof.
  intros [Halloc Hq] Hk. cbn [multiq_deletemin].
  destruct (probe_returns (Z.to_nat (heap_p s)) s 0 0 Halloc) as (s1 & i & rn1 & Hprobe);
    [lia | destruct Halloc; lia |].
  rewrite Hprobe. cbn [mbind result_bind].
  pose proof (outside_probe _ _ _ _ _ _ _ Hprobe) as [Ho Hm].
  apply probe_heaps in Hprobe; [|destruct Halloc; lia | destruct Halloc; lia].
  rewrite (outside_heap_p _ _ Ho).
  destruct Hprobe as [[-> Hheaps]|(Hi & Hrn & h & Hh & Hlock & Hheaps & Hprio)].
  - rewrite Z.eqb_refl. eauto.
  - replace (i =? heap_p s) with false by (symmetry; apply Z.eqb_neq; lia).
    assert (Hl : load (heaps s1) rn1 = Done (set_lock h true)).
    { apply load_Done. split; [exact Hrn|]. rewrite Hheaps.
      apply list_lookup_insert_eq. eapply lookup_lt_Some, Hh. }
    rewrite Hl. cbn [mbind result_bind]. cbn [set_lock tasks].
    assert (Hin : h ∈ heaps s) by (eapply list_elem_of_lookup_2, Hh).
    destruct (Hq h Hin) as (_ & Hok & Hnk & Hmax & Hempty & Htasks).
    assert (Hn : 1 <= ntasks h).
    { destruct Hok as (_ & Hnb & _). destruct (Z.eq_dec (ntasks h) 0) as [Hz|Hz]; [|lia].
      exfalso. destruct Hprio as [Hne|(h2 & Hin2 & Hgt)].
      - apply Hne, Hempty, Hz.
      - destruct (Hq h2 Hin2) as (_ & _ & _ & Hmax2 & _). lia. }
    pose proof Hok as (Hlen & _ & Hocc & _).
    destruct (Hocc 0) as [t Ht]; [lia|].
    assert (Hroot : load (tasks h) 0 = Done (Some t)) by (apply load_Done; split; [lia|exact Ht]).
    rewrite Hroot. cbn [mbind result_bind].
    destruct (Htasks t) as [_ Htid]; [eapply list_elem_of_lookup_2, Ht|].
    rewrite <- Hm, <- (outside_tid _ _ Ho) in Htid.
    assert (Hmr : exists m',
      (if negb (tid (mem s1 t) =? tls_tid (ptls s1))
       then let '(m, old) := cas_task_tid (mem s1) t (-1) (tls_tid (ptls s1)) in
            (m, negb (old =? -1))
       else (mem s1, false)) = (m', false)).
    { destruct (Z.eqb_spec (tid (mem s1 t)) (tls_tid (ptls s1))) as [Heq|Hne]; cbn [negb]; [eauto|].
      destruct Htid as [Htid|Htid]; [contradiction|].
      unfold cas_task_tid. rewrite Htid. cbn. eauto. }
    destruct Hmr as [m' ->].
    destruct (multiq_deletemin_pop_returns (mem (set_mem s1 m')) (set_lock h true)) as [hp Hpop];
      [exact Hok | cbn [set_lock ntasks]; lia |].
    rewrite Hpop. cbn [mbind result_bind].
    assert (Hlen1 : 0 <= rn1 < Z.of_nat (length (heaps (set_mem s1 m')))).
    { cbn [set_mem heaps]. rewrite Hheaps, length_insert. apply lookup_lt_Some in Hh. lia. }
    rewrite (proj2 (store_heap_Done _ _ _ _) (conj Hlen1 eq_refl)).
    cbn [mbind result_bind]. eauto.
Qed.


(** The tasks enqueued, shard by shard. *)
Definition enqueued (s : sched) : list ptr := concat (map contents (heaps s)).

Lemma concat_map_insert_add {A B} (f : A -> list B) (l : list A) i x y b :
  l !! i = Some x -> f y ≡ₚ b :: f x ->
  concat (map f (<[i := y]> l)) ≡ₚ b :: concat (map f l).
Proof.
  revert i. induction l as [|a l IH]; intros [|i] Hx Hf; try discriminate.
  - injection Hx as ->. cbn. rewrite Hf. reflexivity.
  - cbn in Hx. cbn [insert list_insert map concat].
    change (f a ++ concat (map f (<[i := y]> l)) ≡ₚ b :: f a ++ concat (map f l)).
    rewrite (IH i Hx Hf). symmetry. apply Permutation_middle.
Qed.

Lemma concat_map_insert_remove {A B} (f : A -> list B) (l : list A) i x y b :
  l !! i = Some x -> b :: f y ≡ₚ f x ->
  b :: concat (map f (<[i := y]> l)) ≡ₚ concat (map f l).
Proof.
  revert i. induction l as [|a l IH]; intros [|i] Hx Hf; try discriminate.
  - injection Hx as ->. cbn. rewrite <- Hf. reflexivity.
  - cbn in Hx. cbn [insert list_insert map concat].
    change (b :: f a ++ concat (map f (<[i := y]> l)) ≡ₚ f a ++ concat (map f l)).
    rewrite <- (IH i Hx Hf). apply Permutation_middle.
Qed.

Lemma contents_pushed (ts ts' : list (option ptr)) n t :
  ts !! n = Some None -> ts' ≡ₚ <[n := Some t]> ts ->
  omap id ts' ≡ₚ t :: omap id ts.
Proof.
  intros Hn Hperm. rewrite Hperm.
  pose proof (insert_Permutation_cons ts n None (Some t) Hn) as H.
  apply (omap_Permutation id) in H. exact H.
Qed.

Lemma contents_popped (ts ts' : list (option ptr)) t :
  Some t :: ts' ≡ₚ None :: ts -> t :: omap id ts' ≡ₚ omap id ts.
Proof. intros H. apply (omap_Permutation id) in H. exact H. Qed.

Lemma contents_empty h : shape_ok h -> ntasks h = 0 -> contents h = [].
Proof.
  intros (Hlen & _ & _ & Hfree) Hn. unfold contents.
  assert (Hnone : forall x, x ∈ tasks h -> x = None).
  { intros x Hx. apply list_elem_of_lookup in Hx as [i Hi].
    pose proof (lookup_lt_Some _ _ _ Hi) as Hlt.
    specialize (Hfree (Z.of_nat i) ltac:(lia)). rewrite Nat2Z.id in Hfree. congruence. }
  clear Hlen Hfree. revert Hnone. generalize (tasks h). intros ts.
  induction ts as [|x ts IH]; intros Hnone; [reflexivity|].
  rewrite (Hnone x) by (apply elem_of_cons; left; reflexivity). cbn. apply IH.
  intros y Hy. apply Hnone. apply elem_of_cons. right. exact Hy.
Qed.

Lemma tid_set_task_prio m t p q : tid (set_task_prio m t p q) = tid (m q).
Proof. unfold set_task_prio. destruct (Pos.eqb q t); reflexivity. Qed.

Lemma prio_set_task_prio m t p q :
  prio (m q) <= INT16_MAX -> p <= INT16_MAX -> prio (set_task_prio m t p q) <= INT16_MAX.
Proof. unfold set_task_prio. destruct (Pos.eqb q t); cbn; auto. Qed.

Lemma prio_set_task_tid m t w q : prio (set_task_tid m t w q) = prio (m q).
Proof. unfold set_task_tid. destruct (Pos.eqb q t); reflexivity. Qed.

(** An insertion into a quiet multi-queue with room returns 0 and adds the
    task. *)
Lemma multiq_insert_quiet fuel s k t p :
  quiet s k -> 0 < heap_p s -> k < tasks_per_heap -> p <= INT16_MAX ->
  tid (mem s t) = tls_tid (ptls s) \/ tid (mem s t) = -1 ->
  exists s',
    multiq_insert (S fuel) s t p = Done (s', Returned 0) /\
    quiet s' (k + 1) /\ enqueued s' ≡ₚ t :: enqueued s /\
    outside s' = outside s /\ (forall q, tid (mem s' q) = tid (mem s q)).
Proof.
  intros [Halloc Hq] Hp Hk Hmax Htid.
  destruct (multiq_insert_returns fuel s t p Halloc Hp) as (s' & c & Hrun & _).
  { intros h Hh. destruct (Hq h Hh) as (H1 & H2 & _). auto. }
  pose proof Hrun as Hstep.
  apply multiq_insert_step in Hstep as (Hm & Ho & rn & s1 & h & _ & Hh & Hlock & Hc).
  assert (Hin : h ∈ heaps s) by (eapply list_elem_of_lookup_2, Hh).
  destruct (Hq h Hin) as (_ & Hok & Hnk & Hpmax & _ & Htasks).
  destruct c as [v|msg]; [|destruct Hc as (_ & Hfull & _); lia].
  destruct Hc as (-> & Hroom & hp & Hpush & Hheaps).
  destruct (pushed_shard (mem s') h t hp Hok Hroom Hpush)
    as (Hl' & Hok' & Hn' & Hperm' & Hprio' & _).
  set (hn := cache_lowered (set_lock hp false) (prio (mem s' t))) in *.
  assert (Htids : forall q, tid (mem s' q) = tid (mem s q))
    by (intros q; rewrite Hm; apply tid_set_task_prio).
  exists s'. split; [exact Hrun|]. split; [|split; [|split; [exact Ho | exact Htids]]].
  - split.
    + unfold heaps_allocated. rewrite (outside_heap_p _ _ Ho), Hheaps, length_insert.
      exact Halloc.
    + assert (Hmem : forall q, prio (mem s q) <= INT16_MAX -> prio (mem s' q) <= INT16_MAX)
        by (intros q Hq'; rewrite Hm; apply prio_set_task_prio; assumption).
      intros h' Hh'. rewrite Hheaps in Hh'. apply elem_of_insert_inv in Hh' as [->|Hh'].
      * split; [exact Hl'|]. split; [exact Hok'|]. split; [lia|]. split; [lia|].
        split; [destruct Hok as (_ & Hnb & _); lia|].
        intros t' Ht'. rewrite Hperm' in Ht'. rewrite (outside_tid _ _ Ho), Htids.
        apply list_elem_of_lookup in Ht' as [j Hj].
        apply list_lookup_insert_Some in Hj as [(_ & [= <-] & _)|[_ Hj]].
        -- split; [|exact Htid]. rewrite Hm, set_task_prio_same. exact Hmax.
        -- destruct (Htasks t') as [H1 H2]; [eapply list_elem_of_lookup_2, Hj|]. auto.
      * destruct (Hq h' Hh') as (H1 & H2 & H3 & H4 & H5 & H6).
        split; [exact H1|]. split; [exact H2|]. split; [lia|]. split; [exact H4|].
        split; [exact H5|]. intros t' Ht'. rewrite (outside_tid _ _ Ho), Htids.
        destruct (H6 t' Ht') as [H7 H8]. auto.
  - unfold enqueued. rewrite Hheaps.
    apply (concat_map_insert_add contents (heaps s) (Z.to_nat rn) h hn t Hh).
    unfold contents. eapply contents_pushed; [|exact Hperm'].
    destruct Hok as (_ & Hnb & _ & Hfree). apply Hfree. lia.
Qed.

(** An extraction from a quiet multi-queue returns, and what it returns it
    has taken out of the multi-queue. *)
Lemma multiq_deletemin_quiet fuel s k :
  quiet s k -> k <= 4097 ->
  exists s' r,
    multiq_deletemin (S fuel) s = Done (s', r) /\
    quiet s' k /\
    match r with
    | Some t => t :: enqueued s' ≡ₚ enqueued s
    | None => enqueued s' = enqueued s
    end.
Proof.
  intros Hquiet Hk. destruct (multiq_deletemin_returns fuel s k Hquiet Hk) as (s' & r & Hrun).
  exists s', r. split; [exact Hrun|].
  destruct Hquiet as [Halloc Hq].
  pose proof (outside_multiq_deletemin _ _ _ _ Hrun) as Ho.
  pose proof Hrun as Hstep.
  apply multiq_deletemin_step in Hstep; [|destruct Halloc; lia].
  assert (Hold : forall m', (forall q, prio (m' q) = prio (mem s q)) ->
            (forall q, tid (m' q) = tid (mem s q) \/ tid (m' q) = tls_tid (ptls s)) ->
            forall h, h ∈ heaps s ->
              lock h = false /\ shape_ok h /\ ntasks h <= k /\
              heap_prio h <= INT16_MAX /\ (ntasks h = 0 -> heap_prio h = INT16_MAX) /\
              forall t, Some t ∈ tasks h ->
                prio (m' t) <= INT16_MAX /\
                (tid (m' t) = tls_tid (ptls s) \/ tid (m' t) = -1)).
  { intros m' Hprio Htid h Hh. destruct (Hq h Hh) as (H1 & H2 & H3 & H4 & H5 & H6).
    repeat (split; [assumption|]). intros t Ht. destruct (H6 t Ht) as [H7 H8].
    rewrite Hprio. split; [exact H7|]. destruct (Htid t) as [->| ->]; auto. }
  destruct r as [t|].
  - destruct Hstep as (rn & h & hp & Hh & Hlock & Hroot & _ & Hpop & Hheaps).
    assert (Hin : h ∈ heaps s) by (eapply list_elem_of_lookup_2, Hh).
    destruct (Hq h Hin) as (_ & Hok & Hnk & _ & _ & Htasks).
    destruct (popped_shard (mem s') h t hp Hok Hroot Hpop)
      as (Hl' & Hok' & Hn' & Hperm' & _ & Hcache').
    set (hn := set_lock hp false) in *.
    assert (Hmem : (forall q, prio (mem s' q) = prio (mem s q)) /\
                   (forall q, tid (mem s' q) = tid (mem s q) \/
                              tid (mem s' q) = tls_tid (ptls s))).
    { apply multiq_deletemin_owner in Hrun as [[_ ->]|[_ ->]]; [auto|].
      split; [intros q; apply prio_set_task_tid|].
      intros q. unfold set_task_tid. destruct (Pos.eqb q t); cbn; auto. }
    destruct Hmem as [Hprio Htid].
    assert (Hsub : forall t', Some t' ∈ tasks hn -> Some t' ∈ tasks h).
    { intros t' Ht'. assert (Hin' : Some t' ∈ Some t :: tasks hn) by (right; exact Ht').
      rewrite Hperm' in Hin'. apply elem_of_cons in Hin' as [Hin'|Hin']; [discriminate|exact Hin']. }
    split; [split|].
    + unfold heaps_allocated. rewrite (outside_heap_p _ _ Ho), Hheaps, length_insert.
      exact Halloc.
    + intros h' Hh'. rewrite (outside_tid _ _ Ho).
      rewrite Hheaps in Hh'. apply elem_of_insert_inv in Hh' as [->|Hh'];
        [|apply Hold; assumption].
      assert (Hts : forall t', Some t' ∈ tasks hn ->
                prio (mem s' t') <= INT16_MAX /\
                (tid (mem s' t') = tls_tid (ptls s) \/ tid (mem s' t') = -1)).
      { intros t' Ht'. destruct (Htasks t' (Hsub t' Ht')) as [H7 H8].
        rewrite Hprio. split; [exact H7|]. destruct (Htid t') as [->| ->]; auto. }
      split; [exact Hl'|]. split; [exact Hok'|]. split; [lia|].
      unfold cache_ok in Hcache'. rewrite Hcache'.
      destruct (Z.eqb_spec (ntasks hn) 0) as [Hz|Hz].
      * split; [lia|]. split; [reflexivity | exact Hts].
      * split; [|split; [contradiction | exact Hts]].
        destruct Hok' as (_ & Hnb & Hocc & _).
        destruct (Hocc 0) as [r0 Hr0]; [lia|].
        unfold key. rewrite Hr0. apply Hts. eapply list_elem_of_lookup_2, Hr0.
    + unfold enqueued. rewrite Hheaps.
      apply (concat_map_insert_remove contents (heaps s) rn h hn t Hh).
      unfold contents. apply contents_popped, Hperm'.
  - destruct Hstep as [Hheaps Hm]. split; [split|].
    + unfold heaps_allocated. rewrite (outside_heap_p _ _ Ho), Hheaps. exact Halloc.
    + rewrite Hheaps, (outside_tid _ _ Ho), Hm. exact Hq.
    + unfold enqueued. rewrite Hheaps. reflexivity.
Qed.


(** [multiq_insert] on the tasks of [l] in turn, each with its priority; an
    error raised ends the run. *)
Fixpoint insert_all (fuel : nat) (s : sched) (l : list (ptr * Z))
  : result (sched * completion unit) :=
  match l with
  | [] => Done (s, Returned tt)
  | (t, p) :: l =>
    '(s, c) ← multiq_insert fuel s t p;
    match c with
    | Returned _ => insert_all fuel s l
    | Raised msg => Done (s, Raised msg)
    end
  end.

(** [n] calls of [multiq_deletemin], with what they returned. *)
Fixpoint extract_n (fuel : nat) (n : nat) (s : sched)
  : result (sched * list (option ptr)) :=
  match n with
  | O => Done (s, [])
  | S n =>
    '(s, r) ← multiq_deletemin fuel s;
    '(s, rs) ← extract_n fuel n s;
    Done (s, r :: rs)
  end.

Lemma insert_all_quiet fuel l : forall s k,
  quiet s k -> 0 < heap_p s -> k + Z.of_nat (length l) <= tasks_per_heap ->
  (forall t p, (t, p) ∈ l ->
     p <= INT16_MAX /\ (tid (mem s t) = tls_tid (ptls s) \/ tid (mem s t) = -1)) ->
  exists s',
    insert_all (S fuel) s l = Done (s', Returned tt) /\
    quiet s' (k + Z.of_nat (length l)) /\
    enqueued s' ≡ₚ map fst l ++ enqueued s.
Proof.
  induction l as [|[t p] l IH]; intros s k Hq Hp Hk Hl.
  - exists s. split; [reflexivity|]. split; [|reflexivity].
    replace (k + Z.of_nat (length (@nil (ptr * Z)))) with k by (cbn; lia). exact Hq.
  - cbn [length] in Hk. cbn [insert_all].
    destruct (Hl t p) as [Hmax Htid]; [left|].
    destruct (multiq_insert_quiet fuel s k t p Hq Hp ltac:(lia) Hmax Htid)
      as (s1 & Hrun & Hq1 & Hperm1 & Ho1 & Htid1).
    rewrite Hrun. cbn [mbind result_bind].
    destruct (IH s1 (k + 1)) as (s' & Hrun' & Hq' & Hperm').
    + exact Hq1.
    + rewrite (outside_heap_p _ _ Ho1). exact Hp.
    + lia.
    + intros t' p' Hin. destruct (Hl t' p') as [H1 H2]; [right; exact Hin|].
      rewrite (outside_tid _ _ Ho1), Htid1. auto.
    + exists s'. split; [exact Hrun'|]. split.
      * replace (k + Z.of_nat (length ((t, p) :: l))) with (k + 1 + Z.of_nat (length l))
          by (cbn [length]; lia). exact Hq'.
      * rewrite Hperm', Hperm1. cbn [map fst]. symmetry. apply Permutation_middle.
Qed.

Lemma extract_n_quiet fuel n : forall s k,
  quiet s k -> k <= 4097 ->
  exists s' out,
    extract_n (S fuel) n s = Done (s', out) /\ length out = n /\
    quiet s' k /\ omap id out ++ enqueued s' ≡ₚ enqueued s.
Proof.
  induction n as [|n IH]; intros s k Hq Hk.
  - exists s, []. split; [reflexivity|]. split; [reflexivity|]. split; [exact Hq | reflexivity].
  - cbn [extract_n].
    destruct (multiq_deletemin_quiet fuel s k Hq Hk) as (s1 & r & Hrun & Hq1 & Hperm1).
    rewrite Hrun. cbn [mbind result_bind].
    destruct (IH s1 k Hq1 Hk) as (s' & out & Hrun' & Hlen & Hq' & Hperm').
    rewrite Hrun'. cbn [mbind result_bind].
    exists s', (r :: out). split; [reflexivity|]. split; [cbn; lia|]. split; [exact Hq'|].
    destruct r as [t|]; cbn [omap id].
    + change (t :: omap id out ++ enqueued s' ≡ₚ enqueued s).
      rewrite Hperm', <- Hperm1. reflexivity.
    + change (omap id out ++ enqueued s' ≡ₚ enqueued s). rewrite Hperm', Hperm1. reflexivity.
Qed.

Lemma enqueued_empty s : quiet s 0 -> enqueued s = [].
Proof.
  intros [_ Hq]. unfold enqueued.
  assert (Hall : forall h, h ∈ heaps s -> contents h = []).
  { intros h Hh. destruct (Hq h Hh) as (_ & Hok & Hn & _).
    apply contents_empty; [exact Hok|]. destruct Hok as (_ & Hnb & _). lia. }
  revert Hall. generalize (heaps s). intros hs. induction hs as [|h hs IH]; intros Hall;
    [reflexivity|].
  cbn. rewrite (Hall h) by (apply elem_of_cons; left; reflexivity). cbn. apply IH.
  intros h' Hh'. apply Hall. apply elem_of_cons. right. exact Hh'.
Qed.

(** C9, as the code has it: after inserting the tasks of [l], at most 4096
    of them, unowned or owned by the caller, into an empty multi-queue that
    the caller has to itself, and calling [multiq_deletemin] as many times,
    every call has returned, and the tasks returned together with the tasks
    still in the multi-queue are the tasks inserted: nothing is lost, nothing
    is returned twice or made up.  Some calls may have returned [NULL]. *)
Theorem insert_extract_conserves (fuel : nat) (s : sched) (l : list (ptr * Z)) :
  quiet s 0 -> 0 < heap_p s -> Z.of_nat (length l) <= 4096 ->
  (forall t p, (t, p) ∈ l ->
     p <= INT16_MAX /\ (tid (mem s t) = tls_tid (ptls s) \/ tid (mem s t) = -1)) ->
  exists s1 s2 out,
    insert_all (S fuel) s l = Done (s1, Returned tt) /\
    extract_n (S fuel) (length l) s1 = Done (s2, out) /\
    length out = length l /\
    omap id out ++ enqueued s2 ≡ₚ map fst l.
Proof.
  intros Hq Hp Hlen Hl.
  destruct (insert_all_quiet fuel l s 0 Hq Hp) as (s1 & Hins & Hq1 & Hperm1);
    [unfold tasks_per_heap; lia | exact Hl |].
  destruct (extract_n_quiet fuel (length l) s1 _ Hq1) as (s2 & out & Hext & Hlen' & _ & Hperm2);
    [lia|].
  exists s1, s2, out. split; [exact Hins|]. split; [exact Hext|]. split; [exact Hlen'|].
  rewrite Hperm2, Hperm1, (enqueued_empty s Hq), app_nil_r. reflexivity.
Qed.

End RoundTrip.

(** ** The multi-queue after initialisation *)

Lemma empty_heap_shape : shape_ok empty_heap.
Proof.
  unfold shape_ok, slots_ok, empty_heap. cbn [tasks ntasks].
  split; [rewrite length_replicate; unfold tasks_per_heap; lia|].
  split; [unfold tasks_per_heap; lia|]. split; [intros i Hi; lia|].
  intros i Hi. apply lookup_replicate_2. lia.
Qed.

Lemma empty_heap_no_task t : Some t ∉ tasks empty_heap.
Proof. intros H. apply elem_of_replicate_inv in H. discriminate. Qed.

Lemma empty_heap_ok m : shard_ok m empty_heap.
Proof.
  split; [exact empty_heap_shape|]. split.
  - intros i Hi. cbn [empty_heap ntasks] in Hi. lia.
  - reflexivity.
Qed.

Section InitFacts.
Context {R : Rng}.

Lemma multiq_init_heaps s h : h ∈ heaps (multiq_init s) -> h = empty_heap.
Proof. cbn [multiq_init heaps]. apply elem_of_replicate_inv. Qed.

Lemma multiq_init_allocated s :
  0 <= heap_c * jl_n_threads s <= INT16_MAX -> heaps_allocated (multiq_init s).
Proof.
  intros Hn. unfold heaps_allocated. cbn [multiq_init heaps heap_p].
  rewrite int16_id by (unfold in_int16, INT16_MIN, INT16_MAX in *; lia).
  rewrite length_replicate. lia.
Qed.

Lemma multiq_init_ok s : multiq_ok (multiq_init s).
Proof. intros h Hh _. rewrite (multiq_init_heaps s h Hh). apply empty_heap_ok. Qed.

Lemma multiq_init_ordered s : heaps_ordered (multiq_init s).
Proof.
  intros h Hh Hl. destruct (multiq_init_ok s h Hh Hl) as (H1 & H2 & _). auto.
Qed.

Lemma multiq_init_quiet s :
  0 <= heap_c * jl_n_threads s <= INT16_MAX -> quiet (multiq_init s) 0.
Proof.
  intros Hn. split; [apply multiq_init_allocated, Hn|].
  intros h Hh. rewrite (multiq_init_heaps s h Hh).
  split; [reflexivity|]. split; [exact empty_heap_shape|].
  split; [cbn; lia|]. split; [cbn; lia|]. split; [reflexivity|].
  intros t Ht. exfalso. exact (empty_heap_no_task t Ht).
Qed.

End InitFacts.

(** ** Concrete runs

    The states below are built with the replaying generator and, where the
    acquisition loop is run, the replaying environment. *)

Section Run.

#[local] Existing Instance replay_rng.
#[local] Existing Instance replay_env.

(** Every task unowned, task number [t] with priority [t]. *)
Definition unowned : memory := fun t => {| prio := Z.pos t; tid := -1 |}.

(** The state before initialisation: [n] threads, the caller [self], the
    numbers the generator will draw. *)
Definition boot (m : memory) (n self : Z) (seed : list Z) : sched :=
  {| mem := m; heaps := []; heap_p := 0; cong_unbias := 0;
     all_sleep_states := []; sleep_check_state := not_sleeping;
     sleep_threshold := 0; jl_n_threads := n;
     jl_uv_mutex := None; jl_uv_n_waiters := 0;
     ptls := {| tls_tid := self; rngseed := seed |}; trace := [] |}.

(** One thread, hence four shards, all empty. *)
Definition fresh (seed : list Z) : sched := multiq_init (boot unowned 1 0 seed).

Lemma fresh_allocated seed : heaps_allocated (fresh seed).
Proof. apply multiq_init_allocated. unfold heap_c, INT16_MAX. cbn. lia. Qed.

Lemma fresh_heap_p seed : 0 < heap_p (fresh seed).
Proof. reflexivity. Qed.

Lemma fresh_unlocked seed h : h ∈ heaps (fresh seed) -> lock h = false.
Proof. intros Hh. rewrite (multiq_init_heaps _ h Hh). reflexivity. Qed.

Lemma fresh_insertable seed t p : insertable (fresh seed) t p.
Proof.
  right. intros h Hh. rewrite (multiq_init_heaps _ h Hh). apply empty_heap_no_task.
Qed.


(** *** An empty multi-queue (C5, C7) *)

Lemma multiq_deletemin_all_empty_witness :
  heaps_allocated (fresh [1; 2; 3; 0]) /\
  (forall h, h ∈ heaps (fresh [1; 2; 3; 0]) -> ntasks h = 0 /\ heap_prio h = INT16_MAX) /\
  multiq_deletemin 1 (fresh [1; 2; 3; 0]) = Done (draws 8 (fresh [1; 2; 3; 0]), None) /\
  heaps (draws 8 (fresh [1; 2; 3; 0])) = heaps (fresh [1; 2; 3; 0]).
Proof.
  assert (H1 : heaps_allocated (fresh [1; 2; 3; 0])) by apply fresh_allocated.
  assert (H2 : forall h, h ∈ heaps (fresh [1; 2; 3; 0]) ->
                 ntasks h = 0 /\ heap_prio h = INT16_MAX).
  { intros h Hh. rewrite (multiq_init_heaps _ h Hh). split; reflexivity. }
  split; [exact H1|]. split; [exact H2|].
  exact (multiq_deletemin_all_empty 0 (fresh [1; 2; 3; 0]) H1 H2).
Defined.

Lemma sleep_check_now_active_witness :
  heaps_allocated (fresh []) /\ sleep_check_state (fresh []) = not_sleeping /\
  exists s', sleep_check_now 1 (fresh []) = Done (s', 1) /\ sleep_check_state s' = sleeping.
Proof.
  assert (H1 : heaps_allocated (fresh [])) by apply fresh_allocated.
  split; [exact H1|]. split; [reflexivity|].
  destruct (sleep_check_now_active 0 (fresh []) H1 eq_refl)
    as (s' & r & Hrun & _ & Hiff & Hyes & _).
  assert (Hr : r = 1).
  { apply Hiff. intros h Hh. rewrite (multiq_init_heaps _ h Hh). reflexivity. }
  exists s'. rewrite Hr in Hrun. split; [exact Hrun | exact (Hyes Hr)].
Defined.

(** *** Waking (C8) *)

(** Two workers, the caller is worker 0, the controller is sleeping. *)
Definition parked : sched :=
  {| mem := unowned; heaps := []; heap_p := 0; cong_unbias := 0;
     all_sleep_states := [Some {| sleep_lock := false |}; Some {| sleep_lock := false |}];
     sleep_check_state := sleeping; sleep_threshold := 1000; jl_n_threads := 2;
     jl_uv_mutex := None; jl_uv_n_waiters := 0;
     ptls := {| tls_tid := 0; rngseed := [] |}; trace := [] |}.

Lemma parked_ready : park_slots_ready parked.
Proof.
  split; [cbn; unfold INT16_MAX; lia|]. cbn. intros w Hw Hne.
  assert (w = 1) as -> by lia. reflexivity.
Qed.

Lemma parked_wakeup :
  jl_wakeup_thread parked 1 =
  Done (emit (emit (set_sleep_check_state parked not_sleeping) (UvCondSignal 1)) JlWakeLibuv).
Proof. reflexivity. Qed.

(** The claim as stated fails here: worker 1 is woken by worker 0 while the
    controller is sleeping, and the park slot of worker 0 is not
    signalled. *)
Lemma jl_wakeup_thread_skips_caller :
  ~ (forall s', jl_wakeup_thread parked 1 = Done s' ->
       sleep_check_state s' = not_sleeping /\
       (sleep_check_state parked = checking_for_sleeping \/
        sleep_check_state parked = sleeping ->
        forall w, 0 <= w < jl_n_threads parked -> UvCondSignal w ∈ trace s')).
Proof.
  intros H. destruct (H _ parked_wakeup) as [_ Hall].
  specialize (Hall (or_intror eq_refl) 0 ltac:(cbn; lia)).
  cbn in Hall. apply elem_of_cons in Hall as [Hall|Hall]; [discriminate|].
  apply elem_of_cons in Hall as [Hall|Hall]; [discriminate|].
  apply elem_of_nil in Hall. exact Hall.
Qed.

Lemma jl_wakeup_thread_signals_witness :
  park_slots_ready parked /\ 1 <> tls_tid (ptls parked) /\
  exists s', jl_wakeup_thread parked 1 = Done s' /\
    sleep_check_state s' = not_sleeping /\
    UvCondSignal 1 ∈ trace s' /\ UvCondSignal 0 ∉ trace s'.
Proof.
  assert (H2 : 1 <> tls_tid (ptls parked)) by (cbn; lia).
  split; [exact parked_ready|]. split; [exact H2|].
  destruct (jl_wakeup_thread_signals parked 1 parked_ready H2)
    as (s' & new & Hrun & Htrace & Hst & Hsig & Hself & _).
  exists s'. split; [exact Hrun|]. split; [exact Hst|].
  change (trace parked) with (@nil event) in Htrace. rewrite app_nil_r in Htrace.
  rewrite Htrace. split; [|exact Hself].
  apply Hsig; cbn; unfold not_sleeping, sleeping; lia.
Defined.

(** *** The sticky hook (C1) *)

(** Every task owned by worker 3. *)
Definition owned_by_3 : memory := fun t => {| prio := 0; tid := 3 |}.

Definition hook_answers (l : list (option ptr)) : replay_env_t :=
  {| sticky_answers := l; clock_readings := []; wait_returns := [] |}.

Lemma get_next_task_sticky_foreign_witness :
  jl_apply_getsticky (hook_answers [Some 1%positive]) = (Some 1%positive, hook_answers []) /\
  tid (mem (boot owned_by_3 8 5 []) 1%positive) <> tls_tid (ptls (boot owned_by_3 8 5 [])) /\
  tid (mem (boot owned_by_3 8 5 []) 1%positive) <> -1 /\
  exists s',
    get_next_task 1 (hook_answers [Some 1%positive]) (boot owned_by_3 8 5 []) =
      Done (s', hook_answers [], Some 1%positive) /\
    tid (mem s' 1%positive) = 3 /\ tls_tid (ptls s') = 5.
Proof.
  assert (H1 : jl_apply_getsticky (hook_answers [Some 1%positive]) =
               (Some 1%positive, hook_answers [])) by reflexivity.
  assert (H2 : tid (mem (boot owned_by_3 8 5 []) 1%positive) <>
               tls_tid (ptls (boot owned_by_3 8 5 []))) by (cbn; lia).
  assert (H3 : tid (mem (boot owned_by_3 8 5 []) 1%positive) <> -1) by (cbn; lia).
  split; [exact H1|]. split; [exact H2|]. split; [exact H3|].
  destruct (get_next_task_sticky_foreign 1 _ _ (boot owned_by_3 8 5 []) 1%positive H1 H2 H3)
    as (s' & Hrun & Hself & Htid & _).
  exists s'. split; [exact Hrun|]. split; [exact Htid | exact Hself].
Defined.

(** *** Parking disabled (C6) *)

Lemma sleep_threshold_infinite_witness :
  lower "Infinite" = "infinite"%string /\ 0 < jl_n_threads (boot unowned 1 0 []) /\
  exists s0,
    jl_init_threadinginfra (boot unowned 1 0 []) (Some "Infinite"%string) = Done s0 /\
    sleep_threshold s0 = 0 /\
    forall k e s' e' r,
      jl_task_get_next_turns k 1 e s0 0 0 = Done (s', e', r) -> no_new_wait s0 s'.
Proof.
  assert (H1 : lower "Infinite" = "infinite"%string) by reflexivity.
  assert (H2 : 0 < jl_n_threads (boot unowned 1 0 [])) by (cbn; lia).
  split; [exact H1|]. split; [exact H2|].
  destruct (sleep_threshold_infinite_disables_parking (boot unowned 1 0 []) "Infinite" H1 H2)
    as (s0 & Hinit & Hth & Hall).
  exists s0. split; [exact Hinit|]. split; [exact Hth|].
  intros k e s' e' r Hrun.
  destruct (Hall s0 eq_refl) as (_ & Hturns & _).
  exact (proj2 (Hturns k 1%nat e 0 0 s' e' r Hrun)).
Defined.


(** *** One task inserted (C10) *)

(** Task 1 inserted with priority 5; the generator draws shard 3 and has
    nothing left but zeros. *)
Definition one_task : sched :=
  match multiq_insert 1 (fresh [3]) 1%positive 5 with
  | Done (s, _) => s
  | _ => fresh [3]
  end.

Lemma one_task_run :
  multiq_insert 1 (fresh [3]) 1%positive 5 = Done (one_task, Returned 0).
Proof. vm_compute. reflexivity. Qed.

Lemma fresh_heap_p_range seed : 0 <= heap_p (fresh seed) <= INT16_MAX.
Proof. split; discriminate. Qed.

Lemma min_prio_cached_witness :
  0 <= heap_p (fresh [3]) <= INT16_MAX /\ multiq_ok (fresh [3]) /\
  multiq_ok one_task /\
  forall h, h ∈ heaps one_task -> lock h = false ->
    heap_prio h = if ntasks h =? 0 then INT16_MAX else key (mem one_task) (tasks h) 0.
Proof.
  assert (H1 : 0 <= heap_p (fresh [3]) <= INT16_MAX) by apply fresh_heap_p_range.
  assert (H2 : multiq_ok (fresh [3])) by apply multiq_init_ok.
  split; [exact H1|]. split; [exact H2|].
  destruct (min_prio_cached (fresh [3]) H1 H2) as (Hins & _).
  exact (Hins 1%nat 1%positive 5 one_task (Returned 0) (fresh_insertable [3] _ _)
           ltac:(discriminate) one_task_run).
Defined.

Lemma one_task_ok : multiq_ok one_task.
Proof.
  intros h Hh Hl.
  destruct (multiq_insert_preserves true 1 (fresh [3]) 1%positive 5 one_task (Returned 0)
              (fresh_insertable [3] _ _) (fun _ => ltac:(discriminate)) one_task_run)
    with (h := h) as (H1 & H2 & H3); [|exact Hh|exact Hl|].
  - intros h' Hh' Hl'. destruct (multiq_init_ok _ h' Hh' Hl') as (H1 & H2 & H3). auto.
  - split; [exact H1|]. split; [exact H2 | apply H3; reflexivity].
Qed.

(** C10: [multiq_deletemin] may return [NULL] on a multi-queue that is not
    empty.  The multi-queue [one_task] is at rest and holds a task in its
    shard 3; the eight draws of the four probes all name shard 0, which is
    empty; [multiq_deletemin] returns [NULL] and leaves the shards as they
    were. *)
Theorem multiq_deletemin_none_not_empty :
  exists s : sched,
    multiq_ok s /\ heaps_allocated s /\
    (exists h, h ∈ heaps s /\ 0 < ntasks h) /\
    (forall k : nat, (k < 2 * Z.to_nat (heap_p s))%nat ->
       exists h, load (heaps s) (fst (draw (draws k s))) = Done h /\ ntasks h = 0) /\
    exists s', multiq_deletemin 1 s = Done (s', None) /\ heaps s' = heaps s.
Proof.
  exists one_task. split; [exact one_task_ok|]. split; [|split; [|split]].
  - vm_compute. repeat split; discriminate.
  - eexists. split.
    + apply (list_elem_of_lookup_2 _ 3%nat). vm_compute. reflexivity.
    + reflexivity.
  - intros k Hk. change (2 * Z.to_nat (heap_p one_task))%nat with 8%nat in Hk.
    do 8 (destruct k as [|k]; [eexists; split; vm_compute; reflexivity|]). lia.
  - eexists. split; vm_compute; reflexivity.
Qed.

(** *** A full shard (C4) *)

(** Every task unowned and of priority 0. *)
Definition level : memory := fun _ => {| prio := 0; tid := -1 |}.

(** A shard whose [n] first slots hold the tasks 1 to [n]. *)
Definition filled (n : nat) : taskheap_t :=
  {| lock := false;
     tasks := ((fun i => Some (Pos.of_nat (S i))) <$> seq 0 n) ++
              replicate (Z.to_nat tasks_per_heap - n) None;
     ntasks := Z.of_nat n;
     heap_prio := 0 |}.

Lemma filled_shape n : (n <= Z.to_nat tasks_per_heap)%nat -> shape_ok (filled n).
Proof.
  intros Hn. unfold shape_ok, slots_ok, filled, tasks_per_heap in *. cbn [tasks ntasks].
  split; [rewrite length_app, length_fmap, length_seq, length_replicate; lia|].
  split; [lia|]. split.
  - intros i Hi. exists (Pos.of_nat (S (Z.to_nat i))).
    rewrite lookup_app_l by (rewrite length_fmap, length_seq; lia).
    rewrite list_lookup_fmap, lookup_seq_lt by lia. reflexivity.
  - intros i Hi.
    rewrite lookup_app_r by (rewrite length_fmap, length_seq; lia).
    rewrite length_fmap, length_seq. apply lookup_replicate_2. lia.
Qed.

Lemma level_key ts i : key level ts i = 0.
Proof. unfold key. destruct (ts !! Z.to_nat i) as [[t|]|]; reflexivity. Qed.

(** One shard, full. *)
Definition full : sched :=
  {| mem := level; heaps := [filled (Z.to_nat tasks_per_heap)]; heap_p := 1;
     cong_unbias := 0; all_sleep_states := []; sleep_check_state := not_sleeping;
     sleep_threshold := 0; jl_n_threads := 1; jl_uv_mutex := None; jl_uv_n_waiters := 0;
     ptls := {| tls_tid := 0; rngseed := [] |}; trace := [] |}.

Lemma full_shard h : h ∈ heaps full -> h = filled (Z.to_nat tasks_per_heap).
Proof. intros Hh. apply list_elem_of_singleton in Hh. exact Hh. Qed.

Lemma multiq_insert_capacity_witness :
  heaps_allocated full /\ 0 < heap_p full /\
  (forall h, h ∈ heaps full -> lock h = false) /\
  heaps_ordered full /\ insertable full 9000%positive 0 /\
  exists s',
    multiq_insert 1 full 9000%positive 0 =
      Done (s', Raised "multiq insertion failed, increase #tasks per heap") /\
    heaps s' = heaps full.
Proof.
  assert (H1 : heaps_allocated full) by (split; [split; discriminate | reflexivity]).
  assert (H2 : 0 < heap_p full) by reflexivity.
  assert (H3 : forall h, h ∈ heaps full -> lock h = false).
  { intros h Hh. rewrite (full_shard h Hh). reflexivity. }
  assert (H4 : heaps_ordered full).
  { intros h Hh _. rewrite (full_shard h Hh). split; [apply filled_shape; lia|].
    intros i Hi. rewrite !level_key. lia. }
  assert (H5 : insertable full 9000%positive 0) by (left; reflexivity).
  split; [exact H1|]. split; [exact H2|]. split; [exact H3|]. split; [exact H4|].
  split; [exact H5|].
  destruct (multiq_insert_capacity 0 full 9000%positive 0 H1 H2 H3 H4 H5)
    as (h & Hh & _ & Hfull).
  assert (Hhf : h = filled (Z.to_nat tasks_per_heap)).
  { apply full_shard. eapply list_elem_of_lookup_2, Hh. }
  destruct Hfull as (s' & Hrun & Hheaps & _); [rewrite Hhf; reflexivity|].
  exists s'. split; [exact Hrun | exact Hheaps].
Defined.

(** *** Inserting and extracting (C9) *)

(** The claim as stated fails here: one task is inserted, it lands in shard
    3; the one extraction that follows probes shard 0 only and returns
    [NULL]. *)
Lemma insert_extract_loses_task :
  exists s1 s2,
    insert_all 1 (fresh [3]) [(1%positive, 5)] = Done (s1, Returned tt) /\
    extract_n 1 1 s1 = Done (s2, [None]) /\
    ~ (omap id [@None ptr] ≡ₚ map fst [(1%positive, 5)]).
Proof.
  eexists _, _. split; [vm_compute; reflexivity|]. split; [vm_compute; reflexivity|].
  cbn. intros H. apply Permutation_length in H. discriminate H.
Qed.

Definition four_tasks : list (ptr * Z) :=
  [(1%positive, 5); (2%positive, 1); (3%positive, 9); (4%positive, 3)].

Lemma insert_extract_conserves_witness :
  quiet (fresh [2; 0; 2; 1; 2; 0; 1; 1; 3; 2]) 0 /\
  0 < heap_p (fresh [2; 0; 2; 1; 2; 0; 1; 1; 3; 2]) /\
  Z.of_nat (length four_tasks) <= 4096 /\
  (forall t p, (t, p) ∈ four_tasks ->
     p <= INT16_MAX /\
     (tid (mem (fresh [2; 0; 2; 1; 2; 0; 1; 1; 3; 2]) t) =
        tls_tid (ptls (fresh [2; 0; 2; 1; 2; 0; 1; 1; 3; 2])) \/
      tid (mem (fresh [2; 0; 2; 1; 2; 0; 1; 1; 3; 2]) t) = -1)) /\
  exists s1 s2 out,
    insert_all 1 (fresh [2; 0; 2; 1; 2; 0; 1; 1; 3; 2]) four_tasks = Done (s1, Returned tt) /\
    extract_n 1 4 s1 = Done (s2, out) /\
    omap id out ++ enqueued s2 ≡ₚ map fst four_tasks.
Proof.
  set (s := fresh [2; 0; 2; 1; 2; 0; 1; 1; 3; 2]).
  assert (H1 : quiet s 0) by (apply multiq_init_quiet; split; discriminate).
  assert (H2 : 0 < heap_p s) by reflexivity.
  assert (H3 : Z.of_nat (length four_tasks) <= 4096) by discriminate.
  assert (H4 : forall t p, (t, p) ∈ four_tasks ->
            p <= INT16_MAX /\ (tid (mem s t) = tls_tid (ptls s) \/ tid (mem s t) = -1)).
  { intros t p Hin. split; [|right; reflexivity].
    unfold four_tasks in Hin.
    repeat (apply elem_of_cons in Hin as [[= _ ->]|Hin]; [discriminate|]).
    apply elem_of_nil in Hin. contradiction. }
  split; [exact H1|]. split; [exact H2|]. split; [exact H3|]. split; [exact H4|].
  destruct (insert_extract_conserves 0 s four_tasks H1 H2 H3 H4)
    as (s1 & s2 & out & Hins & Hext & _ & Hperm).
  exists s1, s2, out. auto.
Defined.

(** *** A shard beyond 4097 tasks

    The limit of 4097 tasks on the pop is met: on a shard in shape and in
    heap order that holds 4683 tasks, task [i + 1] of priority [i] in slot
    [i], the pop moves the last task to the root and sifts it down through
    slots 1, 9, 73 and 585 to slot 4681, where [heap_d * idx + 1] is 37449;
    as an [int16_t] that is -28087, and the slot read is outside the
    array. *)

Definition by_slot : memory := fun t => {| prio := Z.pos t - 1; tid := -1 |}.

Lemma by_slot_key n i :
  0 <= i < Z.of_nat n -> key by_slot (tasks (filled n)) i = i.
Proof.
  intros Hi. unfold key, filled. cbn [tasks].
  rewrite lookup_app_l by (rewrite length_fmap, length_seq; lia).
  rewrite list_lookup_fmap, lookup_seq_lt by lia. cbn. lia.
Qed.

Lemma filled_ordered n : heap_ordered by_slot (tasks (filled n)) (ntasks (filled n)).
Proof.
  intros i Hi. cbn [filled ntasks] in Hi.
  pose proof (parent_bounds i ltac:(lia)) as Hb. unfold heap_d in Hb.
  rewrite !by_slot_key by lia. lia.
Qed.

Lemma multiq_deletemin_pop_overflow :
  shape_ok (filled 4683) /\
  heap_ordered by_slot (tasks (filled 4683)) (ntasks (filled 4683)) /\
  multiq_deletemin_pop by_slot (filled 4683) = Fault.
Proof.
  split; [apply filled_shape; vm_compute; lia|]. split; [apply filled_ordered|].
  vm_compute. reflexivity.
Qed.

End Run.

(** * The rest of the file *)

(** ** Marking the enqueued tasks *)

Section Marking.
Context {R : Rng}.

(** The inner loop of [jl_gc_mark_enqueued_tasks] over the slots of a
    shard, entered at [j].  The collector's [jl_gc_mark_queue_obj_explicit]
    is not part of this file: [marked] lists the objects it has been called
    with, first to last, a [NULL] slot included as [None]. *)
Fixpoint mark_tasks_from (n : nat) (h : taskheap_t) (j : Z) (marked : list (option ptr))
  : result (list (option ptr)) :=
  if j <? ntasks h then
    match n with
    | O => Timeout
    | S n =>
      obj ← load (tasks h) j;
      mark_tasks_from n h (int16 (j + 1)) (marked ++ [obj])
    end
  else Done marked.

(** The outer loop over the shards, entered at [i]. *)
Fixpoint mark_heaps_from (n : nat) (s : sched) (i : Z) (marked : list (option ptr))
  : result (list (option ptr)) :=
  if i <? heap_p s then
    match n with
    | O => Timeout
    | S n =>
      h ← load (heaps s) i;
      marked ← mark_tasks_from (Z.to_nat (ntasks h)) h 0 marked;
      mark_heaps_from n s (int16 (i + 1)) marked
    end
  else Done marked.

(** [jl_gc_mark_enqueued_tasks(gc_cache, sp)]: the objects queued for
    marking. *)
Definition jl_gc_mark_enqueued_tasks (s : sched) : result (list (option ptr)) :=
  mark_heaps_from (Z.to_nat (heap_p s)) s 0 [].

(** ** Starting a thread *)

(** The lines of [jl_threadfun] that set up the sleep mechanism of the
    thread that starts, [all_sleep_states[ptls->tid] = on] for a new park
    slot [on]; the caller is the new thread. *)
Definition jl_threadfun_sleep_setup (s : sched) : result sched :=
  slots ← store (all_sleep_states s) (tls_tid (ptls s)) (Some {| sleep_lock := false |});
  Done (set_all_sleep_states s slots).

(** The state as thread [w] finds it: [jl_get_ptls_states()] is its own. *)
Definition on_thread (s : sched) (w : Z) : sched :=
  {| mem := mem s; heaps := heaps s; heap_p := heap_p s; cong_unbias := cong_unbias s;
     all_sleep_states := all_sleep_states s; sleep_check_state := sleep_check_state s;
     sleep_threshold := sleep_threshold s; jl_n_threads := jl_n_threads s;
     jl_uv_mutex := jl_uv_mutex s; jl_uv_n_waiters := jl_uv_n_waiters s;
     ptls := {| tls_tid := w; rngseed := rngseed (ptls s) |}; trace := trace s |}.

(** The threads [w], [w + 1], ... ([n] of them) start one after the
    other. *)
Fixpoint start_threads (n : nat) (s : sched) (w : Z) : result sched :=
  match n with
  | O => Done s
  | S n =>
    s ← jl_threadfun_sleep_setup (on_thread s w);
    start_threads n s (w + 1)
  end.

End Marking.

(** * The sifts on their own *)

Section SiftFacts.
Variable m : memory.

(** X1: [sift_up] on slot [idx] of a shard in shape whose heap order may
    fail between [idx] and its parent only returns; it leaves the lock, the
    count and the cached priority alone, rearranges the same tasks and
    leaves them in heap order, the root being the lesser of the old root
    and the task that was at [idx]. *)
Theorem sift_up_restores_order (h : taskheap_t) (idx : Z) :
  shape_ok h -> 0 <= idx < ntasks h ->
  (forall i, 0 < i < ntasks h -> i <> idx ->
     key m (tasks h) (parent i) <= key m (tasks h) i) ->
  (forall c, 0 < c < ntasks h -> parent c = idx -> 0 < idx ->
     key m (tasks h) (parent idx) <= key m (tasks h) c) ->
  exists h',
    sift_up m h idx = Done h' /\
    lock h' = lock h /\ ntasks h' = ntasks h /\ heap_prio h' = heap_prio h /\
    shape_ok h' /\ tasks h' ≡ₚ tasks h /\
    heap_ordered m (tasks h') (ntasks h') /\
    key m (tasks h') 0 = Z.min (key m (tasks h) 0) (key m (tasks h) idx).
Proof.
  intros Hok Hidx Hord Hkids.
  destruct (sift_up_spec m h idx Hok Hidx) as (h' & Hrun & Hh' & Hshape & Hperm & Hpost).
  destruct (Hpost Hord Hkids) as [Hordered Hroot].
  exists h'. split; [exact Hrun|]. rewrite Hh'. cbn [set_tasks lock ntasks heap_prio tasks].
  split; [reflexivity|]. split; [reflexivity|]. split; [reflexivity|].
  split; [exact Hshape|]. split; [exact Hperm|]. split; [exact Hordered | exact Hroot].
Qed.

(** X2: [sift_down] on slot [idx] of a shard in shape that holds at most
    4096 tasks and is in heap order below [idx] returns; it leaves the lock,
    the count and the cached priority alone, rearranges the same tasks,
    does not touch the slots before [idx], and leaves the heap order
    holding from [idx] down. *)
Theorem sift_down_restores_order (h : taskheap_t) (idx : Z) :
  shape_ok h -> ntasks h <= 4096 -> 0 <= idx ->
  (forall i, 0 < i < ntasks h -> idx < parent i ->
     key m (tasks h) (parent i) <= key m (tasks h) i) ->
  exists h',
    sift_down m h idx = Done h' /\
    lock h' = lock h /\ ntasks h' = ntasks h /\ heap_prio h' = heap_prio h /\
    shape_ok h' /\ tasks h' ≡ₚ tasks h /\
    (forall i, 0 <= i < idx -> tasks h' !! Z.to_nat i = tasks h !! Z.to_nat i) /\
    (forall i, 0 < i < ntasks h -> idx <= parent i ->
       key m (tasks h') (parent i) <= key m (tasks h') i).
Proof.
  intros Hok Hn Hidx Hord.
  destruct (sift_down_returns m h idx Hok Hn Hidx) as [h' Hrun].
  exists h'. split; [exact Hrun|].
  rewrite sift_down_unfold in Hrun.
  apply (proj1 (sift_down_rec_spec m sift_down_fuel)) in Hrun
    as (Hh' & Hshape & Hperm & Hframe & _ & Hpost); [|exact Hok | exact Hidx].
  rewrite Hh'. cbn [set_tasks lock ntasks heap_prio tasks].
  split; [reflexivity|]. split; [reflexivity|]. split; [reflexivity|].
  split; [exact Hshape|]. split; [exact Hperm|]. split.
  - intros i Hi. apply Hframe; lia.
  - apply Hpost; [exact Hord|].
    intros c Hc _ Hpar. pose proof (parent_bounds c ltac:(lia)) as Hb. lia.
Qed.

Lemma sift_down_rec_overflow (fuel : nat) (h : taskheap_t) (idx : Z) :
  4096 <= idx < ntasks h -> idx < tasks_per_heap ->
  int16 (heap_d * idx + 1) < 0 /\ sift_down_rec (S (S fuel)) m h idx = Fault.
Proof.
  intros Hidx Hmax. unfold tasks_per_heap in Hmax.
  assert (Hneg : int16 (heap_d * idx + 1) < 0) by (unfold int16, heap_d; zlia).
  split; [exact Hneg|].
  cbn [sift_down_rec].
  replace (idx <? ntasks h) with true by (symmetry; apply Z.ltb_lt; lia).
  cbn [sift_down_children].
  replace (int16 (heap_d * idx + 1) <? tasks_per_heap) with true
    by (symmetry; apply Z.ltb_lt; unfold tasks_per_heap; lia).
  replace (int16 (heap_d * idx + 1) <=? heap_d * idx + heap_d) with true
    by (symmetry; apply Z.leb_le; unfold heap_d in *; lia).
  rewrite (load_negative (tasks h) _ Hneg). reflexivity.
Qed.

(** X3: the child index [heap_d * idx + 1] of [sift_down] is an [int16_t]:
    on a slot [idx] from 4096 on that holds a task it is negative, and the
    first slot the loop reads is outside the array. *)
Theorem sift_down_child_index_overflow (h : taskheap_t) (idx : Z) :
  4096 <= idx < ntasks h -> idx < tasks_per_heap ->
  int16 (heap_d * idx + 1) < 0 /\ sift_down m h idx = Fault.
Proof.
  intros Hidx Hmax. rewrite sift_down_unfold.
  exact (sift_down_rec_overflow 62 h idx Hidx Hmax).
Qed.

End SiftFacts.

(** * More on the multi-queue *)

Section MultiqMore.
Context {R : Rng}.

(** X4: [multiq_init], for a number of threads whose four-fold fits an
    [int16_t], leaves [heap_c * jl_n_threads] shards, each unlocked, with
    [tasks_per_heap] empty slots, no task and [INT16_MAX] as cached
    priority; the shards are at rest, no task is enqueued, and the task
    store, the controller and the trace are as before. *)
Theorem multiq_init_empty (s : sched) :
  0 <= heap_c * jl_n_threads s <= INT16_MAX ->
  heap_p (multiq_init s) = heap_c * jl_n_threads s /\
  Z.of_nat (length (heaps (multiq_init s))) = heap_c * jl_n_threads s /\
  (forall h, h ∈ heaps (multiq_init s) ->
     lock h = false /\ ntasks h = 0 /\ heap_prio h = INT16_MAX /\
     tasks h = replicate (Z.to_nat tasks_per_heap) None) /\
  multiq_ok (multiq_init s) /\ enqueued (multiq_init s) = [] /\
  mem (multiq_init s) = mem s /\
  sleep_check_state (multiq_init s) = sleep_check_state s /\
  trace (multiq_init s) = trace s.
Proof.
  intros Hn. pose proof (multiq_init_allocated s Hn) as [_ Hlen].
  assert (Hp : heap_p (multiq_init s) = heap_c * jl_n_threads s).
  { cbn [multiq_init heap_p]. apply int16_id.
    unfold in_int16, INT16_MIN, INT16_MAX in *. lia. }
  split; [exact Hp|]. split; [rewrite Hlen; exact Hp|]. split.
  { intros h Hh. rewrite (multiq_init_heaps s h Hh). repeat split. }
  split; [apply multiq_init_ok|].
  split; [apply enqueued_empty, multiq_init_quiet, Hn|]. repeat split.
Qed.

(** X5: whenever [multiq_insert] returns, with 0 or with the error of a full
    shard, the priority given is recorded on the task; the owner of the
    task, the other tasks, the controller, the park slots and the trace are
    as they were. *)
Theorem multiq_insert_records_priority (fuel : nat) (s s' : sched) (t : ptr) (p : Z)
    (c : completion Z) :
  multiq_insert fuel s t p = Done (s', c) ->
  prio (mem s' t) = p /\
  (forall q, tid (mem s' q) = tid (mem s q)) /\
  (forall q, q <> t -> mem s' q = mem s q) /\
  sleep_check_state s' = sleep_check_state s /\
  all_sleep_states s' = all_sleep_states s /\
  trace s' = trace s.
Proof.
  intros H. apply multiq_insert_step in H as (Hm & Ho & _).
  rewrite Hm. split; [apply set_task_prio_same|].
  split; [intros q; apply tid_set_task_prio|]. split.
  - intros q Hq. unfold set_task_prio.
    destruct (Pos.eqb_spec q t) as [Heq|_]; [contradiction | reflexivity].
  - unfold outside in Ho. injection Ho as _ _ H1 H2 _ _ _ _ _ H3. auto.
Qed.

(** X6: in a multi-queue the caller has to itself, whose shards hold at
    most [k] tasks with [k] below [tasks_per_heap], [multiq_insert] of a
    task that is unowned or the caller's returns 0, and the tasks enqueued
    afterwards are the task and the tasks enqueued before. *)
Theorem multiq_insert_enqueues (fuel : nat) (s : sched) (k : Z) (t : ptr) (p : Z) :
  quiet s k -> 0 < heap_p s -> k < tasks_per_heap -> p <= INT16_MAX ->
  tid (mem s t) = tls_tid (ptls s) \/ tid (mem s t) = -1 ->
  exists s',
    multiq_insert (S fuel) s t p = Done (s', Returned 0) /\
    enqueued s' ≡ₚ t :: enqueued s /\ quiet s' (k + 1).
Proof.
  intros Hq Hp Hk Hmax Htid.
  destruct (multiq_insert_quiet fuel s k t p Hq Hp Hk Hmax Htid)
    as (s' & Hrun & Hq' & Hperm & _).
  exists s'. auto.
Qed.

Lemma multiq_insert_pick_all_locked (fuel : nat) (s : sched) :
  heaps_allocated s -> 0 < heap_p s ->
  (forall h, h ∈ heaps s -> lock h = true) ->
  multiq_insert_pick fuel s = Timeout.
Proof.
  revert s. induction fuel as [|fuel IH]; intros s Halloc Hp Hlocked; [reflexivity|].
  cbn [multiq_insert_pick].
  destruct (load_drawn s Halloc Hp) as (h & Hl & Hin).
  destruct (draw s) as [r s0] eqn:Hd. cbn [fst] in Hl.
  rewrite (heaps_draw_eq _ _ _ Hd), Hl. cbn [mbind result_bind].
  rewrite (Hlocked h Hin). apply IH.
  - eapply heaps_allocated_draw; eassumption.
  - rewrite (heap_p_draw_eq _ _ _ Hd). exact Hp.
  - rewrite (heaps_draw_eq _ _ _ Hd). exact Hlocked.
Qed.

(** X7: [multiq_insert] has no bound on the shards it tries: while every
    shard is locked by other threads it goes on drawing, and does not
    return however long it runs. *)
Theorem multiq_insert_all_locked_spins (fuel : nat) (s : sched) (t : ptr) (p : Z) :
  heaps_allocated s -> 0 < heap_p s ->
  (forall h, h ∈ heaps s -> lock h = true) ->
  multiq_insert fuel s t p = Timeout.
Proof.
  intros Halloc Hp Hlocked. unfold multiq_insert.
  rewrite multiq_insert_pick_all_locked; [reflexivity | exact Halloc | exact Hp | exact Hlocked].
Qed.

(** X8: [jl_enqueue_task] inserts the task with the priority it has: in a
    multi-queue the caller has to itself, with room in every shard, it
    returns, the task is enqueued once more, and no task has changed. *)
Theorem jl_enqueue_task_keeps_tasks (fuel : nat) (s : sched) (k : Z) (t : ptr) :
  quiet s k -> 0 < heap_p s -> k < tasks_per_heap -> prio (mem s t) <= INT16_MAX ->
  tid (mem s t) = tls_tid (ptls s) \/ tid (mem s t) = -1 ->
  exists s',
    jl_enqueue_task (S fuel) s t = Done (s', Returned tt) /\
    enqueued s' ≡ₚ t :: enqueued s /\
    forall q, mem s' q = mem s q.
Proof.
  intros Hq Hp Hk Hmax Htid.
  destruct (multiq_insert_quiet fuel s k t (prio (mem s t)) Hq Hp Hk Hmax Htid)
    as (s' & Hrun & _ & Hperm & _).
  exists s'. unfold jl_enqueue_task. rewrite Hrun. cbn [mbind result_bind].
  split; [reflexivity|]. split; [exact Hperm|].
  apply multiq_insert_step in Hrun as (Hm & _). rewrite Hm.
  intros q. unfold set_task_prio. destruct (Pos.eqb_spec q t) as [->|_]; [|reflexivity].
  destruct (mem s t). reflexivity.
Qed.

End MultiqMore.

(** * More on extraction *)

Section DeleteminMore.
Context {R : Rng}.

(** X9: a task that [multiq_deletemin] returns was unowned or the caller's
    before the call and is the caller's after it. *)
Theorem multiq_deletemin_claims_task (fuel : nat) (s s' : sched) (t : ptr) :
  multiq_deletemin fuel s = Done (s', Some t) ->
  (tid (mem s t) = tls_tid (ptls s) \/ tid (mem s t) = -1) /\
  tid (mem s' t) = tls_tid (ptls s) /\
  tls_tid (ptls s') = tls_tid (ptls s) /\
  forall q, q <> t -> mem s' q = mem s q.
Proof.
  intros H. pose proof (outside_tid _ _ (outside_multiq_deletemin _ _ _ _ H)) as Hself.
  apply multiq_deletemin_owner in H as [[Hown ->]|[Hfree ->]].
  - repeat split; auto.
  - split; [auto|]. split; [apply set_task_tid_same|]. split; [exact Hself|].
    intros q Hq. unfold set_task_tid.
    destruct (Pos.eqb_spec q t) as [Heq|_]; [contradiction | reflexivity].
Qed.

(** X10: with the shards in heap order, a task that [multiq_deletemin]
    returns was the root of an unlocked shard and no task of that shard had
    a lesser priority; that shard has lost the task and nothing else, the
    other shards are as they were. *)
Theorem multiq_deletemin_returns_shard_minimum (fuel : nat) (s s' : sched) (t : ptr) :
  0 <= heap_p s <= INT16_MAX -> heaps_ordered s ->
  multiq_deletemin fuel s = Done (s', Some t) ->
  exists rn h h',
    heaps s !! rn = Some h /\ lock h = false /\
    tasks h !! 0%nat = Some (Some t) /\
    (forall i, 0 <= i < ntasks h -> prio (mem s t) <= key (mem s) (tasks h) i) /\
    heaps s' = <[rn := h']> (heaps s) /\
    lock h' = false /\ ntasks h' = ntasks h - 1 /\
    Some t :: tasks h' ≡ₚ None :: tasks h.
Proof.
  intros Hp Hord H.
  apply multiq_deletemin_step in H as (rn & h & hp & Hh & Hlock & Hroot & _ & Hpop & Hheaps);
    [|exact Hp].
  assert (Hin : h ∈ heaps s) by (eapply list_elem_of_lookup_2, Hh).
  destruct (Hord h Hin Hlock) as [Hok Hheap].
  destruct (popped_shard (mem s') h t hp Hok Hroot Hpop) as (Hl' & _ & Hn' & Hperm & _).
  exists rn, h, (set_lock hp false).
  split; [exact Hh|]. split; [exact Hlock|]. split; [exact Hroot|]. split.
  - intros i Hi.
    assert (Hkey : key (mem s) (tasks h) 0 = prio (mem s t)).
    { unfold key. change (Z.to_nat 0) with 0%nat. rewrite Hroot. reflexivity. }
    rewrite <- Hkey.
    apply (root_least (mem s) (tasks h) (ntasks h) (ntasks h)); [|lia|lia].
    intros j Hj _. apply Hheap, Hj.
  - split; [exact Hheaps|]. split; [exact Hl'|]. split; [exact Hn' | exact Hperm].
Qed.

(** X11: a shard whose root is owned by another worker is left as it is by
    [multiq_deletemin]: whatever the call returns, it is not that task, the
    shard has not changed and the task has kept its owner. *)
Theorem multiq_deletemin_respects_affinity (fuel : nat) (s s' : sched) (r : option ptr)
    (i : nat) (h : taskheap_t) (q : ptr) :
  0 <= heap_p s <= INT16_MAX ->
  multiq_deletemin fuel s = Done (s', r) ->
  heaps s !! i = Some h -> tasks h !! 0%nat = Some (Some q) ->
  tid (mem s q) <> tls_tid (ptls s) -> tid (mem s q) <> -1 ->
  r <> Some q /\ heaps s' !! i = Some h /\ tid (mem s' q) = tid (mem s q).
Proof.
  intros Hp H Hh Hroot Hown Hfree. destruct r as [t|].
  - assert (Hne : t <> q).
    { intros ->. apply multiq_deletemin_owner in H as [[Ho _]|[Ho _]]; contradiction. }
    split; [congruence|]. split.
    + apply multiq_deletemin_step in H
        as (rn & h0 & hp & Hh0 & _ & Hroot0 & _ & _ & Hheaps); [|exact Hp].
      rewrite Hheaps. destruct (Nat.eq_dec rn i) as [->|Hrn].
      * rewrite Hh in Hh0. injection Hh0 as <-. rewrite Hroot in Hroot0. congruence.
      * rewrite list_lookup_insert_ne by exact Hrn. exact Hh.
    + apply multiq_deletemin_owner in H as [[_ ->]|[_ ->]]; [reflexivity|].
      unfold set_task_tid. destruct (Pos.eqb_spec q t) as [Heq|_]; [congruence | reflexivity].
  - split; [discriminate|].
    apply multiq_deletemin_step in H as [Hheaps Hm]; [|exact Hp].
    rewrite Hheaps, Hm. auto.
Qed.

(** X12: [multiq_insert] and [multiq_deletemin] wake nobody and decide
    nothing about sleeping: the controller state, the park slots, the
    threshold and the trace are the same after them. *)
Theorem multiq_leaves_sleep_state (fuel : nat) (s : sched) :
  (forall t p s' c, multiq_insert fuel s t p = Done (s', c) ->
     sleep_check_state s' = sleep_check_state s /\
     all_sleep_states s' = all_sleep_states s /\
     sleep_threshold s' = sleep_threshold s /\ trace s' = trace s) /\
  (forall s' r, multiq_deletemin fuel s = Done (s', r) ->
     sleep_check_state s' = sleep_check_state s /\
     all_sleep_states s' = all_sleep_states s /\
     sleep_threshold s' = sleep_threshold s /\ trace s' = trace s).
Proof.
  split.
  - intros t p s' c H. apply multiq_insert_step in H as (_ & Ho & _).
    unfold outside in Ho. injection Ho as _ _ H1 H2 H3 _ _ _ _ H4. auto.
  - intros s' r H. apply outside_multiq_deletemin in H as Ho.
    unfold outside in Ho. injection Ho as _ _ H1 H2 H3 _ _ _ _ H4. auto.
Qed.

(** The first probe of [multiq_deletemin] on unlocked shards: of the two
    shards drawn the one with the lesser cached priority, the first on a
    tie, is locked, unless its cached priority is [INT16_MAX]. *)
Lemma probe_first (n : nat) (s : sched) (rn0 : Z) (h1 h2 : taskheap_t) :
  0 < heap_p s ->
  heaps s !! Z.to_nat (fst (draw s)) = Some h1 ->
  heaps s !! Z.to_nat (fst (draw (snd (draw s)))) = Some h2 ->
  lock h1 = false -> lock h2 = false ->
  let second := heap_prio h2 <? heap_prio h1 in
  let rn := if second then fst (draw (snd (draw s))) else fst (draw s) in
  let h := if second then h2 else h1 in
  heap_prio h <> INT16_MAX ->
  multiq_deletemin_probe (S n) s 0 rn0 =
  Done (set_heaps (draws 2 s) (<[Z.to_nat rn := set_lock h true]> (heaps s)), 0, rn).
Proof.
  intros Hp Hh1 Hh2 Hl1 Hl2 second rn h Hprio.
  cbn [multiq_deletemin_probe].
  replace (0 <? heap_p s) with true by (symmetry; apply Z.ltb_lt; exact Hp).
  assert (Hd2s : draws 2 s = snd (draw (snd (draw s)))) by reflexivity.
  pose proof (draw_range s Hp) as Hr1.
  assert (Hp1 : 0 < heap_p (snd (draw s))) by (rewrite draw_heap_p; exact Hp).
  pose proof (draw_range _ Hp1) as Hr2.
  rewrite Hd2s. clear Hd2s.
  destruct (draw s) as [r1 s1] eqn:Hd1. cbn [fst snd] in *.
  destruct (draw s1) as [r2 s2] eqn:Hd2. cbn [fst snd] in *.
  assert (Hheaps : heaps s2 = heaps s).
  { rewrite (heaps_draw_eq _ _ _ Hd2). apply (heaps_draw_eq _ _ _ Hd1). }
  assert (Hload1 : load (heaps s2) r1 = Done h1)
    by (apply load_Done; rewrite Hheaps; split; [lia | exact Hh1]).
  assert (Hload2 : load (heaps s2) r2 = Done h2)
    by (apply load_Done; rewrite Hheaps; split; [lia | exact Hh2]).
  rewrite Hload1, Hload2. cbn [mbind result_bind].
  unfold rn, h, second in *. clear rn h second.
  destruct (Z.ltb_spec (heap_prio h2) (heap_prio h1)) as [Hlt|Hge].
  - rewrite Hload2. cbn [mbind result_bind]. rewrite Hl2, Z.eqb_refl.
    unfold store_heap. rewrite store_in_range
      by (rewrite Hheaps; apply lookup_lt_Some in Hh2; lia).
    cbn [mbind result_bind]. rewrite Hheaps. reflexivity.
  - replace ((heap_prio h1 =? heap_prio h2) && (heap_prio h1 =? INT16_MAX)) with false.
    + rewrite Hload1. cbn [mbind result_bind]. rewrite Hl1, Z.eqb_refl.
      unfold store_heap. rewrite store_in_range
        by (rewrite Hheaps; apply lookup_lt_Some in Hh1; lia).
      cbn [mbind result_bind]. rewrite Hheaps. reflexivity.
    + symmetry. apply andb_false_iff. right. apply Z.eqb_neq. exact Hprio.
Qed.

Lemma multiq_deletemin_chosen (fuel : nat) (s : sched) (k : Z)
    (h1 h2 : taskheap_t) :
  quiet s k -> k <= 4097 -> 0 < heap_p s ->
  heaps s !! Z.to_nat (fst (draw s)) = Some h1 ->
  heaps s !! Z.to_nat (fst (draw (snd (draw s)))) = Some h2 ->
  let second := heap_prio h2 <? heap_prio h1 in
  let rn := if second then fst (draw (snd (draw s))) else fst (draw s) in
  let h := if second then h2 else h1 in
  heap_prio h <> INT16_MAX ->
  exists s' t h',
    multiq_deletemin (S fuel) s = Done (s', Some t) /\
    tasks h !! 0%nat = Some (Some t) /\
    heaps s' = <[Z.to_nat rn := h']> (heaps s) /\
    ntasks h' = ntasks h - 1 /\ lock h' = false.
Proof.
  intros [Halloc Hq] Hk Hp Hh1 Hh2 second rn h Hprio.
  assert (Hin1 : h1 ∈ heaps s) by (eapply list_elem_of_lookup_2, Hh1).
  assert (Hin2 : h2 ∈ heaps s) by (eapply list_elem_of_lookup_2, Hh2).
  assert (Hh : heaps s !! Z.to_nat rn = Some h)
    by (unfold rn, h; destruct second; assumption).
  assert (Hin : h ∈ heaps s) by (eapply list_elem_of_lookup_2, Hh).
  assert (Hrn : 0 <= rn).
  { pose proof (draw_range s Hp).
    assert (Hp1 : 0 < heap_p (snd (draw s))) by (rewrite draw_heap_p; exact Hp).
    pose proof (draw_range _ Hp1). unfold rn. destruct second; lia. }
  cbn [multiq_deletemin].
  destruct (Z.to_nat (heap_p s)) as [|n] eqn:Hn; [lia|].
  rewrite (probe_first n s 0 h1 h2 Hp Hh1 Hh2 (proj1 (Hq h1 Hin1)) (proj1 (Hq h2 Hin2)) Hprio).
  fold second. fold rn. fold h.
  cbn [mbind result_bind]. cbn [set_heaps heap_p heaps].
  rewrite draws_heap_p.
  replace (0 =? heap_p s) with false by (symmetry; apply Z.eqb_neq; lia).
  assert (Hl : load (<[Z.to_nat rn := set_lock h true]> (heaps s)) rn = Done (set_lock h true)).
  { apply load_Done. split; [exact Hrn|].
    apply list_lookup_insert_eq. eapply lookup_lt_Some, Hh. }
  rewrite Hl. cbn [mbind result_bind]. cbn [set_lock tasks].
  destruct (Hq h Hin) as (Hlock & Hok & Hnk & Hmax & Hempty & Htasks).
  assert (Hn1 : 1 <= ntasks h).
  { destruct Hok as (_ & Hnb & _). destruct (Z.eq_dec (ntasks h) 0) as [Hz|Hz]; [|lia].
    exfalso. apply Hprio, Hempty, Hz. }
  pose proof Hok as (Hlen & _ & Hocc & _).
  destruct (Hocc 0) as [t Ht]; [lia|]. change (Z.to_nat 0) with 0%nat in Ht.
  assert (Hroot : load (tasks h) 0 = Done (Some t)) by (apply load_Done; split; [lia|exact Ht]).
  rewrite Hroot. cbn [mbind result_bind]. cbn [set_heaps mem ptls].
  destruct (Htasks t) as [_ Htid]; [eapply list_elem_of_lookup_2, Ht|].
  rewrite <- (draws_mem 2 s) in Htid.
  assert (Hself : tls_tid (ptls (draws 2 s)) = tls_tid (ptls s)).
  { change (draws 2 s) with (snd (draw (snd (draw s)))). rewrite !draw_tid. reflexivity. }
  rewrite <- Hself in Htid.
  assert (Hmr : exists m',
    (if negb (tid (mem (draws 2 s) t) =? tls_tid (ptls (draws 2 s)))
     then let '(m, old) := cas_task_tid (mem (draws 2 s)) t (-1) (tls_tid (ptls (draws 2 s))) in
          (m, negb (old =? -1))
     else (mem (draws 2 s), false)) = (m', false)).
  { destruct (Z.eqb_spec (tid (mem (draws 2 s) t)) (tls_tid (ptls (draws 2 s)))) as [Heq|Hne];
      cbn [negb]; [eauto|].
    destruct Htid as [Htid|Htid]; [contradiction|].
    unfold cas_task_tid. rewrite Htid. cbn. eauto. }
  destruct Hmr as [m' ->]. cbn [set_mem mem heaps].
  destruct (multiq_deletemin_pop_returns m' (set_lock h true)) as [hp Hpop];
    [exact Hok | cbn [set_lock ntasks]; lia |].
  rewrite Hpop. cbn [mbind result_bind].
  unfold store_heap. cbn [set_mem set_heaps heaps]. rewrite store_in_range
    by (rewrite length_insert; apply lookup_lt_Some in Hh; lia).
  cbn [mbind result_bind].
  destruct (popped_shard m' h t hp Hok Ht Hpop) as (Hl' & _ & Hn' & _).
  eexists _, t, (set_lock hp false). split; [reflexivity|].
  split; [exact Ht|]. cbn [set_heaps heaps]. split; [apply list_insert_insert_eq|].
  split; [exact Hn' | exact Hl'].
Qed.

(** X13: the choice of two.  In a multi-queue the caller has to itself,
    [multiq_deletemin] draws two shards and compares their cached
    priorities: when the second is strictly the lesser it takes the root of
    the second shard; otherwise, unless the first is cached as empty, it
    takes the root of the first.  The shard taken from holds one task
    less. *)
Theorem multiq_deletemin_two_choices (fuel : nat) (s : sched) (k : Z)
    (h1 h2 : taskheap_t) :
  quiet s k -> k <= 4097 -> 0 < heap_p s ->
  heaps s !! Z.to_nat (fst (draw s)) = Some h1 ->
  heaps s !! Z.to_nat (fst (draw (snd (draw s)))) = Some h2 ->
  (heap_prio h2 < heap_prio h1 ->
   exists s' t h',
     multiq_deletemin (S fuel) s = Done (s', Some t) /\
     tasks h2 !! 0%nat = Some (Some t) /\
     heaps s' = <[Z.to_nat (fst (draw (snd (draw s)))) := h']> (heaps s) /\
     ntasks h' = ntasks h2 - 1 /\ lock h' = false) /\
  (heap_prio h1 <= heap_prio h2 -> heap_prio h1 <> INT16_MAX ->
   exists s' t h',
     multiq_deletemin (S fuel) s = Done (s', Some t) /\
     tasks h1 !! 0%nat = Some (Some t) /\
     heaps s' = <[Z.to_nat (fst (draw s)) := h']> (heaps s) /\
     ntasks h' = ntasks h1 - 1 /\ lock h' = false).
Proof.
  intros Hq Hk Hp Hh1 Hh2.
  pose proof (multiq_deletemin_chosen fuel s k h1 h2 Hq Hk Hp Hh1 Hh2) as H.
  cbv zeta in H. split.
  - intros Hlt. apply Z.ltb_lt in Hlt as Hb. rewrite Hb in H. apply H.
    assert (Hin1 : h1 ∈ heaps s) by (eapply list_elem_of_lookup_2, Hh1).
    destruct Hq as [_ Hall]. destruct (Hall h1 Hin1) as (_ & _ & _ & Hmax & _). lia.
  - intros Hle Hne. apply Z.ltb_ge in Hle as Hb. rewrite Hb in H. apply H, Hne.
Qed.

(** X14: a round trip.  A task inserted with a priority below [INT16_MAX]
    into an empty multi-queue that the caller has to itself is returned by
    the next [multiq_deletemin] whenever one of the two shards first drawn
    is the shard it went to, and the multi-queue is empty again. *)
Theorem insert_then_deletemin_returns_task (fuel : nat) (s : sched) (t : ptr) (p : Z) :
  quiet s 0 -> 0 < heap_p s -> p < INT16_MAX ->
  tid (mem s t) = tls_tid (ptls s) \/ tid (mem s t) = -1 ->
  exists s1,
    multiq_insert (S fuel) s t p = Done (s1, Returned 0) /\
    (fst (draw s1) = fst (draw s) \/ fst (draw (snd (draw s1))) = fst (draw s) ->
     exists s2,
       multiq_deletemin (S fuel) s1 = Done (s2, Some t) /\
       enqueued s2 = [] /\ tid (mem s2 t) = tls_tid (ptls s)).
Proof.
  intros Hq Hp Hmax Htid.
  destruct (multiq_insert_quiet fuel s 0 t p Hq Hp) as (s1 & Hrun & Hq1 & Hperm & Ho & _);
    [unfold tasks_per_heap; lia | lia | exact Htid |].
  exists s1. split; [exact Hrun|]. intros Hhit.
  rewrite (enqueued_empty s Hq) in Hperm.
  pose proof Hrun as Hstep.
  apply multiq_insert_step in Hstep
    as (Hm & _ & rn & s0 & h & Hpick & Hh & Hlock & _ & Hroom & hp & Hpush & Hheaps).
  pose proof Hq as [Halloc Hall].
  (* the shard picked is the first one drawn *)
  assert (Hrn : rn = fst (draw s)).
  { destruct (multiq_insert_pick_unlocked fuel (set_mem s (set_task_prio (mem s) t p)))
      as [s0' Hpick']; [exact Halloc | exact Hp | |].
    - intros h' Hh'. apply (Hall h' Hh').
    - rewrite Hpick in Hpick'. injection Hpick' as _ ->. apply draw_fst_set_mem. }
  assert (Hin : h ∈ heaps s) by (eapply list_elem_of_lookup_2, Hh).
  destruct (Hall h Hin) as (_ & Hok & Hn0 & _ & Hempty & _).
  assert (Hn : ntasks h = 0) by (destruct Hok as (_ & Hnb & _); lia).
  destruct (pushed_shard (mem s1) h t hp Hok Hroom Hpush) as (_ & _ & Hn' & _ & Hprio' & _).
  set (hn := cache_lowered (set_lock hp false) (prio (mem s1 t))) in *.
  assert (Hpt : prio (mem s1 t) = p) by (rewrite Hm; apply set_task_prio_same).
  rewrite Hpt, (Hempty Hn), Z.min_r in Hprio' by lia.
  assert (Hp1 : 0 < heap_p s1) by (rewrite (outside_heap_p _ _ Ho); exact Hp).
  (* the cached priorities after the insertion *)
  assert (Hat : forall i, 0 <= i < heap_p s ->
            exists h', heaps s1 !! Z.to_nat i = Some h' /\
              (i = rn -> h' = hn) /\ (i <> rn -> heap_prio h' = INT16_MAX)).
  { intros i Hi. destruct Halloc as [_ Hlen].
    destruct (Z.eq_dec i rn) as [->|Hne].
    - exists hn. rewrite Hheaps. split; [|split; [auto | intros H; contradiction]].
      apply list_lookup_insert_eq. eapply lookup_lt_Some, Hh.
    - destruct (lookup_lt_is_Some_2 (heaps s) (Z.to_nat i)) as [h' Hh']; [lia|].
      exists h'. rewrite Hheaps. split; [|split; [intros H; contradiction|]].
      + rewrite list_lookup_insert_ne; [exact Hh'|].
        pose proof (draw_range s Hp) as Hr. rewrite <- Hrn in Hr. lia.
      + intros _. assert (Hin' : h' ∈ heaps s) by (eapply list_elem_of_lookup_2, Hh').
        destruct (Hall h' Hin') as (_ & Hok' & Hn0' & _ & Hempty' & _).
        apply Hempty'. destruct Hok' as (_ & Hnb & _). lia. }
  pose proof (draw_range s1 Hp1) as Hr1.
  assert (Hp1' : 0 < heap_p (snd (draw s1))) by (rewrite draw_heap_p; exact Hp1).
  pose proof (draw_range _ Hp1') as Hr2. rewrite draw_heap_p in Hr2.
  rewrite (outside_heap_p _ _ Ho) in Hr1, Hr2.
  destruct (Hat _ Hr1) as (h1 & Hh1 & Hh1rn & Hh1other).
  destruct (Hat _ Hr2) as (h2 & Hh2 & Hh2rn & Hh2other).
  destruct (multiq_deletemin_chosen fuel s1 1 h1 h2 Hq1 ltac:(lia) Hp1 Hh1 Hh2)
    as (s2 & t' & h' & Hrun2 & Hroot & _).
  { (* the shard chosen is the one that holds the task *)
    rewrite <- Hrn in Hhit.
    destruct (Z.eq_dec (fst (draw s1)) rn) as [H1|H1].
    - rewrite (Hh1rn H1). destruct (Z.eq_dec (fst (draw (snd (draw s1)))) rn) as [H2|H2].
      + rewrite (Hh2rn H2), Z.ltb_irrefl, Hprio'. lia.
      + rewrite (Hh2other H2), Hprio'.
        replace (INT16_MAX <? p) with false by (symmetry; apply Z.ltb_ge; lia). lia.
    - destruct Hhit as [Hhit|Hhit]; [contradiction|].
      rewrite (Hh1other H1), (Hh2rn Hhit), Hprio'.
      replace (p <? INT16_MAX) with true by (symmetry; apply Z.ltb_lt; lia). lia. }
  destruct (multiq_deletemin_quiet fuel s1 1 Hq1 ltac:(lia)) as (s2' & r & Hrun2' & _ & Hout).
  rewrite Hrun2 in Hrun2'. injection Hrun2' as <- <-.
  rewrite Hperm in Hout.
  assert (Ht' : t' = t /\ enqueued s2 = []).
  { pose proof (Permutation_length Hout) as Hl. cbn in Hl.
    destruct (enqueued s2); [|discriminate Hl].
    apply Permutation_singleton_inj in Hout. auto. }
  destruct Ht' as [-> Hnil]. exists s2. split; [exact Hrun2|]. split; [exact Hnil|].
  apply multiq_deletemin_returns_own in Hrun2 as [_ Hown].
  rewrite Hown. unfold outside in Ho. injection Ho as _ _ _ _ _ _ _ _ H _. exact H.
Qed.

End DeleteminMore.

(** * A task of priority [INT16_MAX] *)

Section LowestPriority.
Context {R : Rng}.

(** Shards that are all cached as empty, whatever they hold, are passed
    over. *)
Lemma multiq_deletemin_cached_empty (fuel : nat) (s : sched) :
  heaps_allocated s -> (forall h, h ∈ heaps s -> heap_prio h = INT16_MAX) ->
  multiq_deletemin (S fuel) s = Done (draws (2 * Z.to_nat (heap_p s)) s, None).
Proof.
  intros Halloc Hmax. cbn [multiq_deletemin].
  destruct (probe_all_empty (Z.to_nat (heap_p s)) s 0 0 Halloc Hmax) as [rn Hrn];
    [lia | destruct Halloc; lia |].
  rewrite Hrn. cbn [mbind result_bind]. rewrite draws_heap_p, Z.eqb_refl. reflexivity.
Qed.

Lemma extract_n_cached_empty (fuel n : nat) : forall s : sched,
  heaps_allocated s -> (forall h, h ∈ heaps s -> heap_prio h = INT16_MAX) ->
  exists s', extract_n (S fuel) n s = Done (s', replicate n None) /\ heaps s' = heaps s.
Proof.
  induction n as [|n IH]; intros s Halloc Hmax; [exists s; split; reflexivity|].
  cbn [extract_n]. rewrite (multiq_deletemin_cached_empty fuel s Halloc Hmax).
  cbn [mbind result_bind].
  destruct (IH (draws (2 * Z.to_nat (heap_p s)) s)) as (s' & Hrun & Hheaps).
  - unfold heaps_allocated. rewrite draws_heaps, draws_heap_p. exact Halloc.
  - rewrite draws_heaps. exact Hmax.
  - rewrite Hrun. cbn [mbind result_bind]. exists s'. split; [reflexivity|].
    rewrite Hheaps. apply draws_heaps.
Qed.

(** X15: a task inserted with priority [INT16_MAX] into an empty
    multi-queue is enqueued, but the cached priority of its shard stays
    [INT16_MAX], the mark of an empty shard: however many times
    [multiq_deletemin] is called afterwards and whatever is drawn, it
    returns [NULL] and the task stays where it is; and [sleep_check_now],
    which counts the tasks, answers 0, so the worker does not sleep
    either. *)
Theorem lowest_priority_task_is_stranded (fuel : nat) (s : sched) (t : ptr) :
  quiet s 0 -> 0 < heap_p s -> sleep_check_state s = not_sleeping ->
  tid (mem s t) = tls_tid (ptls s) \/ tid (mem s t) = -1 ->
  exists s1,
    multiq_insert (S fuel) s t INT16_MAX = Done (s1, Returned 0) /\
    enqueued s1 ≡ₚ [t] /\
    (forall n, exists s2,
       extract_n (S fuel) n s1 = Done (s2, replicate n None) /\ heaps s2 = heaps s1) /\
    exists s3, sleep_check_now (S fuel) s1 = Done (s3, 0) /\
      sleep_check_state s3 = not_sleeping.
Proof.
  intros Hq Hp Hst Htid.
  destruct (multiq_insert_quiet fuel s 0 t INT16_MAX Hq Hp) as (s1 & Hrun & Hq1 & Hperm & Ho & _);
    [unfold tasks_per_heap; lia | lia | exact Htid |].
  exists s1. split; [exact Hrun|].
  split; [rewrite Hperm, (enqueued_empty s Hq); reflexivity|].
  pose proof Hrun as Hstep.
  apply multiq_insert_step in Hstep as (Hm & _ & rn & s0 & h & _ & Hh & Hlock & _ & Hroom & hp & Hpush & Hheaps).
  destruct Hq as [Halloc Hq].
  assert (Hin : h ∈ heaps s) by (eapply list_elem_of_lookup_2, Hh).
  destruct (Hq h Hin) as (_ & Hok & Hn0 & _ & Hempty & _).
  assert (Hn : ntasks h = 0) by (destruct Hok as (_ & Hnb & _); lia).
  destruct (pushed_shard (mem s1) h t hp Hok Hroom Hpush) as (_ & _ & Hn' & _ & Hprio' & _).
  set (hn := cache_lowered (set_lock hp false) (prio (mem s1 t))) in *.
  assert (Hpt : prio (mem s1 t) = INT16_MAX) by (rewrite Hm; apply set_task_prio_same).
  rewrite Hpt, (Hempty Hn), Z.min_id in Hprio'.
  assert (Hmax1 : forall h', h' ∈ heaps s1 -> heap_prio h' = INT16_MAX).
  { intros h' Hh'. rewrite Hheaps in Hh'. apply elem_of_insert_inv in Hh' as [->|Hh'];
      [exact Hprio'|].
    destruct (Hq h' Hh') as (_ & Hok' & Hn0' & _ & Hempty' & _).
    apply Hempty'. destruct Hok' as (_ & Hnb & _). lia. }
  destruct Hq1 as [Halloc1 _].
  split; [intros n; apply extract_n_cached_empty; assumption|].
  assert (Hst1 : sleep_check_state s1 = not_sleeping).
  { unfold outside in Ho. injection Ho as _ _ _ H _ _ _ _ _ _. rewrite H. exact Hst. }
  rewrite (sleep_check_now_from_active fuel s1 Halloc1 Hst1).
  assert (Hne : all_shards_empty s1 = false).
  { apply not_true_is_false. intros Hall.
    apply all_shards_empty_spec with (h := hn) in Hall; [lia|].
    rewrite Hheaps. apply (list_elem_of_lookup_2 _ (Z.to_nat rn)).
    apply list_lookup_insert_eq. eapply lookup_lt_Some, Hh. }
  rewrite Hne. eexists. split; reflexivity.
Qed.

End LowestPriority.

(** * More on the sleep controller *)

Section SleepMore.
Context {R : Rng}.

Lemma spin_while_checking_spins (fuel : nat) (s : sched) :
  sleep_check_state s = checking_for_sleeping -> spin_while_checking fuel s = Timeout.
Proof.
  intros Hst. induction fuel as [|fuel IH]; [reflexivity|].
  cbn [spin_while_checking]. rewrite Hst. cbn. exact IH.
Qed.

Lemma snapshot_from_result (n : nat) (s : sched) (i r : Z) :
  snapshot_from n s i = Done r -> r = 0 \/ r = 1.
Proof.
  revert i. induction n as [|n IH]; intros i; cbn [snapshot_from].
  - destruct (i <? heap_p s); [discriminate|]. intros [= <-]. auto.
  - destruct (i <? heap_p s); [|intros [= <-]; auto].
    destruct (load (heaps s) i) as [h| |]; cbn [mbind result_bind]; try discriminate.
    destruct (negb (ntasks h =? 0)); [intros [= <-]; auto | apply IH].
Qed.

(** What [sleep_check_now] returns goes with the state it leaves. *)
Lemma sleep_check_now_result (fuel : nat) : forall (s s' : sched) (r : Z),
  sleep_check_now fuel s = Done (s', r) ->
  ((r = 1 /\ sleep_check_state s' = sleeping) \/
   (r = 0 /\ sleep_check_state s' = not_sleeping)) /\
  s' = set_sleep_check_state s (sleep_check_state s').
Proof.
  induction fuel as [|fuel IH]; intros s s' r H; [discriminate|].
  cbn [sleep_check_now] in H.
  destruct (Z.eqb_spec (sleep_check_state s) checking_for_sleeping) as [Hc|Hc].
  { rewrite (spin_while_checking_spins fuel s Hc) in H. discriminate. }
  destruct (Z.eqb_spec (sleep_check_state s) not_sleeping) as [Hn|Hn].
  - unfold cas_sleep_check_state in H. rewrite Hn in H. cbn [not_sleeping Z.eqb] in H.
    destruct (snapshot _) as [empty| |] eqn:Hsnap; cbn [mbind result_bind] in H;
      try discriminate.
    destruct (negb (empty =? 0)).
    + cbn [set_sleep_check_state sleep_check_state checking_for_sleeping Z.eqb Pos.eqb] in H.
      injection H as <- <-. split; [left; split; reflexivity | reflexivity].
    + injection H as <- <-. split; [right; split; reflexivity | reflexivity].
  - destruct (Z.eqb_spec (sleep_check_state s) sleeping) as [Hs|Hs]; [|discriminate].
    injection H as <- <-. split; [left; split; [reflexivity | exact Hs]|].
    destruct s. reflexivity.
Qed.

(** X16: whenever [sleep_check_now] returns, from whatever state of the
    controller, it returns 1 and leaves the controller sleeping, or returns
    0 and leaves it active; the shards, the tasks and the trace are as
    before. *)
Theorem sleep_check_now_agrees (fuel : nat) (s s' : sched) (r : Z) :
  sleep_check_now fuel s = Done (s', r) ->
  ((r = 1 /\ sleep_check_state s' = sleeping) \/
   (r = 0 /\ sleep_check_state s' = not_sleeping)) /\
  heaps s' = heaps s /\ mem s' = mem s /\ trace s' = trace s /\
  all_sleep_states s' = all_sleep_states s.
Proof.
  intros H. apply sleep_check_now_result in H as [Hr Hs'].
  split; [exact Hr|]. rewrite Hs'. repeat split.
Qed.

(** X17: [sleep_check_now] when the controller is not active.  Found
    sleeping, it returns 1 and changes nothing.  Found deciding, it waits
    for the thread that decides: left alone, it does not return.  On any
    other value the assertion fails. *)
Theorem sleep_check_now_not_active (fuel : nat) (s : sched) :
  (sleep_check_state s = sleeping -> sleep_check_now (S fuel) s = Done (s, 1)) /\
  (sleep_check_state s = checking_for_sleeping -> sleep_check_now fuel s = Timeout) /\
  (sleep_check_state s <> not_sleeping -> sleep_check_state s <> checking_for_sleeping ->
   sleep_check_state s <> sleeping -> sleep_check_now (S fuel) s = Fault).
Proof.
  split; [|split].
  - intros Hs. cbn [sleep_check_now]. rewrite Hs. reflexivity.
  - intros Hc. destruct fuel as [|fuel']; [reflexivity|].
    cbn [sleep_check_now]. rewrite Hc. cbn [checking_for_sleeping Z.eqb Pos.eqb].
    fold checking_for_sleeping.
    rewrite (spin_while_checking_spins fuel' s Hc). reflexivity.
  - intros H0 H1 H2. cbn [sleep_check_now].
    destruct (Z.eqb_spec (sleep_check_state s) checking_for_sleeping); [contradiction|].
    destruct (Z.eqb_spec (sleep_check_state s) not_sleeping); [contradiction|].
    destruct (Z.eqb_spec (sleep_check_state s) sleeping); [contradiction|].
    reflexivity.
Qed.

(** ** Waking *)

(** The event that ends [jl_wakeup_thread]. *)
Definition loop_event (s : sched) : event :=
  match jl_uv_mutex s with
  | Some owner => if owner =? tls_tid (ptls s) then UvStop else JlWakeLibuv
  | None => JlWakeLibuv
  end.

(** X18: [jl_wakeup_thread] signals no park slot, and reads none, when the
    target is the caller, when the controller is active already, or when
    [sleep_threshold] is zero: it sets the controller to active, unless the
    target is the caller, and ends with [uv_stop] when the caller holds the
    mutex of the event loop and with [jl_wake_libuv] otherwise. *)
Theorem jl_wakeup_thread_no_signal (s : sched) (t : Z) :
  t = tls_tid (ptls s) \/ sleep_check_state s = not_sleeping \/ sleep_threshold s = 0 ->
  jl_wakeup_thread s t =
  Done (emit (if t =? tls_tid (ptls s) then s else set_sleep_check_state s not_sleeping)
             (loop_event s)).
Proof.
  intros H. unfold jl_wakeup_thread, loop_event.
  destruct (Z.eqb_spec t (tls_tid (ptls s))) as [Heq|Hne]; cbn [negb].
  - cbn [mbind result_bind]. destruct (jl_uv_mutex s) as [o|]; [|reflexivity].
    destruct (o =? tls_tid (ptls s)); reflexivity.
  - assert (Hskip : negb (sleep_threshold (set_sleep_check_state s not_sleeping) =? 0) &&
                    negb (sleep_check_state s =? not_sleeping) = false).
    { destruct H as [H|[H|H]]; [contradiction| |].
      - rewrite H. apply andb_false_r.
      - cbn [set_sleep_check_state sleep_threshold]. rewrite H. reflexivity. }
    rewrite Hskip. cbn [mbind result_bind].
    change (jl_uv_mutex (set_sleep_check_state s not_sleeping)) with (jl_uv_mutex s).
    destruct (jl_uv_mutex s) as [o|]; [|reflexivity].
    destruct (o =? tls_tid (ptls s)); reflexivity.
Qed.

Lemma wake_thread_fields (s s' : sched) (t : Z) :
  wake_thread s t = Done s' ->
  all_sleep_states s' = all_sleep_states s /\ jl_n_threads s' = jl_n_threads s /\
  ptls s' = ptls s.
Proof.
  unfold wake_thread. destruct (negb _); [|intros [= <-]; auto].
  destruct (load _ t) as [[slot|]| |]; cbn [mbind result_bind]; try discriminate.
  destruct (sleep_lock slot); [discriminate|]. intros [= <-]. auto.
Qed.

Lemma wake_threads_from_missing_slot (n : nat) : forall (s : sched) (t w : Z),
  0 <= t <= w -> w < t + Z.of_nat n -> t + Z.of_nat n <= jl_n_threads s ->
  jl_n_threads s <= INT16_MAX ->
  w <> tls_tid (ptls s) ->
  all_sleep_states s !! Z.to_nat w = Some None ->
  (forall v, t <= v < w -> v <> tls_tid (ptls s) ->
     all_sleep_states s !! Z.to_nat v = Some (Some {| sleep_lock := false |})) ->
  wake_threads_from n s t = Fault.
Proof.
  induction n as [|n IH]; intros s t w Ht Hw Hn Hmax Hself Hnull Hready; [lia|].
  cbn [wake_threads_from].
  replace (t <? jl_n_threads s) with true by (symmetry; apply Z.ltb_lt; lia).
  destruct (Z.eq_dec t w) as [->|Hne].
  - unfold wake_thread.
    replace (negb (tls_tid (ptls s) =? w)) with true
      by (symmetry; apply negb_true_iff, Z.eqb_neq; congruence).
    replace (load (all_sleep_states s) w) with (Done (@None thread_sleep_t))
      by (symmetry; apply load_Done; split; [lia | exact Hnull]).
    reflexivity.
  - assert (Hstep : exists s1, wake_thread s t = Done s1).
    { unfold wake_thread. destruct (Z.eqb_spec (tls_tid (ptls s)) t) as [Heq|Hneq];
        cbn [negb]; [eauto|].
      replace (load (all_sleep_states s) t) with (Done (Some {| sleep_lock := false |})).
      - cbn. eauto.
      - symmetry. apply load_Done. split; [lia|]. apply Hready; [lia | congruence]. }
    destruct Hstep as [s1 Hs1]. rewrite Hs1. cbn [mbind result_bind].
    apply wake_thread_fields in Hs1 as (H1 & H2 & H3).
    rewrite int16_id by (unfold in_int16, INT16_MIN, INT16_MAX in *; lia).
    apply (IH s1 (t + 1) w); rewrite ?H1, ?H2, ?H3; try lia; try assumption.
    intros v Hv. apply Hready. lia.
Qed.

(** X19: the park slot of a thread is [NULL] until the thread has started.
    When [jl_wakeup_thread] finds the controller deciding or sleeping, with
    [sleep_threshold] not zero, and the slot of some thread other than the
    caller is still [NULL], it dereferences that slot. *)
Theorem jl_wakeup_thread_missing_slot (s : sched) (t w : Z) :
  t <> tls_tid (ptls s) -> sleep_threshold s <> 0 ->
  sleep_check_state s <> not_sleeping ->
  jl_n_threads s <= INT16_MAX ->
  0 <= w < jl_n_threads s -> w <> tls_tid (ptls s) ->
  all_sleep_states s !! Z.to_nat w = Some None ->
  (forall v, 0 <= v < w -> v <> tls_tid (ptls s) ->
     all_sleep_states s !! Z.to_nat v = Some (Some {| sleep_lock := false |})) ->
  jl_wakeup_thread s t = Fault.
Proof.
  intros Ht Hth Hst Hmax Hw Hself Hnull Hready. unfold jl_wakeup_thread.
  replace (negb (t =? tls_tid (ptls s))) with true
    by (symmetry; apply negb_true_iff, Z.eqb_neq, Ht).
  cbn [set_sleep_check_state sleep_threshold jl_n_threads].
  replace (negb (sleep_threshold s =? 0)) with true
    by (symmetry; apply negb_true_iff, Z.eqb_neq, Hth).
  replace (negb (sleep_check_state s =? not_sleeping)) with true
    by (symmetry; apply negb_true_iff, Z.eqb_neq, Hst).
  cbn [andb].
  rewrite (wake_threads_from_missing_slot (Z.to_nat (jl_n_threads s))
             (set_sleep_check_state s not_sleeping) 0 w);
    [reflexivity | lia | lia | cbn [set_sleep_check_state jl_n_threads]; lia
    | exact Hmax | exact Hself | exact Hnull | exact Hready].
Qed.

End SleepMore.

(** * The collector's view and the start of the threads *)

Section MarkingFacts.
Context {R : Rng}.

Lemma mark_tasks_from_spec (n : nat) : forall (h : taskheap_t) (j : Z) marked,
  0 <= j -> j + Z.of_nat n = ntasks h -> ntasks h <= Z.of_nat (length (tasks h)) ->
  ntasks h <= INT16_MAX ->
  mark_tasks_from n h j marked =
  Done (marked ++ drop (Z.to_nat j) (take (Z.to_nat (ntasks h)) (tasks h))).
Proof.
  induction n as [|n IH]; intros h j marked Hj Hn Hlen Hmax.
  - cbn [mark_tasks_from].
    replace (j <? ntasks h) with false by (symmetry; apply Z.ltb_ge; lia).
    rewrite drop_ge by (rewrite length_take; lia). rewrite app_nil_r. reflexivity.
  - cbn [mark_tasks_from].
    replace (j <? ntasks h) with true by (symmetry; apply Z.ltb_lt; lia).
    destruct (load_in_range (tasks h) j) as [obj Hobj]; [lia|].
    rewrite Hobj. cbn [mbind result_bind].
    rewrite int16_id by (unfold in_int16, INT16_MIN, INT16_MAX in *; lia).
    rewrite IH by lia. apply load_Done in Hobj as [_ Hobj].
    assert (Hobj' : take (Z.to_nat (ntasks h)) (tasks h) !! Z.to_nat j = Some obj)
      by (rewrite lookup_take_lt by lia; exact Hobj).
    rewrite (drop_S _ _ _ Hobj'). rewrite <- app_assoc. cbn [app].
    replace (Z.to_nat (j + 1)) with (S (Z.to_nat j)) by lia. reflexivity.
Qed.

(** The occupied slots of a shard in shape are its first [ntasks] slots. *)
Lemma occupied_slots (ts : list (option ptr)) : forall n : nat,
  (forall i, (i < n)%nat -> exists t, ts !! i = Some (Some t)) ->
  (forall i, (n <= i < length ts)%nat -> ts !! i = Some None) ->
  take n ts = Some <$> omap id ts.
Proof.
  induction ts as [|x ts IH]; intros n Hocc Hfree; [destruct n; reflexivity|].
  destruct n as [|n].
  - cbn [take]. assert (Hx : x = None).
    { specialize (Hfree 0%nat ltac:(cbn; lia)). injection Hfree as ->. reflexivity. }
    rewrite Hx. change (take 0 (None :: ts)) with (take 0 ts).
    change (omap id (None :: ts)) with (omap id ts). apply (IH 0%nat).
    + intros i Hi. lia.
    + intros i Hi. apply (Hfree (S i)). cbn. lia.
  - destruct (Hocc 0%nat ltac:(lia)) as [t Ht]. injection Ht as ->.
    change (omap id (Some t :: ts)) with (t :: omap id ts).
    rewrite fmap_cons. cbn [take]. f_equal. apply IH.
    + intros i Hi. apply (Hocc (S i)). lia.
    + intros i Hi. apply (Hfree (S i)). cbn. lia.
Qed.

Lemma shape_ok_occupied (h : taskheap_t) :
  shape_ok h -> take (Z.to_nat (ntasks h)) (tasks h) = Some <$> contents h.
Proof.
  intros (Hlen & Hn & Hocc & Hfree). apply occupied_slots.
  - intros i Hi. specialize (Hocc (Z.of_nat i) ltac:(lia)).
    rewrite Nat2Z.id in Hocc. exact Hocc.
  - intros i Hi. specialize (Hfree (Z.of_nat i) ltac:(lia)).
    rewrite Nat2Z.id in Hfree. exact Hfree.
Qed.

Lemma mark_heaps_from_spec (n : nat) : forall (s : sched) (i : Z) marked,
  heaps_allocated s -> (forall h, h ∈ heaps s -> shape_ok h) ->
  0 <= i -> i + Z.of_nat n = heap_p s ->
  mark_heaps_from n s i marked =
  Done (marked ++ (Some <$> concat (map contents (drop (Z.to_nat i) (heaps s))))).
Proof.
  induction n as [|n IH]; intros s i marked Halloc Hok Hi Hn;
    pose proof Halloc as [Hb Hlen].
  - cbn [mark_heaps_from].
    replace (i <? heap_p s) with false by (symmetry; apply Z.ltb_ge; lia).
    rewrite drop_ge by lia. cbn. rewrite app_nil_r. reflexivity.
  - cbn [mark_heaps_from].
    replace (i <? heap_p s) with true by (symmetry; apply Z.ltb_lt; lia).
    destruct (load_in_range (heaps s) i) as [h Hh]; [lia|].
    rewrite Hh. cbn [mbind result_bind]. apply load_Done in Hh as [_ Hh].
    assert (Hshape : shape_ok h) by (eapply Hok, list_elem_of_lookup_2, Hh).
    pose proof Hshape as (Hl & Hnb & _). unfold tasks_per_heap in *.
    rewrite mark_tasks_from_spec by (unfold INT16_MAX; lia).
    cbn [mbind result_bind]. change (Z.to_nat 0) with 0%nat. rewrite drop_0.
    rewrite (shape_ok_occupied h Hshape).
    rewrite int16_id by (unfold in_int16, INT16_MIN, INT16_MAX in *; lia).
    rewrite IH by (try assumption; lia).
    rewrite (drop_S _ _ _ Hh). cbn [map concat]. rewrite fmap_app, <- app_assoc.
    replace (Z.to_nat (i + 1)) with (S (Z.to_nat i)) by lia. reflexivity.
Qed.

(** X20: with the shards in shape, [jl_gc_mark_enqueued_tasks] hands the
    collector the enqueued tasks, shard by shard and slot by slot: each
    task once for each slot that holds it, no [NULL] and nothing else. *)
Theorem jl_gc_mark_enqueued_tasks_marks_enqueued (s : sched) :
  heaps_allocated s -> (forall h, h ∈ heaps s -> shape_ok h) ->
  jl_gc_mark_enqueued_tasks s = Done (Some <$> enqueued s).
Proof.
  intros Halloc Hok. unfold jl_gc_mark_enqueued_tasks.
  rewrite mark_heaps_from_spec; [reflexivity | exact Halloc | exact Hok | lia |].
  destruct Halloc as [Hb _]. lia.
Qed.

Lemma start_threads_spec (n : nat) : forall (s : sched) (w : Z),
  0 <= w -> w + Z.of_nat n <= Z.of_nat (length (all_sleep_states s)) ->
  exists s',
    start_threads n s w = Done s' /\
    length (all_sleep_states s') = length (all_sleep_states s) /\
    jl_n_threads s' = jl_n_threads s /\
    (forall v, w <= v < w + Z.of_nat n ->
       all_sleep_states s' !! Z.to_nat v = Some (Some {| sleep_lock := false |})) /\
    (forall v, 0 <= v -> ~ (w <= v < w + Z.of_nat n) ->
       all_sleep_states s' !! Z.to_nat v = all_sleep_states s !! Z.to_nat v).
Proof.
  induction n as [|n IH]; intros s w Hw Hlen.
  - exists s. split; [reflexivity|]. split; [reflexivity|]. split; [reflexivity|].
    split; [intros v Hv; lia | auto].
  - cbn [start_threads]. unfold jl_threadfun_sleep_setup.
    cbn [on_thread all_sleep_states ptls tls_tid].
    rewrite store_in_range by lia. cbn [mbind result_bind].
    set (s1 := set_all_sleep_states _ _).
    destruct (IH s1 (w + 1)) as (s' & Hrun & Hl' & Hn' & Hset & Hkeep); [lia| |].
    { unfold s1. cbn [set_all_sleep_states all_sleep_states]. rewrite length_insert. lia. }
    exists s'. split; [exact Hrun|].
    unfold s1 in Hl', Hn', Hkeep. cbn [set_all_sleep_states all_sleep_states jl_n_threads on_thread] in Hl', Hn', Hkeep.
    rewrite length_insert in Hl'.
    split; [exact Hl'|]. split; [exact Hn'|]. split.
    + intros v Hv. destruct (Z.eq_dec v w) as [->|Hne].
      * rewrite Hkeep by lia. apply list_lookup_insert_eq. lia.
      * apply Hset. lia.
    + intros v Hv Hout. rewrite Hkeep by lia.
      apply list_lookup_insert_ne. lia.
Qed.

End MarkingFacts.

(** * Initialisation, parking and the acquisition loop *)

Lemma tolower_code (c d : ascii) :
  char_code (tolower c) - char_code d = 0 -> tolower c = d.
Proof.
  unfold char_code. intros H.
  rewrite <- (ascii_nat_embedding (tolower c)), <- (ascii_nat_embedding d).
  f_equal. lia.
Qed.

(** [strncasecmp(cp, "infinite", 8)] is 0 exactly when [cp] starts with the
    eight letters, in either case. *)
Lemma strncasecmp_infinite_iff (cp : string) :
  strncasecmp cp "infinite" 8 = 0 <->
  exists v rest, cp = (v ++ rest)%string /\ lower v = "infinite"%string.
Proof.
  split.
  - intros H.
    do 8 (destruct cp as [|? cp]; [discriminate H|];
          cbn [strncasecmp] in H;
          match type of H with
          | (if ?d =? 0 then _ else _) = 0 =>
            let Hd := fresh "Hd" in
            destruct (Z.eqb_spec d 0) as [Hd|Hd]; [apply tolower_code in Hd | contradiction]
          end).
    eexists (String _ (String _ (String _ (String _ (String _ (String _ (String _ (String _ EmptyString)))))))), cp.
    split; [reflexivity|]. unfold lower. cbn [list_ascii_of_string map string_of_list_ascii].
    repeat match goal with Hc : tolower _ = _ |- _ => rewrite Hc; clear Hc end.
    reflexivity.
  - intros (v & rest & -> & H). unfold lower in H.
    do 8 (destruct v as [|? v]; [discriminate H|];
          cbn [list_ascii_of_string map string_of_list_ascii] in H; injection H as ? H).
    destruct v as [|? v]; [|discriminate H].
    cbn [append strncasecmp]. unfold char_code.
    repeat match goal with Hc : tolower _ = _ |- _ => rewrite Hc; clear Hc end.
    destruct rest; reflexivity.
Qed.

Section AcquisitionMore.
Context {R : Rng} {E : Env}.

(** X21: [jl_init_threadinginfra] leaves the controller active, the
    multi-queue empty and only the park slot of thread 0 allocated; without
    the environment variable the threshold is the default.  Once the threads
    1 to [jl_n_threads - 1] have run the start of [jl_threadfun], every park
    slot is allocated, so that whichever thread calls [jl_wakeup_thread]
    finds the slots of the others. *)
Theorem threads_started_park_slots_ready (pre : sched) (cp : option string) :
  0 < jl_n_threads pre -> heap_c * jl_n_threads pre <= INT16_MAX ->
  exists s0 s1,
    jl_init_threadinginfra pre cp = Done s0 /\
    sleep_check_state s0 = not_sleeping /\
    quiet s0 0 /\ enqueued s0 = [] /\
    (cp = None -> sleep_threshold s0 = DEFAULT_THREAD_SLEEP_THRESHOLD) /\
    all_sleep_states s0 =
      Some {| sleep_lock := false |} :: replicate (Z.to_nat (jl_n_threads pre) - 1) None /\
    start_threads (Z.to_nat (jl_n_threads pre) - 1) s0 1 = Done s1 /\
    forall w, park_slots_ready (on_thread s1 w).
Proof.
  intros Hn Hmax. unfold heap_c, INT16_MAX in Hmax.
  unfold jl_init_threadinginfra.
  change (jl_n_threads (multiq_init pre)) with (jl_n_threads pre).
  rewrite store_in_range by (rewrite length_replicate; lia).
  cbn [mbind result_bind]. set (s0 := Build_sched _ _ _ _ _ _ _ _ _ _ _ _).
  assert (Hslots0 : all_sleep_states s0 =
            Some {| sleep_lock := false |} :: replicate (Z.to_nat (jl_n_threads pre) - 1) None).
  { unfold s0. cbn [all_sleep_states]. change (Z.to_nat 0) with 0%nat.
    destruct (Z.to_nat (jl_n_threads pre)) as [|k] eqn:Hk; [lia|].
    cbn. rewrite Nat.sub_0_r. reflexivity. }
  assert (Hq0 : quiet s0 0).
  { destruct (multiq_init_quiet pre) as [Halloc Hq]; [unfold heap_c, INT16_MAX; lia|].
    split; [exact Halloc | exact Hq]. }
  destruct (start_threads_spec (Z.to_nat (jl_n_threads pre) - 1) s0 1)
    as (s1 & Hrun & Hlen & Hn1 & Hset & Hkeep); [lia| |].
  { rewrite Hslots0. cbn [length]. rewrite length_replicate. lia. }
  exists s0, s1. split; [reflexivity|]. split; [reflexivity|].
  split; [exact Hq0|]. split; [apply enqueued_empty, Hq0|].
  split; [intros ->; reflexivity|]. split; [exact Hslots0|]. split; [exact Hrun|].
  intros w. split.
  - cbn [on_thread jl_n_threads]. rewrite Hn1. unfold s0. cbn [jl_n_threads].
    change (jl_n_threads (multiq_init pre)) with (jl_n_threads pre). unfold INT16_MAX. lia.
  - cbn [on_thread jl_n_threads all_sleep_states ptls tls_tid]. rewrite Hn1.
    unfold s0 at 1. cbn [jl_n_threads].
    change (jl_n_threads (multiq_init pre)) with (jl_n_threads pre).
    intros v Hv _. destruct (Z.eq_dec v 0) as [->|Hv0].
    + rewrite Hkeep by lia. rewrite Hslots0. reflexivity.
    + apply Hset. lia.
Qed.

(** X22: the value of the environment variable.  Only its first eight
    characters are compared with "infinite": a value that starts with these
    letters, in either case, sets [sleep_threshold] to 0 whatever follows
    them; any other value is handed to [strtoull]. *)
Theorem sleep_threshold_from_environment (pre : sched) (cp : string) :
  0 < jl_n_threads pre ->
  exists s0,
    jl_init_threadinginfra pre (Some cp) = Done s0 /\
    ((exists v rest, cp = (v ++ rest)%string /\ lower v = "infinite"%string) ->
     sleep_threshold s0 = 0) /\
    (~ (exists v rest, cp = (v ++ rest)%string /\ lower v = "infinite"%string) ->
     sleep_threshold s0 = strtoull cp).
Proof.
  intros Hn. unfold jl_init_threadinginfra.
  change (jl_n_threads (multiq_init pre)) with (jl_n_threads pre).
  rewrite store_in_range by (rewrite length_replicate; lia).
  cbn [mbind result_bind]. eexists. split; [reflexivity|]. cbn [sleep_threshold].
  destruct (Z.eqb_spec (strncasecmp cp "infinite" 8) 0) as [Heq|Hne].
  - split; [reflexivity|]. intros Hno. exfalso. apply Hno, strncasecmp_infinite_iff, Heq.
  - split; [|reflexivity]. intros Hyes. exfalso. apply Hne, strncasecmp_infinite_iff, Hyes.
Qed.

(** X23: [sleep_check_after_threshold] returns 0 or 1.  It returns 1 only
    when the threshold is not zero, a start time had been recorded, at least
    [sleep_threshold] cycles have passed since, as a [uint64_t] difference,
    and the controller is left sleeping; the start time is then kept.  On
    the first call, with no start time, it records the clock and returns 0
    without looking at the controller.  It never changes the shards, the
    tasks or the trace. *)
Theorem sleep_check_after_threshold_says_yes (fuel : nat) (e e' : env_t) (s s' : sched)
    (start_cycles start' r : Z) :
  sleep_check_after_threshold fuel e s start_cycles = Done (s', e', start', r) ->
  (r = 0 \/ r = 1) /\
  (r = 1 ->
     sleep_threshold s <> 0 /\ start_cycles <> 0 /\
     sleep_threshold s <= uint64 (fst (jl_hrtime e) - start_cycles) /\
     sleep_check_state s' = sleeping /\ start' = start_cycles) /\
  (start_cycles = 0 -> sleep_threshold s <> 0 ->
     r = 0 /\ start' = fst (jl_hrtime e) /\ s' = s) /\
  heaps s' = heaps s /\ mem s' = mem s /\ trace s' = trace s.
Proof.
  unfold sleep_check_after_threshold.
  destruct (Z.eqb_spec (sleep_threshold s) 0) as [Hth|Hth]; cbn [negb].
  { intros [= <- _ <- <-]. split; [auto|]. split; [discriminate|].
    split; [intros _ H; contradiction | auto]. }
  destruct (jl_hrtime e) as [now e1]. cbn [fst].
  destruct (Z.eqb_spec start_cycles 0) as [Hst|Hst].
  { intros [= <- _ <- <-]. split; [auto|]. split; [discriminate|]. auto. }
  destruct (Z.leb_spec (sleep_threshold s) (uint64 (now - start_cycles))) as [Hel|Hel].
  - destruct (sleep_check_now fuel s) as [[s1 r1]| |] eqn:Hnow; cbn [mbind result_bind];
      try discriminate.
    apply sleep_check_now_result in Hnow as [[[-> Hs1]|[-> Hs1]] Heq]; cbn [Z.eqb negb].
    + intros [= <- _ <- <-]. split; [auto|].
      split; [intros _; repeat split; assumption|].
      split; [intros H; contradiction|]. rewrite Heq. auto.
    + intros [= <- _ <- <-]. split; [auto|]. split; [discriminate|].
      split; [intros H; contradiction|]. rewrite Heq. auto.
  - intros [= <- _ <- <-]. split; [auto|]. split; [discriminate|].
    split; [intros H; contradiction | auto].
Qed.

(** X24: the sticky hook comes first.  When it answers with a task,
    [get_next_task] returns that task without consulting the multi-queue:
    the shards and the generator are untouched whatever is enqueued, no
    priority changes, no other task changes, and a task that was unowned or
    the caller's is the caller's afterwards; [jl_task_get_next] returns it
    on its first turn. *)
Theorem get_next_task_sticky_first (fuel : nat) (e e1 : env_t) (s : sched) (t : ptr) :
  jl_apply_getsticky e = (Some t, e1) ->
  exists s',
    get_next_task fuel e s = Done (s', e1, Some t) /\
    jl_task_get_next (S fuel) e s = Done (s', e1, t) /\
    heaps s' = heaps s /\ ptls s' = ptls s /\ trace s' = trace s /\
    sleep_check_state s' = sleep_check_state s /\
    (forall q, prio (mem s' q) = prio (mem s q)) /\
    (forall q, q <> t -> mem s' q = mem s q) /\
    (tid (mem s t) = tls_tid (ptls s) \/ tid (mem s t) = -1 ->
     tid (mem s' t) = tls_tid (ptls s)).
Proof.
  intros Hhook.
  assert (Hget : forall f, get_next_task f e s =
            Done (if negb (tid (mem s t) =? tls_tid (ptls s))
                  then set_mem s (fst (cas_task_tid (mem s) t (-1) (tls_tid (ptls s))))
                  else s, e1, Some t)).
  { intros f. unfold get_next_task. rewrite Hhook. reflexivity. }
  eexists. split; [apply Hget|]. split.
  { unfold jl_task_get_next. cbn [jl_task_get_next_turns]. unfold jl_task_get_next_turn.
    rewrite Hget. reflexivity. }
  destruct (Z.eqb_spec (tid (mem s t)) (tls_tid (ptls s))) as [Hown|Hown]; cbn [negb].
  - repeat split; auto.
  - unfold cas_task_tid. destruct (Z.eqb_spec (tid (mem s t)) (-1)) as [Hfree|Hfree];
      cbn [fst set_mem heaps ptls trace sleep_check_state mem].
    + split; [reflexivity|]. split; [reflexivity|]. split; [reflexivity|].
      split; [reflexivity|]. split; [intros q; apply prio_set_task_tid|]. split.
      * intros q Hq. unfold set_task_tid.
        destruct (Pos.eqb_spec q t) as [Heq|_]; [contradiction | reflexivity].
      * intros _. apply set_task_tid_same.
    + split; [reflexivity|]. split; [reflexivity|]. split; [reflexivity|].
      split; [reflexivity|]. split; [reflexivity|]. split; [reflexivity|].
      intros [H|H]; contradiction.
Qed.

(** The events of a worker looking for a task. *)
Definition idle_event (self : Z) (ev : event) : Prop :=
  ev = JlProcessEvents \/ ev = UvRun \/ ev = UvCondWait self.

(** From [s] to [s'] the caller and the owner of the event-loop mutex are
    the same, the park slots and the threshold too, and the trace has grown
    by events of a worker looking for a task. *)
Definition idles (s s' : sched) : Prop :=
  tls_tid (ptls s') = tls_tid (ptls s) /\ jl_uv_mutex s' = jl_uv_mutex s /\
  all_sleep_states s' = all_sleep_states s /\ sleep_threshold s' = sleep_threshold s /\
  exists new, trace s' = new ++ trace s /\ Forall (idle_event (tls_tid (ptls s))) new.

Lemma idles_refl s : idles s s.
Proof. repeat split. exists []. split; [reflexivity | constructor]. Qed.

Lemma idles_trans s1 s2 s3 : idles s1 s2 -> idles s2 s3 -> idles s1 s3.
Proof.
  intros (H1 & H2 & H3 & H4 & n1 & H5 & H6) (G1 & G2 & G3 & G4 & n2 & G5 & G6).
  split; [congruence|]. split; [congruence|]. split; [congruence|]. split; [congruence|].
  exists (n2 ++ n1). split; [rewrite G5, H5, app_assoc; reflexivity|].
  apply Forall_app. split; [rewrite <- H1; exact G6 | exact H6].
Qed.

Lemma idles_outside s s' : outside s' = outside s -> idles s s'.
Proof.
  unfold outside. intros [= _ _ H1 _ H2 _ H3 _ H4 H5]. repeat split; try assumption.
  exists []. split; [exact H5 | constructor].
Qed.

Lemma idles_emit s ev : idle_event (tls_tid (ptls s)) ev -> idles s (emit s ev).
Proof.
  intros Hev. repeat split. exists [ev]. split; [reflexivity|].
  constructor; [exact Hev | constructor].
Qed.

Lemma idles_state s st : idles s (set_sleep_check_state s st).
Proof. repeat split. exists []. split; [reflexivity | constructor]. Qed.

Lemma idles_park (fuel : nat) : forall (e e' : env_t) (s s' : sched),
  park fuel e s = Done (s', e') ->
  idles s s' /\ sleep_check_state s' <> sleeping /\
  heaps s' = heaps s /\ mem s' = mem s /\
  (sleep_check_state s <> sleeping -> s' = s).
Proof.
  induction fuel as [|fuel IH]; intros e e' s s'; cbn [park].
  - destruct (Z.eqb_spec (sleep_check_state s) sleeping) as [Hs|Hs]; [discriminate|].
    intros [= <- _]. split; [apply idles_refl|]. auto.
  - destruct (Z.eqb_spec (sleep_check_state s) sleeping) as [Hs|Hs].
    + destruct (uv_cond_wait e) as [st e1]. intros H. apply IH in H as (H1 & H2 & H3 & H4 & _).
      split; [|split; [exact H2|split; [exact H3|split; [exact H4|intros; contradiction]]]].
      eapply idles_trans; [|exact H1].
      eapply idles_trans; [apply idles_emit | apply idles_state].
      right. right. reflexivity.
    + intros [= <- _]. split; [apply idles_refl|]. auto.
Qed.

(** X25: the worker parked on its slot.  The loop around [uv_cond_wait]
    returns only with the controller no longer sleeping; it waits on the
    caller's own slot and does nothing else, and it does not wait at all
    when the controller is not sleeping on entry. *)
Theorem park_returns_awake (fuel : nat) (e e' : env_t) (s s' : sched) :
  park fuel e s = Done (s', e') ->
  sleep_check_state s' <> sleeping /\
  (exists k, trace s' = replicate k (UvCondWait (tls_tid (ptls s))) ++ trace s) /\
  (sleep_check_state s <> sleeping -> s' = s /\ e' = e) /\
  heaps s' = heaps s /\ mem s' = mem s.
Proof.
  revert e s. induction fuel as [|fuel IH]; intros e s; cbn [park].
  - destruct (Z.eqb_spec (sleep_check_state s) sleeping) as [Hs|Hs]; [discriminate|].
    intros [= <- <-]. split; [exact Hs|]. split; [exists 0%nat; reflexivity|]. auto.
  - destruct (Z.eqb_spec (sleep_check_state s) sleeping) as [Hs|Hs].
    + destruct (uv_cond_wait e) as [st e1]. intros H.
      apply IH in H as (H1 & [k H2] & _ & H3 & H4).
      split; [exact H1|]. split.
      * exists (S k). rewrite H2. cbn [set_sleep_check_state emit trace ptls tls_tid].
        rewrite replicate_S_end, <- app_assoc. reflexivity.
      * split; [intros; contradiction|]. auto.
    + intros [= <- <-]. split; [exact Hs|]. split; [exists 0%nat; reflexivity|]. auto.
Qed.

Lemma idles_get_next_task fuel e s s' e' r :
  get_next_task fuel e s = Done (s', e', r) -> idles s s'.
Proof. intros H. apply idles_outside. eapply outside_get_next_task, H. Qed.

Lemma idles_sleep_check_after_threshold fuel e s start s' e' start' r :
  sleep_check_after_threshold fuel e s start = Done (s', e', start', r) -> idles s s'.
Proof.
  unfold sleep_check_after_threshold. destruct (negb _); [|intros [= <- _ _ _]; apply idles_refl].
  destruct (jl_hrtime e) as [now e1].
  destruct (start =? 0); [intros [= <- _ _ _]; apply idles_refl|].
  destruct (_ <=? _); [|intros [= <- _ _ _]; apply idles_refl].
  destruct (sleep_check_now fuel s) as [[s1 r1]| |] eqn:Hnow; cbn [mbind result_bind];
    try discriminate.
  apply sleep_check_now_result in Hnow as [_ Heq].
  destruct (negb _); intros [= <- _ _ _]; rewrite Heq; apply idles_state.
Qed.

Lemma idles_uv_run s :
  idles s (set_jl_uv_mutex (emit (set_jl_uv_mutex s (Some (tls_tid (ptls s)))) UvRun)
             (jl_uv_mutex s)).
Proof.
  repeat split. exists [UvRun]. split; [reflexivity|].
  constructor; [right; left; reflexivity | constructor].
Qed.

Lemma idles_turn fuel e s spin_count start_cycles s' e' r :
  jl_task_get_next_turn fuel e s spin_count start_cycles = Done (s', e', r) -> idles s s'.
Proof.
  unfold jl_task_get_next_turn.
  destruct (get_next_task fuel e s) as [[[s1 e1] [t1|]]| |] eqn:H1;
    cbn [mbind result_bind]; try discriminate.
  { intros [= <- _ _]. eapply idles_get_next_task, H1. }
  apply idles_get_next_task in H1.
  (* the events are drained after 1000 turns *)
  remember (if (1000 <? spin_count + 1) && (jl_uv_n_waiters s1 =? 0)
            then '(s, e, task) ← get_next_task fuel e1 (emit s1 JlProcessEvents);
                 Done (s, e, 0, task)
            else Done (s1, e1, spin_count + 1, None)) as drain eqn:Hdef.
  assert (H2 : forall s2 e2 sp task, drain = Done (s2, e2, sp, task) -> idles s s2).
  { intros s2 e2 sp task. rewrite Hdef. destruct (_ && _).
    - destruct (get_next_task fuel e1 (emit s1 JlProcessEvents)) as [[[s3 e3] task3]| |] eqn:H3;
        cbn [mbind result_bind]; try discriminate.
      intros [= <- _ _ _]. apply idles_get_next_task in H3.
      eapply idles_trans; [exact H1|]. eapply idles_trans; [|exact H3].
      apply idles_emit. left. reflexivity.
    - intros [= <- _ _ _]. exact H1. }
  clear Hdef.
  destruct drain as [[[[s2 e2] sp] task]| |]; cbn [mbind result_bind]; try discriminate.
  pose proof (H2 _ _ _ _ eq_refl) as Hdrain. clear H2 H1.
  destruct task as [t|]; [intros [= <- _ _]; exact Hdrain|].
  destruct (sleep_check_after_threshold fuel e2 s2 start_cycles)
    as [[[[s3 e3] st3] r3]| |] eqn:H3; cbn [mbind result_bind]; try discriminate.
  apply idles_sleep_check_after_threshold in H3.
  assert (H03 : idles s s3) by (eapply idles_trans; eassumption). clear Hdrain H3.
  destruct (negb (r3 =? 0)); [|intros [= <- _ _]; exact H03].
  destruct (get_next_task fuel e3 s3) as [[[s4 e4] [t4|]]| |] eqn:H4;
    cbn [mbind result_bind]; try discriminate.
  { intros [= <- _ _]. eapply idles_trans; [exact H03|]. eapply idles_get_next_task, H4. }
  apply idles_get_next_task in H4.
  assert (H04 : idles s s4) by (eapply idles_trans; eassumption). clear H03 H4.
  assert (Hself : tls_tid (ptls s4) = tls_tid (ptls s)) by apply H04.
  set (free := match jl_uv_mutex s4 with None => true | Some owner => owner =? tls_tid (ptls s4) end).
  destruct free.
  - set (s5 := set_jl_uv_mutex _ (jl_uv_mutex s4)).
    assert (H05 : idles s s5) by (eapply idles_trans; [exact H04 | apply idles_uv_run]).
    destruct (get_next_task fuel e4 s5) as [[[s6 e6] [t6|]]| |] eqn:H6;
      cbn [mbind result_bind]; try discriminate.
    { intros [= <- _ _]. eapply idles_trans; [exact H05|]. eapply idles_get_next_task, H6. }
    apply idles_get_next_task in H6.
    assert (H06 : idles s s6) by (eapply idles_trans; eassumption).
    destruct (negb (sleep_check_state s6 =? sleeping)); [intros [= <- _ _]; exact H06|].
    destruct (load (all_sleep_states s6) (tls_tid (ptls s4))) as [[slot|]| |];
      cbn [mbind result_bind]; try discriminate.
    destruct (sleep_lock slot); [discriminate|].
    destruct (park fuel e6 s6) as [[s7 e7]| |] eqn:H7; cbn [mbind result_bind];
      try discriminate.
    intros [= <- _ _]. apply idles_park in H7 as [H7 _].
    eapply idles_trans; eassumption.
  - cbn [mbind result_bind].
    destruct (load (all_sleep_states s4) (tls_tid (ptls s4))) as [[slot|]| |];
      cbn [mbind result_bind]; try discriminate.
    destruct (sleep_lock slot); [discriminate|].
    destruct (park fuel e4 s4) as [[s7 e7]| |] eqn:H7; cbn [mbind result_bind];
      try discriminate.
    intros [= <- _ _]. apply idles_park in H7 as [H7 _].
    eapply idles_trans; eassumption.
Qed.

Lemma idles_turns (k : nat) : forall fuel e s spin_count start_cycles s' e' r,
  jl_task_get_next_turns k fuel e s spin_count start_cycles = Done (s', e', r) -> idles s s'.
Proof.
  induction k as [|k IH]; intros fuel e s sp st s' e' r; cbn [jl_task_get_next_turns].
  - intros [= <- _ _]. apply idles_refl.
  - destruct (jl_task_get_next_turn fuel e s sp st) as [[[s1 e1] r1]| |] eqn:H1;
      cbn [mbind result_bind]; try discriminate.
    apply idles_turn in H1. destruct r1 as [t|sp1 st1].
    + intros [= <- _ _]. exact H1.
    + intros H. apply IH in H. eapply idles_trans; eassumption.
Qed.

(** X26: what a worker does while it looks for a task.  Whenever
    [jl_task_get_next] returns, all it has added to the trace is the
    draining of events, runs of the event loop and waits on the caller's own
    park slot: it has signalled no thread and waited on no other slot; the
    mutex of the event loop is back with the owner it had, and the park
    slots and the threshold are as before. *)
Theorem jl_task_get_next_events (fuel : nat) (e e' : env_t) (s s' : sched) (t : ptr) :
  jl_task_get_next fuel e s = Done (s', e', t) ->
  tls_tid (ptls s') = tls_tid (ptls s) /\ jl_uv_mutex s' = jl_uv_mutex s /\
  all_sleep_states s' = all_sleep_states s /\ sleep_threshold s' = sleep_threshold s /\
  exists new, trace s' = new ++ trace s /\
    forall ev, ev ∈ new ->
      ev = JlProcessEvents \/ ev = UvRun \/ ev = UvCondWait (tls_tid (ptls s)).
Proof.
  unfold jl_task_get_next.
  destruct (jl_task_get_next_turns fuel fuel e s 0 0) as [[[s1 e1] r1]| |] eqn:H1;
    cbn [mbind result_bind]; try discriminate.
  apply idles_turns in H1. destruct r1 as [t1|]; [|discriminate].
  intros [= <- _ _]. destruct H1 as (G1 & G2 & G3 & G4 & new & G5 & G6).
  repeat split; try assumption. exists new. split; [exact G5|].
  intros ev Hev. rewrite Forall_forall in G6. exact (G6 ev Hev).
Qed.

Lemma wake_threads_from_state (n : nat) : forall (s s' : sched) (t : Z),
  wake_threads_from n s t = Done s' -> sleep_check_state s' = sleep_check_state s.
Proof.
  induction n as [|n IH]; intros s s' t; cbn [wake_threads_from].
  - destruct (t <? jl_n_threads s); [discriminate|]. intros [= <-]. reflexivity.
  - destruct (t <? jl_n_threads s); [|intros [= <-]; reflexivity].
    destruct (wake_thread s t) as [s1| |] eqn:H1; cbn [mbind result_bind]; try discriminate.
    intros H. apply IH in H. rewrite H. unfold wake_thread in H1.
    destruct (negb _); [|injection H1 as <-; reflexivity].
    destruct (load _ t) as [[slot|]| |]; cbn [mbind result_bind] in H1; try discriminate.
    destruct (sleep_lock slot); [discriminate|]. injection H1 as <-. reflexivity.
Qed.

(** X27: a wake-up that comes before the wait is not lost.  After
    [jl_wakeup_thread] by a thread other than the target has returned, the
    controller is active, and a worker that reaches the loop around
    [uv_cond_wait] then, having decided to sleep earlier, leaves it at once
    without waiting. *)
Theorem wakeup_before_wait_is_not_lost (s s' : sched) (t : Z) :
  jl_wakeup_thread s t = Done s' -> t <> tls_tid (ptls s) ->
  sleep_check_state s' = not_sleeping /\
  forall (w : Z) (fuel : nat) (e : env_t),
    park fuel e (on_thread s' w) = Done (on_thread s' w, e).
Proof.
  intros H Ht.
  assert (Hst : sleep_check_state s' = not_sleeping).
  { unfold jl_wakeup_thread in H.
    replace (negb (t =? tls_tid (ptls s))) with true in H
      by (symmetry; apply negb_true_iff, Z.eqb_neq, Ht).
    destruct (if _ && _ then _ else _) as [s1| |] eqn:H1; cbn [mbind result_bind] in H;
      try discriminate.
    assert (Hs1 : sleep_check_state s1 = not_sleeping).
    { destruct (_ && _).
      - apply wake_threads_from_state in H1. exact H1.
      - injection H1 as <-. reflexivity. }
    destruct (jl_uv_mutex s1) as [o|]; [destruct (o =? _)|]; injection H as <-; exact Hs1. }
  split; [exact Hst|]. intros w fuel e.
  destruct fuel as [|fuel]; cbn [park on_thread sleep_check_state]; rewrite Hst; reflexivity.
Qed.

End AcquisitionMore.

(** * More concrete runs *)

Section MoreRuns.

#[local] Existing Instance replay_rng.
#[local] Existing Instance replay_env.

(** ** The sifts *)

(** Task [t] has priority [t - 1], but for task 10, of priority -1. *)
Definition light_last : memory :=
  fun t => {| prio := if Pos.eqb t 10 then -1 else Z.pos t - 1; tid := -1 |}.

(** Task [t] has priority [t - 1], but for task 1, of priority 100. *)
Definition heavy_first : memory :=
  fun t => {| prio := if Pos.eqb t 1 then 100 else Z.pos t - 1; tid := -1 |}.

Lemma filled_10_shape : shape_ok (filled 10).
Proof. apply filled_shape. vm_compute. lia. Qed.

Ltac slot_cases i :=
  repeat match goal with
  | H : _ <= i < _ |- _ =>
    let Hi := fresh in
    assert (Hi : i = 0 \/ i = 1 \/ i = 2 \/ i = 3 \/ i = 4 \/ i = 5 \/ i = 6 \/ i = 7 \/
                 i = 8 \/ i = 9) by lia; clear H;
    repeat (destruct Hi as [Hi|Hi]; [subst i|]); [..|subst i]
  | H : _ < i < _ |- _ =>
    let Hi := fresh in
    assert (Hi : i = 1 \/ i = 2 \/ i = 3 \/ i = 4 \/ i = 5 \/ i = 6 \/ i = 7 \/
                 i = 8 \/ i = 9) by lia; clear H;
    repeat (destruct Hi as [Hi|Hi]; [subst i|]); [..|subst i]
  end.

Lemma sift_up_restores_order_witness :
  exists h',
    sift_up light_last (filled 10) 9 = Done h' /\
    heap_ordered light_last (tasks h') (ntasks h') /\
    key light_last (tasks h') 0 = -1.
Proof.
  destruct (sift_up_restores_order light_last (filled 10) 9 filled_10_shape)
    as (h' & Hrun & _ & _ & _ & _ & _ & Hord & Hroot).
  - vm_compute. split; [discriminate | reflexivity].
  - intros i Hi Hne. change (ntasks (filled 10)) with 10 in Hi.
    slot_cases i; try (vm_compute; discriminate). contradiction.
  - intros c Hc Hpar. change (ntasks (filled 10)) with 10 in Hc.
    unfold parent, heap_d in Hpar. exfalso. zlia.
  - exists h'. split; [exact Hrun|]. split; [exact Hord|]. rewrite Hroot. reflexivity.
Defined.

Lemma sift_down_restores_order_witness :
  exists h',
    sift_down heavy_first (filled 10) 0 = Done h' /\
    tasks h' ≡ₚ tasks (filled 10) /\
    forall i, 0 < i < 10 -> key heavy_first (tasks h') (parent i) <= key heavy_first (tasks h') i.
Proof.
  destruct (sift_down_restores_order heavy_first (filled 10) 0 filled_10_shape)
    as (h' & Hrun & _ & _ & _ & _ & Hperm & _ & Hord).
  - vm_compute. discriminate.
  - lia.
  - intros i Hi Hpar. change (ntasks (filled 10)) with 10 in Hi.
    slot_cases i; try (vm_compute; discriminate); vm_compute in Hpar; discriminate Hpar.
  - exists h'. split; [exact Hrun|]. split; [exact Hperm|].
    intros i Hi. apply Hord; [exact Hi|].
    unfold parent, heap_d. zlia.
Defined.

Lemma sift_down_child_index_overflow_witness :
  4096 <= 4681 < ntasks (filled 4683) /\ 4681 < tasks_per_heap /\
  int16 (heap_d * 4681 + 1) = -28087 /\ sift_down by_slot (filled 4683) 4681 = Fault.
Proof.
  assert (H1 : 4096 <= 4681 < ntasks (filled 4683))
    by (vm_compute; split; [discriminate | reflexivity]).
  assert (H2 : 4681 < tasks_per_heap) by reflexivity.
  split; [exact H1|]. split; [exact H2|]. split; [reflexivity|].
  exact (proj2 (sift_down_child_index_overflow by_slot (filled 4683) 4681 H1 H2)).
Defined.

(** ** The multi-queue *)

Lemma fresh_quiet seed : quiet (fresh seed) 0.
Proof. apply multiq_init_quiet. split; discriminate. Qed.

Lemma multiq_init_empty_witness :
  0 <= heap_c * jl_n_threads (boot unowned 1 0 []) <= INT16_MAX /\
  heap_p (fresh []) = 4 /\ Z.of_nat (length (heaps (fresh []))) = 4 /\
  multiq_ok (fresh []) /\ enqueued (fresh []) = [].
Proof.
  assert (H : 0 <= heap_c * jl_n_threads (boot unowned 1 0 []) <= INT16_MAX)
    by (split; discriminate).
  split; [exact H|].
  destruct (multiq_init_empty (boot unowned 1 0 []) H) as (H1 & H2 & _ & H3 & H4 & _).
  split; [exact H1|]. split; [exact H2|]. split; [exact H3 | exact H4].
Defined.

Lemma multiq_insert_records_priority_witness :
  multiq_insert 1 (fresh [3]) 1%positive 5 = Done (one_task, Returned 0) /\
  prio (mem one_task 1%positive) = 5 /\ tid (mem one_task 1%positive) = -1 /\
  trace one_task = [].
Proof.
  split; [exact one_task_run|].
  destruct (multiq_insert_records_priority 1 (fresh [3]) one_task 1%positive 5 (Returned 0)
              one_task_run) as (H1 & H2 & _ & _ & _ & H3).
  split; [exact H1|]. split; [rewrite H2; reflexivity | rewrite H3; reflexivity].
Defined.

Lemma multiq_insert_enqueues_witness :
  quiet (fresh [3]) 0 /\
  exists s', multiq_insert 1 (fresh [3]) 1%positive 5 = Done (s', Returned 0) /\
    enqueued s' ≡ₚ [1%positive].
Proof.
  split; [apply fresh_quiet|].
  destruct (multiq_insert_enqueues 0 (fresh [3]) 0 1%positive 5 (fresh_quiet [3]))
    as (s' & Hrun & Hperm & _).
  - reflexivity.
  - reflexivity.
  - discriminate.
  - right. reflexivity.
  - exists s'. split; [exact Hrun|]. rewrite Hperm, (enqueued_empty _ (fresh_quiet [3])).
    reflexivity.
Defined.

(** Four shards, all locked by other threads. *)
Definition jammed : sched :=
  set_heaps (fresh [2; 1]) (replicate 4 (set_lock empty_heap true)).

Lemma multiq_insert_all_locked_spins_witness :
  heaps_allocated jammed /\ 0 < heap_p jammed /\
  (forall h, h ∈ heaps jammed -> lock h = true) /\
  multiq_insert 1000 jammed 1%positive 5 = Timeout.
Proof.
  assert (H1 : heaps_allocated jammed) by (split; [split; discriminate | reflexivity]).
  assert (H2 : 0 < heap_p jammed) by reflexivity.
  assert (H3 : forall h, h ∈ heaps jammed -> lock h = true).
  { intros h Hh. apply elem_of_replicate_inv in Hh. rewrite Hh. reflexivity. }
  split; [exact H1|]. split; [exact H2|]. split; [exact H3|].
  exact (multiq_insert_all_locked_spins 1000 jammed 1%positive 5 H1 H2 H3).
Defined.

Lemma jl_enqueue_task_keeps_tasks_witness :
  exists s', jl_enqueue_task 1 (fresh [3]) 1%positive = Done (s', Returned tt) /\
    enqueued s' ≡ₚ [1%positive] /\ prio (mem s' 1%positive) = 1.
Proof.
  destruct (jl_enqueue_task_keeps_tasks 0 (fresh [3]) 0 1%positive (fresh_quiet [3]))
    as (s' & Hrun & Hperm & Hmem).
  - reflexivity.
  - reflexivity.
  - discriminate.
  - right. reflexivity.
  - exists s'. split; [exact Hrun|]. split.
    + rewrite Hperm, (enqueued_empty _ (fresh_quiet [3])). reflexivity.
    + rewrite Hmem. reflexivity.
Defined.

(** Task 1 inserted with priority 5 in shard 3; the generator will draw
    shard 3 again. *)
Definition seeded : sched :=
  match multiq_insert 1 (fresh [3; 3]) 1%positive 5 with
  | Done (s, _) => s
  | _ => fresh []
  end.

Lemma seeded_run :
  multiq_insert 1 (fresh [3; 3]) 1%positive 5 = Done (seeded, Returned 0).
Proof. vm_compute. reflexivity. Qed.

Lemma seeded_quiet : quiet seeded 1.
Proof.
  destruct (multiq_insert_quiet 0 (fresh [3; 3]) 0 1%positive 5 (fresh_quiet _))
    as (s' & Hrun & Hq & _); [reflexivity | reflexivity | discriminate | right; reflexivity |].
  rewrite seeded_run in Hrun. injection Hrun as <-. exact Hq.
Qed.

Lemma seeded_ordered : heaps_ordered seeded.
Proof.
  intros h Hh _. destruct seeded_quiet as [_ Hq]. destruct (Hq h Hh) as (_ & Hok & Hn & _).
  split; [exact Hok|]. intros i Hi. lia.
Qed.

(** The state after the extraction. *)
Definition taken : sched :=
  match multiq_deletemin 1 seeded with
  | Done (s, _) => s
  | _ => fresh []
  end.

Lemma taken_run : multiq_deletemin 1 seeded = Done (taken, Some 1%positive).
Proof. vm_compute. reflexivity. Qed.

Lemma multiq_deletemin_claims_task_witness :
  multiq_deletemin 1 seeded = Done (taken, Some 1%positive) /\
  tid (mem seeded 1%positive) = -1 /\ tid (mem taken 1%positive) = 0.
Proof.
  split; [exact taken_run|]. split; [reflexivity|].
  destruct (multiq_deletemin_claims_task 1 seeded taken 1%positive taken_run)
    as (_ & H & _).
  rewrite H. reflexivity.
Defined.

Lemma multiq_deletemin_returns_shard_minimum_witness :
  0 <= heap_p seeded <= INT16_MAX /\ heaps_ordered seeded /\
  exists rn h h',
    heaps seeded !! rn = Some h /\ tasks h !! 0%nat = Some (Some 1%positive) /\
    heaps taken = <[rn := h']> (heaps seeded) /\ ntasks h' = ntasks h - 1.
Proof.
  assert (H1 : 0 <= heap_p seeded <= INT16_MAX) by (split; discriminate).
  split; [exact H1|]. split; [exact seeded_ordered|].
  destruct (multiq_deletemin_returns_shard_minimum 1 seeded taken 1%positive H1
              seeded_ordered taken_run) as (rn & h & h' & G1 & _ & G2 & _ & G3 & _ & G4 & _).
  exists rn, h, h'. auto.
Defined.

(** The multi-queue [seeded], its one task owned by worker 3; the caller is
    worker 0. *)
Definition foreign : sched := set_mem seeded owned_by_3.

Definition foreign_shard : taskheap_t := default empty_heap (heaps foreign !! 3%nat).

Definition passed : sched :=
  match multiq_deletemin 2 foreign with
  | Done (s, _) => s
  | _ => fresh []
  end.

Lemma passed_run : multiq_deletemin 2 foreign = Done (passed, None).
Proof. vm_compute. reflexivity. Qed.

Lemma multiq_deletemin_respects_affinity_witness :
  multiq_deletemin 2 foreign = Done (passed, None) /\
  heaps foreign !! 3%nat = Some foreign_shard /\
  tasks foreign_shard !! 0%nat = Some (Some 1%positive) /\
  tid (mem foreign 1%positive) = 3 /\ tls_tid (ptls foreign) = 0 /\
  heaps passed !! 3%nat = Some foreign_shard /\ tid (mem passed 1%positive) = 3.
Proof.
  assert (H1 : heaps foreign !! 3%nat = Some foreign_shard) by reflexivity.
  assert (H2 : tasks foreign_shard !! 0%nat = Some (Some 1%positive)) by reflexivity.
  split; [exact passed_run|]. split; [exact H1|]. split; [exact H2|].
  split; [reflexivity|]. split; [reflexivity|].
  destruct (multiq_deletemin_respects_affinity 2 foreign passed None 3 foreign_shard 1%positive)
    as (_ & G1 & G2); [split; discriminate | exact passed_run | exact H1 | exact H2
                      | discriminate | discriminate |].
  split; [exact G1 | rewrite G2; reflexivity].
Defined.

Definition seeded_shard (i : nat) : taskheap_t := default empty_heap (heaps seeded !! i).

Lemma multiq_deletemin_two_choices_witness :
  quiet seeded 1 /\
  heaps seeded !! Z.to_nat (fst (draw seeded)) = Some (seeded_shard 3) /\
  heaps seeded !! Z.to_nat (fst (draw (snd (draw seeded)))) = Some (seeded_shard 0) /\
  heap_prio (seeded_shard 3) = 5 /\ heap_prio (seeded_shard 0) = INT16_MAX /\
  exists s' h',
    multiq_deletemin 1 seeded = Done (s', Some 1%positive) /\
    heaps s' = <[3%nat := h']> (heaps seeded) /\ ntasks h' = 0.
Proof.
  assert (H1 : heaps seeded !! Z.to_nat (fst (draw seeded)) = Some (seeded_shard 3))
    by (vm_compute; reflexivity).
  assert (H2 : heaps seeded !! Z.to_nat (fst (draw (snd (draw seeded)))) = Some (seeded_shard 0))
    by (vm_compute; reflexivity).
  split; [exact seeded_quiet|]. split; [exact H1|]. split; [exact H2|].
  split; [reflexivity|]. split; [reflexivity|].
  destruct (multiq_deletemin_two_choices 0 seeded 1 (seeded_shard 3) (seeded_shard 0)
              seeded_quiet ltac:(lia) ltac:(reflexivity) H1 H2) as [_ Hfirst].
  destruct Hfirst as (s' & t & h' & Hrun & Hroot & Hheaps & Hn & _).
  - vm_compute. discriminate.
  - vm_compute. discriminate.
  - assert (Ht : t = 1%positive).
    { vm_compute in Hroot. injection Hroot as <-. reflexivity. }
    subst t. exists s', h'. split; [exact Hrun|]. split; [exact Hheaps|].
    rewrite Hn. reflexivity.
Defined.

Lemma insert_then_deletemin_returns_task_witness :
  quiet (fresh [3; 3]) 0 /\
  exists s1 s2,
    multiq_insert 1 (fresh [3; 3]) 1%positive 5 = Done (s1, Returned 0) /\
    multiq_deletemin 1 s1 = Done (s2, Some 1%positive) /\ enqueued s2 = [].
Proof.
  split; [apply fresh_quiet|].
  destruct (insert_then_deletemin_returns_task 0 (fresh [3; 3]) 1%positive 5 (fresh_quiet _))
    as (s1 & Hrun & Hnext); [reflexivity | reflexivity | right; reflexivity |].
  assert (Hs1 : s1 = seeded).
  { rewrite seeded_run in Hrun. injection Hrun as <-. reflexivity. }
  destruct Hnext as (s2 & Hrun2 & Hnil & _); [left; rewrite Hs1; reflexivity|].
  exists s1, s2. auto.
Defined.

Lemma lowest_priority_task_is_stranded_witness :
  quiet (fresh [3]) 0 /\
  exists s1,
    multiq_insert 1 (fresh [3]) 1%positive INT16_MAX = Done (s1, Returned 0) /\
    enqueued s1 ≡ₚ [1%positive] /\
    (exists s2, extract_n 1 5 s1 = Done (s2, [None; None; None; None; None])) /\
    exists s3, sleep_check_now 1 s1 = Done (s3, 0).
Proof.
  split; [apply fresh_quiet|].
  destruct (lowest_priority_task_is_stranded 0 (fresh [3]) 1%positive (fresh_quiet _))
    as (s1 & Hrun & Hperm & Hnever & s3 & Hsleep & _);
    [reflexivity | reflexivity | right; reflexivity |].
  exists s1. split; [exact Hrun|]. split; [exact Hperm|]. split.
  - destruct (Hnever 5%nat) as (s2 & H & _). exists s2. exact H.
  - exists s3. exact Hsleep.
Defined.

(** ** The sleep controller and the wake-up *)

Lemma sleep_check_now_agrees_witness :
  sleep_check_now 1 seeded = Done (seeded, 0) /\
  sleep_check_now 1 (fresh []) = Done (set_sleep_check_state (fresh []) sleeping, 1) /\
  sleep_check_state (set_sleep_check_state (fresh []) sleeping) = sleeping.
Proof.
  assert (H1 : sleep_check_now 1 seeded = Done (seeded, 0)) by (vm_compute; reflexivity).
  assert (H2 : sleep_check_now 1 (fresh []) =
               Done (set_sleep_check_state (fresh []) sleeping, 1))
    by (vm_compute; reflexivity).
  split; [exact H1|]. split; [exact H2|].
  destruct (sleep_check_now_agrees 1 (fresh []) _ 1 H2) as ([[_ H]|[H _]] & _);
    [exact H | discriminate H].
Defined.

Lemma jl_wakeup_thread_no_signal_witness :
  jl_wakeup_thread parked 0 = Done (emit parked JlWakeLibuv) /\
  sleep_check_state (emit parked JlWakeLibuv) = sleeping.
Proof.
  split; [|reflexivity].
  exact (jl_wakeup_thread_no_signal parked 0 (or_introl eq_refl)).
Defined.

(** Three threads, of which thread 2 has not started yet; the caller is
    thread 0 and the controller is sleeping. *)
Definition half_started : sched :=
  set_all_sleep_states
    {| mem := unowned; heaps := []; heap_p := 0; cong_unbias := 0;
       all_sleep_states := []; sleep_check_state := sleeping; sleep_threshold := 1000;
       jl_n_threads := 3; jl_uv_mutex := None; jl_uv_n_waiters := 0;
       ptls := {| tls_tid := 0; rngseed := [] |}; trace := [] |}
    [Some {| sleep_lock := false |}; Some {| sleep_lock := false |}; None].

Lemma jl_wakeup_thread_missing_slot_witness :
  all_sleep_states half_started !! Z.to_nat 2 = Some None /\
  sleep_check_state half_started = sleeping /\
  jl_wakeup_thread half_started 1 = Fault.
Proof.
  split; [reflexivity|]. split; [reflexivity|].
  apply (jl_wakeup_thread_missing_slot half_started 1 2);
    [discriminate | discriminate | discriminate | discriminate
    | split; [discriminate | reflexivity] | discriminate | reflexivity |].
  intros v Hv Hne. cbn [half_started set_all_sleep_states ptls tls_tid] in Hne.
  assert (v = 1) as -> by lia. reflexivity.
Defined.

Lemma wakeup_before_wait_is_not_lost_witness :
  sleep_check_state parked = sleeping /\
  exists s', jl_wakeup_thread parked 1 = Done s' /\
    sleep_check_state s' = not_sleeping /\
    park 0 (hook_answers []) (on_thread s' 1) = Done (on_thread s' 1, hook_answers []).
Proof.
  split; [reflexivity|]. eexists. split; [exact parked_wakeup|].
  destruct (wakeup_before_wait_is_not_lost parked _ 1 parked_wakeup ltac:(discriminate))
    as [H1 H2].
  split; [exact H1 | apply H2].
Defined.

(** ** The collector and the start of the threads *)

Lemma jl_gc_mark_enqueued_tasks_marks_enqueued_witness :
  heaps_allocated seeded /\
  jl_gc_mark_enqueued_tasks seeded = Done [Some 1%positive].
Proof.
  destruct seeded_quiet as [Halloc Hq]. split; [exact Halloc|].
  rewrite (jl_gc_mark_enqueued_tasks_marks_enqueued seeded Halloc).
  - vm_compute. reflexivity.
  - intros h Hh. apply (Hq h Hh).
Defined.

Lemma threads_started_park_slots_ready_witness :
  exists s0 s1,
    jl_init_threadinginfra (boot unowned 3 0 []) None = Done s0 /\
    all_sleep_states s0 = [Some {| sleep_lock := false |}; None; None] /\
    sleep_threshold s0 = 4000000 /\
    start_threads 2 s0 1 = Done s1 /\
    park_slots_ready (on_thread s1 2).
Proof.
  destruct (threads_started_park_slots_ready (boot unowned 3 0 []) None)
    as (s0 & s1 & H1 & _ & _ & _ & H2 & H3 & H4 & H5);
    [reflexivity | discriminate |].
  exists s0, s1. split; [exact H1|]. split; [exact H3|].
  split; [exact (H2 eq_refl)|]. split; [exact H4 | apply H5].
Defined.

Lemma sleep_threshold_from_environment_witness :
  exists s0,
    jl_init_threadinginfra (boot unowned 1 0 []) (Some "INFINITEly"%string) = Done s0 /\
    sleep_threshold s0 = 0.
Proof.
  destruct (sleep_threshold_from_environment (boot unowned 1 0 []) "INFINITEly")
    as (s0 & Hrun & Hyes & _); [reflexivity|].
  exists s0. split; [exact Hrun|]. apply Hyes.
  exists "INFINITE"%string, "ly"%string. split; reflexivity.
Defined.

(** ** The acquisition loop *)

(** Two threads after [jl_init_threadinginfra], with the default
    threshold. *)
Definition ready : sched :=
  match jl_init_threadinginfra (boot unowned 2 0 []) None with
  | Done s => s
  | _ => boot unowned 2 0 []
  end.

Definition clock (l : list Z) : replay_env_t :=
  {| sticky_answers := []; clock_readings := l; wait_returns := [] |}.

Lemma sleep_check_after_threshold_says_yes_witness :
  sleep_check_after_threshold 1 (clock [5000000]) ready 1 =
    Done (set_sleep_check_state ready sleeping, clock [], 1, 1) /\
  sleep_threshold ready <= uint64 (fst (jl_hrtime (clock [5000000])) - 1).
Proof.
  assert (H : sleep_check_after_threshold 1 (clock [5000000]) ready 1 =
              Done (set_sleep_check_state ready sleeping, clock [], 1, 1))
    by (vm_compute; reflexivity).
  split; [exact H|].
  destruct (sleep_check_after_threshold_says_yes 1 _ _ _ _ _ _ _ H) as (_ & Hyes & _).
  apply (Hyes eq_refl).
Defined.

Lemma get_next_task_sticky_first_witness :
  jl_apply_getsticky (hook_answers [Some 7%positive]) = (Some 7%positive, hook_answers []) /\
  exists s',
    get_next_task 0 (hook_answers [Some 7%positive]) seeded =
      Done (s', hook_answers [], Some 7%positive) /\
    jl_task_get_next 1 (hook_answers [Some 7%positive]) seeded =
      Done (s', hook_answers [], 7%positive) /\
    heaps s' = heaps seeded /\ tid (mem s' 7%positive) = 0.
Proof.
  assert (H0 : jl_apply_getsticky (hook_answers [Some 7%positive]) =
               (Some 7%positive, hook_answers [])) by reflexivity.
  split; [exact H0|].
  destruct (get_next_task_sticky_first 0 _ _ seeded 7%positive H0)
    as (s' & H1 & H2 & H3 & _ & _ & _ & _ & _ & H4).
  exists s'. split; [exact H1|]. split; [exact H2|]. split; [exact H3|].
  apply H4. right. reflexivity.
Defined.

Definition waits (l : list Z) : replay_env_t :=
  {| sticky_answers := []; clock_readings := []; wait_returns := l |}.

(** The worker of [parked] after two waits, the second of which finds the
    controller active. *)
Definition woken : sched :=
  match park 3 (waits [sleeping; not_sleeping]) parked with
  | Done (s, _) => s
  | _ => parked
  end.

Lemma woken_run : park 3 (waits [sleeping; not_sleeping]) parked = Done (woken, waits []).
Proof. vm_compute. reflexivity. Qed.

Lemma park_returns_awake_witness :
  sleep_check_state parked = sleeping /\
  park 3 (waits [sleeping; not_sleeping]) parked = Done (woken, waits []) /\
  sleep_check_state woken <> sleeping /\
  trace woken = [UvCondWait 0; UvCondWait 0].
Proof.
  split; [reflexivity|]. split; [exact woken_run|].
  destruct (park_returns_awake 3 _ _ _ _ woken_run) as (H1 & _).
  split; [exact H1 | reflexivity].
Defined.

(** A worker that finds nothing, decides to sleep after the threshold, runs
    the event loop, waits on its park slot, is woken and is then handed task
    7 by the sticky hook. *)
Definition idle_run : replay_env_t :=
  {| sticky_answers := [None; None; None; None; Some 7%positive];
     clock_readings := [10; 5000000];
     wait_returns := [not_sleeping] |}.

Definition worked : sched :=
  match jl_task_get_next 4 idle_run ready with
  | Done (s, _, _) => s
  | _ => ready
  end.

Lemma worked_run :
  jl_task_get_next 4 idle_run ready = Done (worked, hook_answers [], 7%positive).
Proof. vm_compute. reflexivity. Qed.

Lemma jl_task_get_next_events_witness :
  jl_task_get_next 4 idle_run ready = Done (worked, hook_answers [], 7%positive) /\
  trace worked = [UvCondWait 0; UvRun] /\
  jl_uv_mutex worked = jl_uv_mutex ready /\
  all_sleep_states worked = all_sleep_states ready.
Proof.
  split; [exact worked_run|]. split; [reflexivity|].
  destruct (jl_task_get_next_events 4 _ _ _ _ _ worked_run) as (_ & H1 & H2 & _).
  split; [exact H1 | exact H2].
Defined.

End MoreRuns.

(** * A shard of ten tasks (C2) *)

Section TenTasks.

#[local] Existing Instance replay_rng.

(** Task [t] has priority [t - 1], but for task 11, of priority -1. *)
Definition early : memory :=
  fun t => {| prio := if Pos.eqb t 11 then -1 else Z.pos t - 1; tid := -1 |}.

(** One shard, the tasks 1 to 10 in its slots 0 to 9. *)
Definition ten : sched :=
  {| mem := early; heaps := [filled 10]; heap_p := 1; cong_unbias := 0;
     all_sleep_states := []; sleep_check_state := not_sleeping; sleep_threshold := 0;
     jl_n_threads := 1; jl_uv_mutex := None; jl_uv_n_waiters := 0;
     ptls := {| tls_tid := 0; rngseed := [] |}; trace := [] |}.

Lemma ten_ordered : heaps_ordered ten.
Proof.
  intros h Hh _. apply list_elem_of_singleton in Hh. subst h.
  split; [apply filled_shape; vm_compute; lia|].
  intros i Hi. change (ntasks (filled 10)) with 10 in Hi.
  assert (Hc : i = 1 \/ i = 2 \/ i = 3 \/ i = 4 \/ i = 5 \/ i = 6 \/ i = 7 \/ i = 8 \/ i = 9)
    by lia.
  repeat (destruct Hc as [Hc|Hc]; [subst i; vm_compute; discriminate|]).
  subst i. vm_compute. discriminate.
Qed.

(** Task 11 inserted: [sift_up] takes it from slot 10 through slot 1 to the
    root. *)
Definition eleven : sched :=
  match multiq_insert 1 ten 11%positive (-1) with
  | Done (s, _) => s
  | _ => ten
  end.

Lemma eleven_run : multiq_insert 1 ten 11%positive (-1) = Done (eleven, Returned 0).
Proof. vm_compute. reflexivity. Qed.

(** The root extracted: the last task, task 2, goes to the root and
    [sift_down] exchanges it with task 1 in slot 1. *)
Definition ten_again : sched :=
  match multiq_deletemin 1 eleven with
  | Done (s, _) => s
  | _ => ten
  end.

Lemma ten_again_run : multiq_deletemin 1 eleven = Done (ten_again, Some 11%positive).
Proof. vm_compute. reflexivity. Qed.

(** The occupied slots of the one shard. *)
Definition slots (s : sched) : list (option ptr) :=
  match heaps s with
  | h :: _ => take (Z.to_nat (ntasks h)) (tasks h)
  | [] => []
  end.

Lemma heap_order_preserved_witness :
  0 <= heap_p ten <= INT16_MAX /\ heaps_ordered ten /\
  slots ten = Some <$> [1; 2; 3; 4; 5; 6; 7; 8; 9; 10]%positive /\
  multiq_insert 1 ten 11%positive (-1) = Done (eleven, Returned 0) /\
  slots eleven = Some <$> [11; 1; 3; 4; 5; 6; 7; 8; 9; 10; 2]%positive /\
  heaps_ordered eleven /\
  multiq_deletemin 1 eleven = Done (ten_again, Some 11%positive) /\
  slots ten_again = Some <$> [1; 2; 3; 4; 5; 6; 7; 8; 9; 10]%positive /\
  heaps_ordered ten_again /\
  (exists h', multiq_deletemin_pop (mem eleven) (default empty_heap (head (heaps eleven))) =
                Done h' /\ ntasks h' = 10).
Proof.
  assert (H1 : 0 <= heap_p ten <= INT16_MAX) by (split; discriminate).
  assert (H2 : 0 <= heap_p eleven <= INT16_MAX) by (split; discriminate).
  assert (Hins : insertable ten 11%positive (-1)) by (left; reflexivity).
  pose proof (proj1 (heap_order_preserved ten H1 ten_ordered)
                1%nat 11%positive (-1) eleven (Returned 0) Hins eleven_run) as H3.
  pose proof (heap_order_preserved eleven H2 H3) as (_ & Hdel & Hshard).
  split; [exact H1|]. split; [exact ten_ordered|]. split; [vm_compute; reflexivity|].
  split; [exact eleven_run|]. split; [vm_compute; reflexivity|]. split; [exact H3|].
  split; [exact ten_again_run|]. split; [vm_compute; reflexivity|].
  split; [exact (Hdel 1%nat ten_again (Some 11%positive) ten_again_run)|].
  destruct (Hshard (default empty_heap (head (heaps eleven)))) as [_ Hpop].
  - apply (list_elem_of_lookup_2 _ 0%nat). vm_compute. reflexivity.
  - vm_compute. reflexivity.
  - destruct Hpop as (h' & Hrun & Hn); [vm_compute; split; discriminate|].
    exists h'. split; [exact Hrun|]. rewrite Hn. vm_compute. reflexivity.
Defined.

End TenTasks.

(** * Two callers *)

(** [multiq_insert] gives up the lock of the shard before it looks at the
    cached priority (the unlock is followed by the load and the exchange),
    so that between any two of its last three steps another thread can run.
    The three steps are taken apart here; run one after the other by one
    caller they are [multiq_insert]. *)

Section TwoCallers.
Context {R : Rng}.

(** [multiq_insert] up to [jl_mutex_unlock_nogc(&heaps[rn].lock)]: the error
    of a full shard, or the shard the task went to. *)
Definition multiq_insert_critical (fuel : nat) (s : sched) (task : ptr) (priority : Z)
  : result (sched * completion Z) :=
  let s := set_mem s (set_task_prio (mem s) task priority) in
  '(s, rn) ← multiq_insert_pick fuel s;
  h ← load (heaps s) rn;
  if tasks_per_heap <=? ntasks h then
    s ← store_heap s rn (set_lock h false);
    Done (s, Raised "multiq insertion failed, increase #tasks per heap")
  else
    h ← multiq_insert_push (mem s) h task;
    s ← store_heap s rn (set_lock h false);
    Done (s, Returned rn).

(** [int16_t prio = jl_atomic_load(&heaps[rn].prio)] *)
Definition multiq_insert_load_prio (s : sched) (rn : Z) : result Z :=
  h ← load (heaps s) rn; Done (heap_prio h).

(** [if (task->prio < prio)
       jl_atomic_compare_exchange(&heaps[rn].prio, prio, task->prio)] *)
Definition multiq_insert_lower_prio (s : sched) (rn : Z) (task : ptr) (prio0 : Z)
  : result sched :=
  if prio (mem s task) <? prio0 then
    h ← load (heaps s) rn;
    store_heap s rn
      (set_heap_prio h
         (fst (jl_atomic_compare_exchange (heap_prio h) prio0 (prio (mem s task)))))
  else Done s.

(** The three steps by one caller, nothing in between. *)
Definition multiq_insert_stepwise (fuel : nat) (s : sched) (task : ptr) (priority : Z)
  : result (sched * completion Z) :=
  '(s, c) ← multiq_insert_critical fuel s task priority;
  match c with
  | Raised msg => Done (s, Raised msg)
  | Returned rn =>
    prio0 ← multiq_insert_load_prio s rn;
    s ← multiq_insert_lower_prio s rn task prio0;
    Done (s, Returned 0)
  end.

Lemma multiq_insert_in_steps (fuel : nat) (s : sched) (task : ptr) (priority : Z) :
  multiq_insert_stepwise fuel s task priority = multiq_insert fuel s task priority.
Proof.
  unfold multiq_insert_stepwise, multiq_insert_critical, multiq_insert.
  destruct (multiq_insert_pick fuel _) as [[s1 rn]| |]; cbn [mbind result_bind];
    try reflexivity.
  destruct (load (heaps s1) rn) as [h| |] eqn:Hl; cbn [mbind result_bind]; try reflexivity.
  apply load_Done in Hl as [Hrn Hl]. pose proof (lookup_lt_Some _ _ _ Hl) as Hlen.
  destruct (tasks_per_heap <=? ntasks h).
  { destruct (store_heap s1 rn (set_lock h false)); reflexivity. }
  destruct (multiq_insert_push (mem s1) h task) as [hp| |]; cbn [mbind result_bind];
    try reflexivity.
  unfold store_heap. rewrite store_in_range by lia. cbn [mbind result_bind].
  unfold multiq_insert_load_prio, multiq_insert_lower_prio.
  cbn [set_heaps heaps mem].
  assert (Hl' : load (<[Z.to_nat rn := set_lock hp false]> (heaps s1)) rn =
                Done (set_lock hp false)).
  { apply load_Done. split; [exact Hrn|]. apply list_lookup_insert_eq. exact Hlen. }
  rewrite Hl'. cbn [mbind result_bind].
  destruct (prio (mem s1 task) <? heap_prio (set_lock hp false)).
  - cbn [mbind result_bind].
    unfold store_heap. cbn [set_heaps heaps].
    rewrite !store_in_range by (rewrite ?length_insert; lia).
    cbn [mbind result_bind set_heaps]. rewrite list_insert_insert_eq. reflexivity.
  - cbn [mbind result_bind]. rewrite store_in_range by lia. reflexivity.
Qed.

End TwoCallers.

Section RaceRuns.

#[local] Existing Instance replay_rng.

(** The shard an insertion went to; the runs below insert into shards with
    room. *)
Definition went_to (c : completion Z) : result Z :=
  match c with
  | Returned rn => Done rn
  | Raised _ => Fault
  end.

(** Task 1 with priority 5 in shard 3; the generator will draw shard 3
    twice more. *)
Definition five : sched :=
  match multiq_insert 1 (fresh [3; 3; 3]) 1%positive 5 with
  | Done (s, _) => s
  | _ => fresh []
  end.

Lemma five_run :
  multiq_insert 1 (fresh [3; 3; 3]) 1%positive 5 = Done (five, Returned 0).
Proof. vm_compute. reflexivity. Qed.

Lemma five_ok : multiq_ok five.
Proof.
  intros h Hh Hl.
  destruct (multiq_insert_preserves true 1 (fresh [3; 3; 3]) 1%positive 5 five (Returned 0)
              (fresh_insertable _ _ _) (fun _ => ltac:(discriminate)) five_run)
    with (h := h) as (H1 & H2 & H3); [|exact Hh|exact Hl|].
  - intros h' Hh' Hl'. destruct (multiq_init_ok _ h' Hh' Hl') as (H1 & H2 & H3). auto.
  - split; [exact H1|]. split; [exact H2 | apply H3; reflexivity].
Qed.

(** Worker 0 inserts task 2 with priority 3 and has read the cached
    priority, 5, when worker 1 inserts task 3 with priority 4, which lowers
    the cached priority to 4; worker 0 then goes on with its exchange of 5
    for 3, which fails. *)
Definition cache_race : result sched :=
  '(s, c) ← multiq_insert_critical 1 (on_thread five 0) 2%positive 3;
  rn ← went_to c;
  seen ← multiq_insert_load_prio s rn;
  '(s, _) ← multiq_insert 1 (on_thread s 1) 3%positive 4;
  multiq_insert_lower_prio (on_thread s 0) rn 2%positive seen.

Definition raced : sched :=
  match cache_race with
  | Done s => s
  | _ => five
  end.

Definition raced_shard : taskheap_t := default empty_heap (heaps raced !! 3%nat).

(** Worker 0 inserts task 2 with priority 3 into the empty multi-queue and
    has read the cached priority, [INT16_MAX], when worker 1 inserts task 3
    with priority 4 and then extracts twice, which empties the shard again;
    the exchange of worker 0, of [INT16_MAX] for 3, then succeeds. *)
Definition stale_cache : result (sched * list (option ptr)) :=
  '(s, c) ← multiq_insert_critical 1 (on_thread (fresh [3; 3; 3; 3; 3; 3; 3; 3]) 0)
                                   2%positive 3;
  rn ← went_to c;
  seen ← multiq_insert_load_prio s rn;
  '(s, _) ← multiq_insert 1 (on_thread s 1) 3%positive 4;
  '(s, r1) ← multiq_deletemin 1 s;
  '(s, r2) ← multiq_deletemin 1 s;
  s ← multiq_insert_lower_prio (on_thread s 0) rn 2%positive seen;
  Done (s, [r1; r2]).

Definition stale : sched :=
  match stale_cache with
  | Done (s, _) => s
  | _ => fresh []
  end.

Definition stale_shard : taskheap_t := default empty_heap (heaps stale !! 3%nat).

(** C3, where the code departs from it: [multiq_insert] unlocks the shard
    before it loads and exchanges the cached priority, whereas
    [multiq_deletemin] stores the cached priority before it unlocks.  With
    two callers the cached priority is then wrong with every call completed
    and no lock held.  In the first run, from a multi-queue at rest, shard 3
    ends with task 2, of priority 3, at its root and 4 as cached priority.
    In the second, from the empty multi-queue, shard 3 ends empty with 3 as
    cached priority, and the next [multiq_deletemin] that draws it reads
    [task->tid] through the [NULL] in slot 0. *)
Theorem multiq_insert_cache_race :
  (multiq_ok five /\
   cache_race = Done raced /\
   forallb (fun h => negb (lock h)) (heaps raced) = true /\
   heaps raced !! 3%nat = Some raced_shard /\
   ntasks raced_shard = 3 /\
   tasks raced_shard !! 0%nat = Some (Some 2%positive) /\
   prio (mem raced 2%positive) = 3 /\
   heap_prio raced_shard = 4 /\
   ~ multiq_ok raced) /\
  (multiq_ok (fresh [3; 3; 3; 3; 3; 3; 3; 3]) /\
   stale_cache = Done (stale, [Some 2%positive; Some 3%positive]) /\
   forallb (fun h => negb (lock h)) (heaps stale) = true /\
   heaps stale !! 3%nat = Some stale_shard /\
   ntasks stale_shard = 0 /\ heap_prio stale_shard = 3 /\
   ~ multiq_ok stale /\
   multiq_deletemin 1 stale = Fault).
Proof.
  split.
  - split; [exact five_ok|].
    split; [vm_compute; reflexivity|]. split; [vm_compute; reflexivity|].
    assert (Hh : heaps raced !! 3%nat = Some raced_shard) by (vm_compute; reflexivity).
    split; [exact Hh|]. split; [vm_compute; reflexivity|].
    split; [vm_compute; reflexivity|]. split; [vm_compute; reflexivity|].
    split; [vm_compute; reflexivity|].
    intros Hok. destruct (Hok raced_shard) as (_ & _ & Hcache).
    + eapply list_elem_of_lookup_2, Hh.
    + vm_compute. reflexivity.
    + vm_compute in Hcache. discriminate Hcache.
  - split; [apply multiq_init_ok|].
    split; [vm_compute; reflexivity|]. split; [vm_compute; reflexivity|].
    assert (Hh : heaps stale !! 3%nat = Some stale_shard) by (vm_compute; reflexivity).
    split; [exact Hh|]. split; [vm_compute; reflexivity|].
    split; [vm_compute; reflexivity|]. split.
    + intros Hok. destruct (Hok stale_shard) as (_ & _ & Hcache).
      * eapply list_elem_of_lookup_2, Hh.
      * vm_compute. reflexivity.
      * vm_compute in Hcache. discriminate Hcache.
    + vm_compute. reflexivity.
Qed.

End RaceRuns.
